(** * Connectivity vectors of the district energy optimisation

    A shallow embedding of [cea/optimization_new/helpercalsses/optimization/
    connectivity.py]: the [Connection] gene with its validating setters, the
    [ConnectivityVector] genome with its canonicalisation, the cluster-aware
    mutation and recombination operators and the non-dominated selection. *)

From Stdlib Require Import ZArith QArith Lia.
From Stdlib Require Import Floats.SpecFloat.
From stdpp Require Import gmap strings list sorting pretty.

#[local] Set Warnings "-register-all".

(** ** Python values

    The values a [network_connection] attribute can be handed: the setter
    tests truthiness, [isinstance(_, int)] and membership in a [range], so
    the embedding keeps the dynamic type of the value. *)

Inductive pyval : Type :=
  | PyNone
  | PyBool (b : bool)
  | PyInt (z : Z)
  | PyFloat (f : spec_float)
  | PyStr (s : string).

Inductive exn : Type :=
  | ValueError
  | TypeError
  | AttributeError
  | IndexError.

Inductive result (A : Type) : Type :=
  | Ok (a : A)
  | Raise (e : exn).
Arguments Ok {A} a.
Arguments Raise {A} e.

#[global] Instance result_ret : MRet result := fun A a => Ok a.
#[global] Instance result_bind : MBind result := fun A B f m =>
  match m with Ok a => f a | Raise e => Raise e end.

Definition is_ok {A} (r : result A) : bool :=
  match r with Ok _ => true | Raise _ => false end.

(** [bool(v)]. *)
Definition py_truthy (v : pyval) : bool :=
  match v with
  | PyNone => false
  | PyBool b => b
  | PyInt z => negb (z =? 0)%Z
  | PyFloat (S754_zero _) => false
  | PyFloat _ => true
  | PyStr s => negb (String.eqb s "")
  end.

(** [isinstance(v, int)]; [bool] is a subclass of [int]. *)
Definition isinstance_int (v : pyval) : bool :=
  match v with
  | PyBool _ | PyInt _ => true
  | _ => false
  end.

(** The integer a float is exactly equal to, if there is one. *)
Definition float_as_int (f : spec_float) : option Z :=
  match f with
  | S754_zero _ => Some 0%Z
  | S754_finite s m e =>
      let n := if s then Z.neg m else Z.pos m in
      if (0 <=? e)%Z then Some (n * 2 ^ e)%Z
      else if (Z.pos m mod 2 ^ (- e) =? 0)%Z then Some (n / 2 ^ (- e))%Z
      else None
  | _ => None
  end.

(** The integer a value compares equal to ([True == 1], [2.0 == 2]). *)
Definition py_as_int (v : pyval) : option Z :=
  match v with
  | PyBool b => Some (if b then 1 else 0)%Z
  | PyInt z => Some z
  | PyFloat f => float_as_int f
  | _ => None
  end.

Definition float_eqb (f g : spec_float) : bool :=
  match f, g with
  | S754_zero _, S754_zero _ => true
  | S754_infinity s, S754_infinity t => Bool.eqb s t
  | S754_nan, S754_nan => true
  | S754_finite s m e, S754_finite t n d =>
      Bool.eqb s t && (m =? n)%positive && (e =? d)%Z
  | _, _ => false
  end.

(** Equality as [list.count], [in] and [set] test it (the object itself, or
    [==]): numbers compare by value across [bool], [int] and [float]; a NaN
    is taken to be the object it is compared with. *)
Definition py_eqb (a b : pyval) : bool :=
  match py_as_int a, py_as_int b with
  | Some x, Some y => (x =? y)%Z
  | None, None =>
      match a, b with
      | PyNone, PyNone => true
      | PyStr s, PyStr t => String.eqb s t
      | PyFloat f, PyFloat g => float_eqb f g
      | _, _ => false
      end
  | _, _ => false
  end.

(** [range(stop)] as a list. *)
Definition py_range (stop : Z) : list Z :=
  Z.of_nat <$> seq 0 (Z.to_nat stop).

(** [l.count(x)]. *)
Definition py_count (x : pyval) (l : list pyval) : nat :=
  length (filter (fun v => py_eqb v x = true) l).

(** [v in l] for a list of integers [l]. *)
Definition py_in_ints (v : pyval) (l : list Z) : bool :=
  existsb (fun i => py_eqb v (PyInt i)) l.

(** ** Class [Connection] *)

(** The class attributes [Connection.initialize_class_variables] fills in;
    [possible_connections] is [range(maximum_number_of_networks + 1)]. *)
Record config : Type := {
  maximum_number_of_networks : Z;
  possible_building_codes : list string;
  zero_demand_buildings : list string
}.

Definition possible_connections (cfg : config) : list Z :=
  py_range (maximum_number_of_networks cfg + 1).

(** [_building] holds whatever the setter of [building] lets through: a
    building code, or a value that is false in a boolean context. *)
Record Connection : Type := {
  building : pyval;
  network_connection : pyval
}.

(** [isinstance(v, str)]. *)
Definition isinstance_str (v : pyval) : bool :=
  match v with
  | PyStr _ => true
  | _ => false
  end.

(** [v in l] for a list of strings [l]: only a string equals a string. *)
Definition py_in_strs (v : pyval) (l : list string) : bool :=
  match v with
  | PyStr code => bool_decide (code ∈ l)
  | _ => false
  end.

(** [self.building in Connection.zero_demand_buildings]. *)
Definition in_zero_demand (cfg : config) (b : pyval) : bool :=
  py_in_strs b (zero_demand_buildings cfg).

(** The setter of [network_connection], on a connection of building [b]:
    the value that ends up in [_network_connection], or the error. *)
Definition network_connection_setter (cfg : config) (b : pyval)
    (new_connection : pyval) : result pyval :=
  if py_truthy new_connection && negb (isinstance_int new_connection)
  then Raise ValueError
  else if py_truthy new_connection
          && negb (py_in_ints new_connection (possible_connections cfg))
  then Raise ValueError
  else if in_zero_demand cfg b then Ok (PyInt 0)
  else Ok new_connection.

(** [c.network_connection = v] on an existing object. *)
Definition set_network_connection (cfg : config) (c : Connection)
    (v : pyval) : result Connection :=
  stored ← network_connection_setter cfg (building c) v;
  mret {| building := building c; network_connection := stored |}.

(** The setter of [building]: the value that ends up in [_building], or
    the error. *)
Definition building_setter (cfg : config) (new_building_code : pyval)
    : result pyval :=
  if py_truthy new_building_code && negb (isinstance_str new_building_code)
  then Raise ValueError
  else if py_truthy new_building_code
          && negb (py_in_strs new_building_code (possible_building_codes cfg))
  then Raise ValueError
  else Ok new_building_code.

(** [Connection(network_connection, building_code)]; an omitted argument
    is [None]. *)
Definition Connection_init (cfg : config) (network_connection : pyval)
    (building_code : pyval) : result Connection :=
  b ← building_setter cfg building_code;
  stored ← (if py_truthy network_connection
            then network_connection_setter cfg b network_connection
            else network_connection_setter cfg b (PyInt 0));
  mret {| building := b; network_connection := stored |}.

(** ** Python objects handed around between the methods *)

Definition loc : Type := nat.

(** What an argument or a return value can be: a plain value, a
    [Connection], a reference to a [ConnectivityVector] object, a list or a
    tuple of such. *)
Inductive pyobj : Type :=
  | ObjValue (v : pyval)
  | ObjConnection (c : Connection)
  | ObjVector (l : loc)
  | ObjList (xs : list pyobj)
  | ObjTuple (xs : list pyobj).

(** [isinstance(o, Connection)]. *)
Definition as_connection (o : pyobj) : option Connection :=
  match o with ObjConnection c => Some c | _ => None end.

(** [isinstance(o, list) and all(isinstance(c, Connection) for c in o)]. *)
Definition as_connection_list (o : pyobj) : option (list Connection) :=
  match o with
  | ObjList xs => mapM as_connection xs
  | _ => None
  end.

(** ** Class [ConnectivityVector] *)

(** Modelled from the spec: class [Fitness] is not among the sources; the
    genome's fitness is an opaque multi-objective handle attached by the
    evaluator. *)
Record Fitness : Type := { wvalues : list Q }.

Definition Fitness_init : Fitness := {| wvalues := [] |}.

Record ConnectivityVector : Type := {
  connections : list Connection;
  fitness : Fitness
}.

(** [bool(o)], given the objects behind the references: an instance of a
    class without [__bool__] and [__len__] is true, a sequence (and a
    [ConnectivityVector], which has [__len__]) is true unless it is
    empty. *)
Definition obj_truthy (objects : loc -> ConnectivityVector) (o : pyobj)
    : bool :=
  match o with
  | ObjValue v => py_truthy v
  | ObjConnection _ => true
  | ObjVector cv => negb (length (connections (objects cv)) =? 0)
  | ObjList xs | ObjTuple xs => negb (bool_decide (xs = []))
  end.

(** [values] (getter). *)
Definition values (cv : ConnectivityVector) : list pyval :=
  network_connection <$> connections cv.

(** [[i for i in Connection.possible_connections if new_values.count(i) == 1]] *)
Definition values_appearing_once (cfg : config) (new_values : list pyval)
    : list Z :=
  filter (fun i => py_count (PyInt i) new_values = 1)
         (possible_connections cfg).

(** [{i: 0 for i, connection in enumerate(new_connections)
        if connection.network_connection in values_appearing_once}],
    as the list of its items. *)
Definition changed_values (once : list Z) (new_connections : list Connection)
    : list (nat * pyval) :=
  (fun ic => (ic.1, PyInt 0)) <$>
    filter (fun ic => py_in_ints (network_connection ic.2) once = true)
           (imap pair new_connections).

(** [for index, corrected_value in changed_values.items():
       new_connections[index].network_connection = corrected_value] *)
Fixpoint assign_changed (cfg : config) (changes : list (nat * pyval))
    (new_connections : list Connection) : result (list Connection) :=
  match changes with
  | [] => Ok new_connections
  | (index, corrected_value) :: rest =>
      match new_connections !! index with
      | None => Raise IndexError
      | Some c =>
          c' ← set_network_connection cfg c corrected_value;
          assign_changed cfg rest (<[index := c']> new_connections)
      end
  end.

(** The [else] branch of the setter of [connections]. *)
Definition canonical_connections (cfg : config)
    (new_connections : list Connection) : result (list Connection) :=
  let new_values := network_connection <$> new_connections in
  let once := values_appearing_once cfg new_values in
  if negb (bool_decide (once = []))
  then assign_changed cfg (changed_values once new_connections) new_connections
  else Ok new_connections.

(** The setter of [connections]. *)
Definition connections_setter (cfg : config) (new_connections : pyobj)
    : result (list Connection) :=
  match as_connection_list new_connections with
  | None => Raise ValueError
  | Some l => canonical_connections cfg l
  end.

(** [ConnectivityVector(connection_list)]; an omitted argument is [None].
    [objects] gives the vectors a reference in the argument stands for. *)
Definition ConnectivityVector_init (cfg : config)
    (objects : loc -> ConnectivityVector) (connection_list : pyobj)
    : result ConnectivityVector :=
  conns ← (if negb (obj_truthy objects connection_list)
           then c ← Connection_init cfg PyNone PyNone;
                connections_setter cfg (ObjList [ObjConnection c])
           else connections_setter cfg connection_list);
  mret {| connections := conns; fitness := Fitness_init |}.

(** [reset]: [self.connections = self.connections]. *)
Definition reset (cfg : config) (cv : ConnectivityVector)
    : result ConnectivityVector :=
  conns ← connections_setter cfg (ObjList (ObjConnection <$> connections cv));
  mret {| connections := conns; fitness := fitness cv |}.

(** Floating-point behaviour of the interpreter that the embedding leaves
    open: [round(x, 2)] and [str(x)] on a finite non-zero float. *)
Class FloatOps : Type := {
  float_round2 : spec_float -> spec_float;
  float_str : spec_float -> string
}.

(** [round(v, 2)]: an [int] is returned as it is, a [bool] as the [int] it
    equals; zeros, infinities and NaN round to themselves. *)
Definition py_round2 `{FloatOps} (v : pyval) : result pyval :=
  match v with
  | PyInt z => Ok (PyInt z)
  | PyBool b => Ok (PyInt (if b then 1 else 0))
  | PyFloat f =>
      Ok (PyFloat (match f with
                   | S754_finite _ _ _ => float_round2 f
                   | _ => f
                   end))
  | PyNone | PyStr _ => Raise TypeError
  end.

(** [str(v)]. *)
Definition py_str `{FloatOps} (v : pyval) : string :=
  match v with
  | PyNone => "None"
  | PyBool b => if b then "True" else "False"
  | PyInt z => pretty z
  | PyFloat f =>
      match f with
      | S754_zero s => if s then "-0.0" else "0.0"
      | S754_infinity s => if s then "-inf" else "inf"
      | S754_nan => "nan"
      | S754_finite _ _ _ => float_str f
      end
  | PyStr s => s
  end.

(** [__getitem__] with an [int] key; positions are counted from the front. *)
Definition getitem (cv : ConnectivityVector) (item : nat) : result pyval :=
  match connections cv !! item with
  | Some c => Ok (network_connection c)
  | None => Raise IndexError
  end.

(** [__setitem__] with an [int] key:
    [self.connections[key].network_connection = round(value, 2)]; the
    right-hand side is evaluated first. *)
Definition setitem `{FloatOps} (cfg : config) (cv : ConnectivityVector)
    (key : nat) (value : pyval) : result ConnectivityVector :=
  rounded ← py_round2 value;
  match connections cv !! key with
  | None => Raise IndexError
  | Some c =>
      c' ← set_network_connection cfg c rounded;
      mret {| connections := <[key := c']> (connections cv);
              fitness := fitness cv |}
  end.

(** [for i in range(len(self)): self[i] = new_values[i]]; an error leaves
    the positions assigned so far as they are. *)
Fixpoint setitem_all `{FloatOps} (cfg : config) (cv : ConnectivityVector)
    (items : list (nat * pyval)) : result unit * ConnectivityVector :=
  match items with
  | [] => (Ok (), cv)
  | (i, v) :: rest =>
      match setitem cfg cv i v with
      | Ok cv' => setitem_all cfg cv' rest
      | Raise e => (Raise e, cv)
      end
  end.

(** The setter of [values], handed a list. *)
Definition values_setter `{FloatOps} (cfg : config) (cv : ConnectivityVector)
    (new_values : list pyval) : result unit * ConnectivityVector :=
  if negb (length new_values =? length (connections cv))
  then (Raise ValueError, cv)
  else
    let once := values_appearing_once cfg new_values in
    let new_values :=
      if negb (bool_decide (once = []))
      then (fun i => if py_in_ints i once then PyInt 0 else i) <$> new_values
      else new_values in
    setitem_all cfg cv (imap pair new_values).

(** [as_str]: ['_'.join(map(str, self.values))]. *)
Definition as_str `{FloatOps} (cv : ConnectivityVector) : string :=
  String.concat "_" (py_str <$> values cv).

(** ** The state the operators run in

    The genetic operators change [ConnectivityVector] objects in place, read
    and fill the class attribute [_cluster_indexes] and draw from the
    process-wide random source.  Objects live in a store addressed by
    references; the random source is an oracle: the [k]-th call returns the
    [k]-th entry of a tape. *)

Record world : Type := {
  heap : loc -> ConnectivityVector;
  cluster_indexes : option (list Z);
  uniforms : nat -> Q;
  integers : nat -> nat;
  draws : nat
}.

Definition M (A : Type) : Type := world -> result A * world.

#[global] Instance M_ret : MRet M := fun A a w => (Ok a, w).
#[global] Instance M_bind : MBind M := fun A B f m w =>
  match m w with
  | (Ok a, w') => f a w'
  | (Raise e, w') => (Raise e, w')
  end.

Definition raise {A} (e : exn) : M A := fun w => (Raise e, w).

Definition lift_result {A} (r : result A) : M A := fun w => (r, w).

(** [for x in xs: body(x)] *)
Fixpoint for_each {A} (xs : list A) (body : A -> M unit) : M unit :=
  match xs with
  | [] => mret ()
  | x :: rest => body x;; for_each rest body
  end.

Definition store (l : loc) (cv : ConnectivityVector) (w : world) : world :=
  {| heap := fun l' => if decide (l' = l) then cv else heap w l';
     cluster_indexes := cluster_indexes w;
     uniforms := uniforms w; integers := integers w; draws := draws w |}.

Definition drawn (w : world) : world :=
  {| heap := heap w; cluster_indexes := cluster_indexes w;
     uniforms := uniforms w; integers := integers w; draws := S (draws w) |}.

Definition Qltb (x y : Q) : bool := (Qnum x * QDen y <? Qnum y * QDen x)%Z.

(** [random.random()] *)
Definition random_random : M Q :=
  fun w => (Ok (uniforms w (draws w)), drawn w).

Definition randbelow (n : nat) : M nat :=
  fun w => (Ok (integers w (draws w) mod n), drawn w).

(** [random.choice(seq)] *)
Definition random_choice {A} (seq : list A) : M A :=
  match seq with
  | [] => raise IndexError
  | _ =>
      k ← randbelow (length seq);
      match seq !! k with
      | Some x => mret x
      | None => raise IndexError
      end
  end.

(** [random.randint(a, b)] *)
Definition random_randint (a b : Z) : M Z :=
  if (b <? a)%Z then raise ValueError
  else k ← randbelow (Z.to_nat (b - a + 1)); mret (a + Z.of_nat k)%Z.

(** [len(cv)], [cv[i]], [cv[i] = v] and [cv.reset()] on the object behind a
    reference. *)
Definition cv_read (cv : loc) : M ConnectivityVector :=
  fun w => (Ok (heap w cv), w).

Definition cv_len (cv : loc) : M nat :=
  fun w => (Ok (length (connections (heap w cv))), w).

Definition cv_getitem (cv : loc) (i : nat) : M pyval :=
  fun w => (getitem (heap w cv) i, w).

Definition cv_setitem `{FloatOps} (cfg : config) (cv : loc) (i : nat)
    (v : pyval) : M unit :=
  fun w =>
    match setitem cfg (heap w cv) i v with
    | Ok cv' => (Ok (), store cv cv' w)
    | Raise e => (Raise e, w)
    end.

Definition cv_reset (cfg : config) (cv : loc) : M pyobj :=
  fun w =>
    match reset cfg (heap w cv) with
    | Ok cv' => (Ok (ObjVector cv), store cv cv' w)
    | Raise e => (Raise e, w)
    end.

(** [o[i]] and [o.reset()] on whatever object [o] is. *)
Definition obj_getitem (o : pyobj) (i : nat) : M pyobj :=
  match o with
  | ObjTuple xs | ObjList xs =>
      match xs !! i with
      | Some x => mret x
      | None => raise IndexError
      end
  | ObjVector cv => v ← cv_getitem cv i; mret (ObjValue v)
  | ObjValue (PyStr s) =>
      match String.get i s with
      | Some ch => mret (ObjValue (PyStr (String ch "")))
      | None => raise IndexError
      end
  | ObjValue _ | ObjConnection _ => raise TypeError
  end.

Definition obj_reset (cfg : config) (o : pyobj) : M pyobj :=
  match o with
  | ObjVector cv => cv_reset cfg cv
  | _ => raise AttributeError
  end.

(** Reading [ConnectivityVector._cluster_indexes] where the code iterates
    over it. *)
Definition iter_cluster_indexes : M (list Z) :=
  fun w =>
    match cluster_indexes w with
    | Some ci => (Ok ci, w)
    | None => (Raise TypeError, w)
    end.

(** The order in which iterating over [set(l)] yields its elements; the
    language leaves it open. *)
Class SetOrder (A : Type) : Type := set_iter : list A -> list A.

(** The attributes of the algorithm object the operators read. *)
Record GeneticAlgorithm : Type := {
  mutation : string;
  mut_prob : Q;
  crossover : string;
  cx_prob : Q
}.

(** Class [Clustering] is not among the sources:
    [Clustering(connection_points).cluster()] is a parameter. *)
Class ClusteringOps : Type := {
  connection_point : Type;
  Clustering_cluster : list connection_point -> list Z
}.

(** [[i for i, x in enumerate(cluster_indexes) if x == cluster]] *)
Definition positions_of (cluster : Z) (ci : list Z) : list nat :=
  fst <$> filter (fun ix => ix.2 = cluster) (imap pair ci).

(** [cv_1[index], cv_2[index] = cv_2[index], cv_1[index]] *)
Definition swap_at `{FloatOps} (cfg : config) (cv_1 cv_2 : loc) (index : nat)
    : M unit :=
  a ← cv_getitem cv_2 index;
  b ← cv_getitem cv_1 index;
  cv_setitem cfg cv_1 index a;;
  cv_setitem cfg cv_2 index b.

Section Operators.
Context `{FloatOps} `{SetOrder Z} `{SetOrder pyval} `{ClusteringOps}.
Variable cfg : config.

(** *** Mutation *)

(** [deap.tools.mutShuffleIndexes] (library code, not of this
    repository), on a [ConnectivityVector]. *)
Definition mutShuffleIndexes (individual : loc) (indpb : Q) : M pyobj :=
  size ← cv_len individual;
  for_each (seq 0 size) (fun i =>
    u ← random_random;
    if Qltb u indpb then
      r ← random_randint 0 (Z.of_nat size - 2);
      let swap_indx :=
        Z.to_nat (if (Z.of_nat i <=? r)%Z then r + 1 else r) in
      a ← cv_getitem individual swap_indx;
      b ← cv_getitem individual i;
      cv_setitem cfg individual i a;;
      cv_setitem cfg individual swap_indx b
    else mret ());;
  mret (ObjTuple [ObjVector individual]).

(** [deap.tools.mutUniformInt] (library code, not of this repository)
    with integer bounds. *)
Definition mutUniformInt (individual : loc) (low up : Z) (indpb : Q)
    : M pyobj :=
  size ← cv_len individual;
  for_each (seq 0 size) (fun i =>
    u ← random_random;
    if Qltb u indpb then
      v ← random_randint low up;
      cv_setitem cfg individual i (PyInt v)
    else mret ());;
  mret (ObjTuple [ObjVector individual]).

Definition ClusterSwitch (cv : loc) (mut_prob : Q) : M pyobj :=
  ci ← iter_cluster_indexes;
  let clusters := set_iter ci in
  let possible_connections := possible_connections cfg in
  for_each clusters (fun cluster =>
    if (0 <=? cluster)%Z then
      new_connectivity ← random_choice possible_connections;
      for_each (imap pair ci) (fun '(i, cluster_index) =>
        if (cluster_index =? cluster)%Z then
          u ← random_random;
          if Qltb u mut_prob
          then cv_setitem cfg cv i (PyInt new_connectivity)
          else mret ()
        else mret ())
    else
      for_each (imap pair ci) (fun '(i, cluster_index) =>
        if (cluster_index <? 0)%Z then
          u ← random_random;
          if Qltb u mut_prob
          then v ← random_choice possible_connections;
               cv_setitem cfg cv i (PyInt v)
          else mret ()
        else mret ()));;
  mret (ObjVector cv).

(** [if not ConnectivityVector._cluster_indexes:
       ConnectivityVector._cluster_indexes = Clustering(...).cluster()] *)
Definition ensure_cluster_indexes (connection_points : list connection_point)
    : M unit :=
  fun w =>
    match cluster_indexes w with
    | Some (_ :: _) => (Ok (), w)
    | _ =>
        (Ok (),
         {| heap := heap w;
            cluster_indexes := Some (Clustering_cluster connection_points);
            uniforms := uniforms w; integers := integers w;
            draws := draws w |})
    end.

Definition mutate (cv : loc) (algorithm : GeneticAlgorithm)
    (connection_points : list connection_point) : M pyobj :=
  mutated_cv ←
    (if String.eqb (mutation algorithm) "ShuffleIndexes"
     then mutShuffleIndexes cv (mut_prob algorithm)
     else if String.eqb (mutation algorithm) "UniformInteger"
     then
       let nbr_of_networks := (maximum_number_of_networks cfg + 1 - 1)%Z in
       mutUniformInt cv 0 nbr_of_networks (mut_prob algorithm)
     else if String.eqb (mutation algorithm) "ClusterSwitch"
     then
       ensure_cluster_indexes connection_points;;
       ClusterSwitch cv (mut_prob algorithm)
     else raise ValueError);
  first ← obj_getitem mutated_cv 0;
  obj_reset cfg first;;
  mret mutated_cv.

(** *** Recombination *)

Fixpoint select_values_with_probability {A} (values : list A)
    (probability : Q) : M (list A) :=
  match values with
  | [] => mret []
  | value :: rest =>
      u ← random_random;
      selected ← select_values_with_probability rest probability;
      mret (if Qltb u probability then value :: selected else selected)
  end.

Definition ClusterSwap (cv_1 cv_2 : loc) (cx_prob : Q) : M pyobj :=
  ci ← iter_cluster_indexes;
  let clusters := set_iter ci in
  selected_clusters ← select_values_with_probability clusters cx_prob;
  for_each selected_clusters (fun cluster =>
    for_each (positions_of cluster ci) (swap_at cfg cv_1 cv_2));;
  mret (ObjTuple [ObjVector cv_1; ObjVector cv_2]).

(** [max(xs, key=key)]: the first of the elements with the largest key. *)
Fixpoint py_max_from {A} (key : A -> nat) (best : A) (xs : list A) : A :=
  match xs with
  | [] => best
  | x :: rest => py_max_from key (if key best <? key x then x else best) rest
  end.

Definition py_max {A} (key : A -> nat) (xs : list A) : result A :=
  match xs with
  | [] => Raise ValueError
  | x :: rest => Ok (py_max_from key x rest)
  end.

(** [max(set(building_connectivity_values),
         key=building_connectivity_values.count)] *)
Definition most_prevalent_connectivity_value
    (building_connectivity_values : list pyval) : result pyval :=
  py_max (fun v => py_count v building_connectivity_values)
         (set_iter building_connectivity_values).

(** [for index in relevant_building_indexes:
       most_prevalent_connectivity_values[index] = value] *)
Fixpoint assign_prevalent (indexes : list nat) (value : pyval)
    (most_prevalent : list pyval) : result (list pyval) :=
  match indexes with
  | [] => Ok most_prevalent
  | index :: rest =>
      if index <? length most_prevalent
      then assign_prevalent rest value (<[index := value]> most_prevalent)
      else Raise IndexError
  end.

Fixpoint most_prevalent_loop (cv : ConnectivityVector) (ci : list Z)
    (clusters : list Z) (most_prevalent : list pyval)
    : result (list pyval) :=
  match clusters with
  | [] => Ok most_prevalent
  | cluster :: rest =>
      if (cluster <? 0)%Z then most_prevalent_loop cv ci rest most_prevalent
      else
        let relevant_building_indexes := positions_of cluster ci in
        building_connectivity_values ←
          mapM (getitem cv) relevant_building_indexes;
        value ←
          most_prevalent_connectivity_value building_connectivity_values;
        most_prevalent' ←
          assign_prevalent relevant_building_indexes value most_prevalent;
        most_prevalent_loop cv ci rest most_prevalent'
  end.

(** The body of [_get_most_prevalent_connectivity_values(cv, clusters)],
    given the genome and the cluster indexes it reads. *)
Definition most_prevalent_connectivity_values (cv : ConnectivityVector)
    (ci : list Z) (clusters : list Z) : result (list pyval) :=
  most_prevalent_loop cv ci clusters
    (replicate (length (connections cv)) PyNone).

Definition _get_most_prevalent_connectivity_values (cv : loc)
    (clusters : list Z) : M (list pyval) :=
  ci ← iter_cluster_indexes;
  genome ← cv_read cv;
  lift_result (most_prevalent_connectivity_values genome ci clusters).

(** [[i for i, (pcv_1, pcv_2) in enumerate(zip(...))
       if cv_1[i] == pcv_2 and cv_2[i] == pcv_1]] *)
Fixpoint swappable_building_indexes (cv_1 cv_2 : loc)
    (pairs : list (nat * (pyval * pyval))) : M (list nat) :=
  match pairs with
  | [] => mret []
  | (i, (pcv_1, pcv_2)) :: rest =>
      a ← cv_getitem cv_1 i;
      keep ← (if py_eqb a pcv_2
              then b ← cv_getitem cv_2 i; mret (py_eqb b pcv_1)
              else mret false);
      indexes ← swappable_building_indexes cv_1 cv_2 rest;
      mret (if keep : bool then i :: indexes else indexes)
  end.

Definition ClusterAlignment (cv_1 cv_2 : loc) (cx_prob : Q) : M pyobj :=
  ci ← iter_cluster_indexes;
  let clusters := set_iter ci in
  prevailing_1 ← _get_most_prevalent_connectivity_values cv_1 clusters;
  prevailing_2 ← _get_most_prevalent_connectivity_values cv_2 clusters;
  swappable ←
    swappable_building_indexes cv_1 cv_2
      (imap pair (zip prevailing_1 prevailing_2));
  buildings_to_swap ← select_values_with_probability swappable cx_prob;
  for_each buildings_to_swap (swap_at cfg cv_1 cv_2);;
  mret (ObjTuple [ObjVector cv_1; ObjVector cv_2]).

End Operators.

(** ** Selection *)

(** Class [SystemCombination] is not among the sources: a solution carries
    its [encoding], whose first entry is the [as_str] of the connectivity
    vector it was computed for, and a fitness. *)
Record SystemCombination : Type := {
  encoding : list string;
  combination_fitness : Fitness
}.

(** [deap.tools.emo.sortLogNondominated] (library code, not of this
    repository): the fronts, best first. *)
Class NonDominatedSort : Type :=
  sortLogNondominated :
    list SystemCombination -> nat -> list (list SystemCombination).

Section Selection.
Context `{FloatOps} `{SetOrder string} `{NonDominatedSort}.

(** [{ind.as_str(): ind for ind in individuals_list}] *)
Definition individual_dict (individuals_list : list ConnectivityVector)
    : gmap string ConnectivityVector :=
  foldl (fun d ind => <[as_str ind := ind]> d) ∅ individuals_list.

(** [supsys_combination.encoding[0]] *)
Definition encoding_0 (supsys_combination : SystemCombination)
    : result string :=
  match encoding supsys_combination with
  | key :: _ => Ok key
  | [] => Raise IndexError
  end.

(** The values of [connectivity_vectors_by_front], front by front:
    [list(set([sc.encoding[0] for sc in solutions_in_front]))]. *)
Definition connectivity_vectors_by_front
    (fronts : list (list SystemCombination)) : result (list (list string)) :=
  mapM (fun solutions_in_front =>
          keys ← mapM encoding_0 solutions_in_front;
          mret (set_iter keys)) fronts.

(** The inner loop over one front; the state is the dictionary and the
    new population. *)
Fixpoint select_in_front (population_size : nat) (front : list string)
    (st : gmap string ConnectivityVector * list ConnectivityVector)
    : gmap string ConnectivityVector * list ConnectivityVector :=
  match front with
  | [] => st
  | connectivity_vector :: rest =>
      if population_size <=? length st.2 then st
      else
        match st.1 !! connectivity_vector with
        | Some ind =>
            select_in_front population_size rest
              (delete connectivity_vector st.1, st.2 ++ [ind])
        | None => select_in_front population_size rest st
        end
  end.

(** The outer loop over the fronts. *)
Fixpoint select_in_fronts (population_size : nat)
    (fronts : list (list string))
    (st : gmap string ConnectivityVector * list ConnectivityVector)
    : list ConnectivityVector :=
  match fronts with
  | [] => st.2
  | front :: rest =>
      if population_size <=? length st.2 then st.2
      else select_in_fronts population_size rest
             (select_in_front population_size front st)
  end.

(** [select]; [population_size] is a number of individuals, the
    dictionary of solutions is given by its items in insertion order.  The
    optional tracker only observes the result. *)
Definition select (individuals_list : list ConnectivityVector)
    (energy_system_solutions_dict : list (string * list SystemCombination))
    (population_size : nat) : result (list ConnectivityVector) :=
  let all_supsys_combinations :=
    concat (snd <$> energy_system_solutions_dict) in
  let nbr_solutions := length all_supsys_combinations in
  let fronts := sortLogNondominated all_supsys_combinations nbr_solutions in
  by_front ← connectivity_vectors_by_front fronts;
  mret (select_in_fronts population_size by_front
          (individual_dict individuals_list, [])).

End Selection.

(** ** Concrete iteration orders and float operations for closed examples *)

(** CPython's hash of an [int]. *)
Definition hash_int (z : Z) : Z :=
  let h := (Z.sgn z * (Z.abs z mod (2 ^ 61 - 1)))%Z in
  if (h =? -1)%Z then (-2)%Z else h.

(** The slot of the 8-entry table a number equal to an integer hashes to. *)
Definition table_slot (v : pyval) : Z :=
  match py_as_int v with
  | Some z => Z.land (hash_int z) 7
  | None => 0%Z
  end.

Fixpoint dedup_by {A} (eqb : A -> A -> bool) (seen l : list A) : list A :=
  match l with
  | [] => []
  | x :: rest =>
      if existsb (eqb x) seen then dedup_by eqb seen rest
      else x :: dedup_by eqb (x :: seen) rest
  end.

Fixpoint insert_by {A} (key : A -> Z) (x : A) (l : list A) : list A :=
  match l with
  | [] => [x]
  | y :: rest =>
      if (key x <=? key y)%Z then x :: l else y :: insert_by key x rest
  end.

Definition sort_by {A} (key : A -> Z) (l : list A) : list A :=
  foldr (insert_by key) [] l.

(** An iteration order for sets of values: the distinct elements, by table
    slot.  It is CPython's order for a set built from a list with fewer
    than five distinct integers whose slots differ (no resize, no probing):
    such an element sits in slot [hash & 7] and iteration walks the slots
    upwards.  [set([2, 2, 1, 1])] is iterated as [1, 2]. *)
Definition slot_order_val : SetOrder pyval :=
  fun l => sort_by table_slot (dedup_by py_eqb [] l).

Definition slot_order_Z : SetOrder Z :=
  fun l => sort_by (fun z => Z.land (hash_int z) 7) (dedup_by Z.eqb [] l).

(** An iteration order for sets of strings: string hashes are salted per
    process, so no order is the order; this one yields the distinct
    elements last-inserted first. *)
Definition reverse_order_str : SetOrder string :=
  fun l => reverse (dedup_by String.eqb [] l).

(** Float operations for examples in which no finite non-zero float
    occurs. *)
Definition float_ops_unused : FloatOps :=
  {| float_round2 := fun f => f; float_str := fun _ => "" |}.

(** ** Specification-side notions *)

(** A value the setter of [network_connection] lets through its type and
    range checks as a network id: an [int] within
    [[0, maximum_number_of_networks]]. *)
Definition legal_id (cfg : config) (v : pyval) : Prop :=
  isinstance_int v = true /\
  exists z, py_as_int v = Some z /\ (0 <= z <= maximum_number_of_networks cfg)%Z.

(** What the canonicalisation does to one connection, given the values that
    appear once. *)
Definition collapse (once : list Z) (c : Connection) : Connection :=
  if py_in_ints (network_connection c) once
  then {| building := building c; network_connection := PyInt 0 |}
  else c.

(** The connection [Connection()] creates. *)
Definition default_connection : Connection :=
  {| building := PyNone; network_connection := PyInt 0 |}.

(** What [cv[i] = v] stores in connection [c] for a legal id [v]. *)
Definition stored_for (cfg : config) (c : Connection) (v : pyval) : Connection :=
  {| building := building c;
     network_connection :=
       if in_zero_demand cfg (building c) then PyInt 0
       else match py_as_int v with Some z => PyInt z | None => v end |}.

(** What the language promises of iterating over [set(l)]: every element
    it yields is an element of [l], and every element of [l] is equal to
    one it yields. *)
Class SetOrderOk (S : SetOrder pyval) : Prop := {
  set_iter_sound : forall l x, x ∈ set_iter l -> x ∈ l;
  set_iter_complete :
    forall l x, x ∈ l -> exists y, y ∈ set_iter l /\ py_eqb y x = true
}.

(** The most frequent value with ties going to the value that comes first
    in position order: [max] over the values themselves. *)
Definition mode_in_position_order (vals : list pyval) : result pyval :=
  py_max (fun v => py_count v vals) vals.

(** The mode of cluster [c] in genome [cv], as the code computes it. *)
Definition cluster_mode `{SetOrder pyval} (cv : ConnectivityVector) (ci : list Z) (c : Z)
    (vals : list pyval) (m : pyval) : Prop :=
  mapM (getitem cv) (positions_of c ci) = Ok vals /\
  most_prevalent_connectivity_value vals = Ok m.

(** Every genome is filed under its own encoding. *)
Definition dict_keyed `{FloatOps} (d : gmap string ConnectivityVector) : Prop :=
  forall k ind, d !! k = Some ind -> as_str ind = k.

(** The invariant of the two loops of [select]. *)
Record select_inv `{FloatOps} (n : nat)
    (st : gmap string ConnectivityVector * list ConnectivityVector) : Prop := {
  inv_keyed : dict_keyed st.1;
  inv_distinct : NoDup (as_str <$> st.2);
  inv_removed : forall ind, ind ∈ st.2 -> st.1 !! as_str ind = None;
  inv_bound : length st.2 <= n
}.

(** A non-empty list all of whose elements are [Connection] objects. *)
Definition nonempty_connection_list (o : pyobj) : bool :=
  match as_connection_list o with
  | Some (_ :: _) => true
  | _ => false
  end.

(** ** Example inputs *)

(** Example inputs: two networks, four buildings, the last without demand. *)
Definition example_config : config :=
  {| maximum_number_of_networks := 2;
     possible_building_codes := ["B1001"; "B1002"; "B1003"; "B1004"];
     zero_demand_buildings := ["B1004"] |}.

Definition example_vector (ids : list Z) : ConnectivityVector :=
  {| connections :=
       (fun z => {| building := PyNone; network_connection := PyInt z |}) <$> ids;
     fitness := Fitness_init |}.

(** A state with two genomes, at references [0] and [1] ([ids_2] also
    everywhere else), a cluster cache and a random tape. *)
Definition example_world (ci : option (list Z)) (ids_1 ids_2 : list Z)
    (tape : nat -> Q) : world :=
  {| heap := fun l => example_vector (if decide (l = 0) then ids_1 else ids_2);
     cluster_indexes := ci;
     uniforms := tape;
     integers := fun k => k;
     draws := 0 |}.

Definition example_clustering : ClusteringOps :=
  {| connection_point := Z * Z;
     Clustering_cluster := fun points => (fun _ => 0%Z) <$> points |}.

(** What the sort returns for solutions none of which dominates another,
    listed in descending order of their weighted fitness: one front. *)
Definition one_front : NonDominatedSort :=
  fun individuals k => if k =? 0 then [] else [individuals].

Definition example_solution (key : string) (w : list Q) : SystemCombination :=
  {| encoding := [key]; combination_fitness := {| wvalues := w |} |}.

(** Two genomes with one solution each, neither dominating the other. *)
Definition example_solutions : list (string * list SystemCombination) :=
  [("1_1", [example_solution "1_1" [-1; -2]%Q]);
   ("0_0", [example_solution "0_0" [-2; -1]%Q])].

(** The keys in the order their solutions are first met. *)
Definition first_encounter_order (solutions : list SystemCombination)
    : result (list string) :=
  keys ← mapM encoding_0 solutions; mret (dedup_by String.eqb [] keys).

(** ** Further methods of [ConnectivityVector] *)

(** Equality of two tuples of values: same length, equal element by
    element. *)
Fixpoint py_tuple_eqb (xs ys : list pyval) : bool :=
  match xs, ys with
  | [], [] => true
  | x :: xs', y :: ys' => py_eqb x y && py_tuple_eqb xs' ys'
  | _, _ => false
  end.

(** [__eq__], for [other] a [ConnectivityVector]:
    [self.values == other.values]. *)
Definition ConnectivityVector_eq (self other : ConnectivityVector) : bool :=
  py_tuple_eqb (values self) (values other).

(** A slice object: each of [start], [stop] and [step] is [None] or an
    integer. *)
Record pyslice : Type := {
  slice_start : option Z;
  slice_stop : option Z;
  slice_step : option Z
}.

(** [list(range(start, stop, step))] for a step that is not zero. *)
Definition py_range3 (start stop step : Z) : list Z :=
  let n :=
    if (0 <? step)%Z
    then (if (start <? stop)%Z then (stop - start + step - 1) / step else 0)%Z
    else (if (stop <? start)%Z then (start - stop - step - 1) / (- step) else 0)%Z
  in (fun k => start + Z.of_nat k * step)%Z <$> seq 0 (Z.to_nat n).

(** The position [l[i]] reads in a list of length [len]: negative indexes
    count from the end. *)
Definition py_position (len : nat) (i : Z) : option nat :=
  if ((0 <=? i) && (i <? Z.of_nat len))%Z then Some (Z.to_nat i)
  else if ((- Z.of_nat len <=? i) && (i <? 0))%Z
  then Some (Z.to_nat (Z.of_nat len + i))
  else None.

(** [l[i]] *)
Definition py_list_get {A} (l : list A) (i : Z) : result A :=
  match py_position (length l) i with
  | Some n =>
      match l !! n with
      | Some x => Ok x
      | None => Raise IndexError
      end
  | None => Raise IndexError
  end.

(** The positions [l[sl]] reads in a list of length [len], as the
    interpreter adjusts the bounds of a slice. *)
Definition slice_indices (len : Z) (sl : pyslice) : result (list Z) :=
  let step := default 1%Z (slice_step sl) in
  if (step =? 0)%Z then Raise ValueError
  else
    let adjust (v : Z) :=
      if (v <? 0)%Z
      then (if (v + len <? 0)%Z
            then (if (step <? 0)%Z then -1 else 0)%Z
            else v + len)%Z
      else if (len <=? v)%Z
      then (if (step <? 0)%Z then len - 1 else len)%Z
      else v in
    let start :=
      match slice_start sl with
      | Some s => adjust s
      | None => if (step <? 0)%Z then (len - 1)%Z else 0%Z
      end in
    let stop :=
      match slice_stop sl with
      | Some s => adjust s
      | None => if (step <? 0)%Z then (-1)%Z else len
      end in
    Ok (py_range3 start stop step).

(** [__getitem__] with a slice:
    [[c.network_connection for c in self._connections[item]]]. *)
Definition getitem_slice (cv : ConnectivityVector) (item : pyslice)
    : result (list pyval) :=
  indexes ← slice_indices (Z.of_nat (length (connections cv))) item;
  mapM (fun i => c ← py_list_get (connections cv) i;
                 mret (network_connection c))
       indexes.

(** One step of the loop of [__setitem__] with a slice:
    [self.connections[index].network_connection
       = round(value[index - ind_start], 2)]; the right-hand side is
    evaluated first. *)
Definition setitem_slice_step `{FloatOps} (cfg : config)
    (cv : ConnectivityVector) (ind_start : Z) (value : list pyval) (index : Z)
    : result ConnectivityVector :=
  x ← py_list_get value (index - ind_start);
  rounded ← py_round2 x;
  match py_position (length (connections cv)) index with
  | None => Raise IndexError
  | Some n =>
      match connections cv !! n with
      | None => Raise IndexError
      | Some c =>
          c' ← set_network_connection cfg c rounded;
          mret {| connections := <[n := c']> (connections cv);
                  fitness := fitness cv |}
      end
  end.

(** [for index in list(range(ind_start, ind_stop, ind_step)): ...]; an
    error leaves the positions assigned so far as they are. *)
Fixpoint setitem_slice_loop `{FloatOps} (cfg : config)
    (cv : ConnectivityVector) (ind_start : Z) (value : list pyval)
    (indexes : list Z) : result unit * ConnectivityVector :=
  match indexes with
  | [] => (Ok (), cv)
  | index :: rest =>
      match setitem_slice_step cfg cv ind_start value index with
      | Ok cv' => setitem_slice_loop cfg cv' ind_start value rest
      | Raise e => (Raise e, cv)
      end
  end.

(** [bound if bound else fallback]: [None] and [0] both give the
    fallback. *)
Definition bound_or (bound : option Z) (fallback : Z) : Z :=
  match bound with
  | Some z => if (z =? 0)%Z then fallback else z
  | None => fallback
  end.

(** [__setitem__] with a slice and a list as the value. *)
Definition setitem_slice `{FloatOps} (cfg : config) (cv : ConnectivityVector)
    (key : pyslice) (value : list pyval) : result unit * ConnectivityVector :=
  let ind_start := bound_or (slice_start key) 0 in
  let ind_stop := bound_or (slice_stop key) (Z.of_nat (length (connections cv))) in
  let ind_step := bound_or (slice_step key) 1 in
  setitem_slice_loop cfg cv ind_start value
    (py_range3 ind_start ind_stop ind_step).

(** [cv[sl]] and [cv[sl] = value] on the object behind a reference. *)
Definition cv_getslice (cv : loc) (sl : pyslice) : M (list pyval) :=
  fun w => (getitem_slice (heap w cv) sl, w).

Definition cv_setslice `{FloatOps} (cfg : config) (cv : loc) (sl : pyslice)
    (value : list pyval) : M unit :=
  fun w =>
    let '(r, cv') := setitem_slice cfg (heap w cv) sl value in
    (r, store cv cv' w).

Section FurtherOperators.
Context `{FloatOps} `{SetOrder Z} `{SetOrder pyval} `{ClusteringOps}.
Variable cfg : config.

(** [generate(method)]: one [Connection] per building code, in order. *)
Definition generate (method : string) : M (list Connection) :=
  if String.eqb method "random" then
    let min_connection_ind := 0%Z in
    let max_connection_ind := (maximum_number_of_networks cfg + 1 - 1)%Z in
    mapM (fun building =>
            v ← random_randint min_connection_ind max_connection_ind;
            lift_result (Connection_init cfg (PyInt v) (PyStr building)))
         (possible_building_codes cfg)
  else
    mapM (fun building =>
            lift_result (Connection_init cfg (PyInt 0) (PyStr building)))
         (possible_building_codes cfg).

(** [a[sl], b[sl] = b[sl], a[sl]] *)
Definition swap_slices (ind1 ind2 : loc) (sl : pyslice) : M unit :=
  a ← cv_getslice ind2 sl;
  b ← cv_getslice ind1 sl;
  cv_setslice cfg ind1 sl a;;
  cv_setslice cfg ind2 sl b.

(** [deap.tools.cxOnePoint] (library code, not of this repository). *)
Definition cxOnePoint (ind1 ind2 : loc) : M pyobj :=
  n1 ← cv_len ind1;
  n2 ← cv_len ind2;
  let size := Z.of_nat (n1 `min` n2) in
  cxpoint ← random_randint 1 (size - 1);
  swap_slices ind1 ind2
    {| slice_start := Some cxpoint; slice_stop := None; slice_step := None |};;
  mret (ObjTuple [ObjVector ind1; ObjVector ind2]).

(** [deap.tools.cxTwoPoint] (library code, not of this repository). *)
Definition cxTwoPoint (ind1 ind2 : loc) : M pyobj :=
  n1 ← cv_len ind1;
  n2 ← cv_len ind2;
  let size := Z.of_nat (n1 `min` n2) in
  p1 ← random_randint 1 size;
  p2 ← random_randint 1 (size - 1);
  let '(cxpoint1, cxpoint2) :=
    if (p1 <=? p2)%Z then (p1, p2 + 1)%Z else (p2, p1) in
  swap_slices ind1 ind2
    {| slice_start := Some cxpoint1; slice_stop := Some cxpoint2;
       slice_step := None |};;
  mret (ObjTuple [ObjVector ind1; ObjVector ind2]).

(** [deap.tools.cxUniform] (library code, not of this repository). *)
Definition cxUniform (ind1 ind2 : loc) (indpb : Q) : M pyobj :=
  n1 ← cv_len ind1;
  n2 ← cv_len ind2;
  for_each (seq 0 (n1 `min` n2)) (fun i =>
    u ← random_random;
    if Qltb u indpb then swap_at cfg ind1 ind2 i else mret ());;
  mret (ObjTuple [ObjVector ind1; ObjVector ind2]).

Definition mate (cv_1 cv_2 : loc) (algorithm : GeneticAlgorithm)
    (connection_points : list connection_point) : M pyobj :=
  recombined_cvs ←
    (if String.eqb (crossover algorithm) "OnePoint"
     then cxOnePoint cv_1 cv_2
     else if String.eqb (crossover algorithm) "TwoPoint"
     then cxTwoPoint cv_1 cv_2
     else if String.eqb (crossover algorithm) "Uniform"
     then cxUniform cv_1 cv_2 (cx_prob algorithm)
     else if String.eqb (crossover algorithm) "ClusterSwap"
     then
       ensure_cluster_indexes connection_points;;
       ClusterSwap cfg cv_1 cv_2 (cx_prob algorithm)
     else if String.eqb (crossover algorithm) "ClusterAlignment"
     then
       ensure_cluster_indexes connection_points;;
       ClusterAlignment cfg cv_1 cv_2 (cx_prob algorithm)
     else raise ValueError);
  first ← obj_getitem recombined_cvs 0;
  obj_reset cfg first;;
  second ← obj_getitem recombined_cvs 1;
  obj_reset cfg second;;
  mret recombined_cvs.

End FurtherOperators.

(** The canonical form: no network id other than [0] is held by exactly
    one position. *)
Definition canonical_form (cfg : config) (cv : ConnectivityVector) : Prop :=
  forall k, (0 < k <= maximum_number_of_networks cfg)%Z ->
            py_count (PyInt k) (values cv) <> 1.

(** Which building sits at which position of every vector of the store. *)
Definition same_buildings (w w' : world) : Prop :=
  forall l, building <$> connections (heap w' l)
            = building <$> connections (heap w l).

(** The fitness every vector of the store carries. *)
Definition same_fitness (w w' : world) : Prop :=
  forall l, fitness (heap w' l) = fitness (heap w l).

(** A computation keeps a relation between the state before and the state
    after, whether it returns or raises. *)
Definition preserves {A} (R : world -> world -> Prop) (m : M A) : Prop :=
  forall w r w', m w = (r, w') -> R w w'.

(** Position [i] of every vector of the store holds what it held. *)
Definition same_at (i : nat) (w w' : world) : Prop :=
  forall l, connections (heap w' l) !! i = connections (heap w l) !! i.

(** What [generate] promises of each connection of its list. *)
Definition generated (cfg : config) (c : Connection) : Prop :=
  exists z,
    network_connection c = PyInt z /\
    (0 <= z <= maximum_number_of_networks cfg)%Z /\
    (in_zero_demand cfg (building c) = true -> z = 0%Z).

(** A genome all of whose values are legal network ids. *)
Definition legal_genome (cfg : config) (cv : ConnectivityVector) : Prop :=
  Forall (fun c => legal_id cfg (network_connection c)) (connections cv).

(** A state the operators can run in: the cluster cache is [cache], and
    every genome among [S] is legal and as long as [len] says. *)
Definition ready (cfg : config) (S : loc -> Prop) (len : loc -> nat)
    (cache : option (list Z)) (w : world) : Prop :=
  cluster_indexes w = cache /\
  forall l, S l ->
    legal_genome cfg (heap w l) /\ length (connections (heap w l)) = len l.

(** From a state with [I] the computation returns, in a state with [I] and
    with a value with [Q]. *)
Definition returns {A} (I : world -> Prop) (m : M A) (Q : A -> Prop) : Prop :=
  forall w, I w -> exists a w', m w = (Ok a, w') /\ I w' /\ Q a.

(** A string without the separator of [as_str]. *)
Fixpoint no_underscore (s : string) : Prop :=
  match s with
  | EmptyString => True
  | String c rest => String c "" <> "_" /\ no_underscore rest
  end.

(** A genome all of whose values are of type [int] proper. *)
Definition int_genome (cv : ConnectivityVector) : Prop :=
  Forall (fun v => exists z, v = PyInt z) (values cv).

(** The vectors of the store outside [L] are what they were. *)
Definition untouched (L : loc -> Prop) (w w' : world) : Prop :=
  forall l, ~ L l -> heap w' l = heap w l.

(** A cluster cache that holds [ci] still holds it. *)
Definition cache_kept (ci : list Z) (w w' : world) : Prop :=
  cluster_indexes w = Some ci -> cluster_indexes w' = Some ci.

(** A genome after [cv_1[i], cv_2[i] = cv_2[i], cv_1[i]] at each of the
    positions [swapped], given the connections of the other genome. *)
Definition swapped_connections (cfg : config) (swapped : list nat)
    (mine other : list Connection) : list Connection :=
  imap (fun i c =>
          if decide (i ∈ swapped)
          then match other !! i with
               | Some c' => stored_for cfg c (network_connection c')
               | None => c
               end
          else c) mine.

(** The state after the two genomes exchanged their values at the
    positions [swapped]; nothing else changed but the random source. *)
Definition swapped_world (cfg : config) (cv_1 cv_2 : loc)
    (swapped : list nat) (w w' : world) : Prop :=
  heap w' cv_1
  = {| connections :=
         swapped_connections cfg swapped (connections (heap w cv_1))
           (connections (heap w cv_2));
       fitness := fitness (heap w cv_1) |} /\
  heap w' cv_2
  = {| connections :=
         swapped_connections cfg swapped (connections (heap w cv_2))
           (connections (heap w cv_1));
       fitness := fitness (heap w cv_2) |} /\
  (forall l, l <> cv_1 -> l <> cv_2 -> heap w' l = heap w l) /\
  cluster_indexes w' = cluster_indexes w.

(** * Properties *)

(** ** Python values *)

Lemma py_eqb_int (v : pyval) (i : Z) :
  py_eqb v (PyInt i) = true <-> py_as_int v = Some i.
Proof.
  unfold py_eqb. simpl. destruct (py_as_int v) as [x|].
  - rewrite Z.eqb_eq. split; congruence.
  - destruct v; split; intros; discriminate.
Qed.

Lemma elem_of_py_range (i n : Z) : i ∈ py_range n <-> (0 <= i < n)%Z.
Proof.
  unfold py_range. rewrite list_elem_of_fmap. split.
  - intros (k & -> & Hk). apply elem_of_seq in Hk. lia.
  - intros Hi. exists (Z.to_nat i). split; [lia|]. apply elem_of_seq. lia.
Qed.

Lemma py_in_ints_true (v : pyval) (l : list Z) :
  py_in_ints v l = true <-> exists z, py_as_int v = Some z /\ z ∈ l.
Proof.
  unfold py_in_ints. rewrite existsb_exists. split.
  - intros (i & Hi & Heq). exists i. split; [by apply py_eqb_int|].
    by apply list_elem_of_In.
  - intros (z & Hz & Hin). exists z. split; [by apply list_elem_of_In|].
    by apply py_eqb_int.
Qed.

Lemma py_in_possible (cfg : config) (v : pyval) :
  py_in_ints v (possible_connections cfg) = true <->
  exists z, py_as_int v = Some z /\ (0 <= z <= maximum_number_of_networks cfg)%Z.
Proof.
  rewrite py_in_ints_true. unfold possible_connections.
  split; intros (z & Hz & Hr); exists z; split; try done.
  - apply elem_of_py_range in Hr. lia.
  - apply elem_of_py_range. lia.
Qed.

Lemma isinstance_int_as_int (v : pyval) :
  isinstance_int v = true -> exists z, py_as_int v = Some z.
Proof. destruct v; try discriminate; simpl; eauto. Qed.

Lemma py_truthy_int (z : Z) : py_truthy (PyInt z) = true <-> z <> 0%Z.
Proof. simpl. rewrite negb_true_iff, Z.eqb_neq. done. Qed.

(** ** The setter of [network_connection] *)

Lemma setter_legal (cfg : config) (b : pyval) (v : pyval) :
  legal_id cfg v ->
  network_connection_setter cfg b v
  = Ok (if in_zero_demand cfg b then PyInt 0 else v).
Proof.
  intros [Hint Hrange]. apply py_in_possible in Hrange.
  unfold network_connection_setter. rewrite Hint, Hrange.
  rewrite !andb_false_r. by destruct (in_zero_demand cfg b).
Qed.

Lemma setter_falsy (cfg : config) (b : pyval) (v : pyval) :
  py_truthy v = false ->
  network_connection_setter cfg b v
  = Ok (if in_zero_demand cfg b then PyInt 0 else v).
Proof.
  intros Hf. unfold network_connection_setter. rewrite Hf. simpl.
  by destruct (in_zero_demand cfg b).
Qed.

Lemma setter_zero (cfg : config) (c : Connection) :
  set_network_connection cfg c (PyInt 0)
  = Ok {| building := building c; network_connection := PyInt 0 |}.
Proof.
  unfold set_network_connection. rewrite setter_falsy by done.
  by destruct (in_zero_demand cfg (building c)).
Qed.

Lemma setter_raises_iff (cfg : config) (b : pyval) (v : pyval) :
  network_connection_setter cfg b v = Raise ValueError <->
  py_truthy v = true /\
  (isinstance_int v = false \/
   exists z, py_as_int v = Some z /\
             (z < 0 \/ maximum_number_of_networks cfg < z)%Z).
Proof.
  unfold network_connection_setter.
  destruct (py_truthy v) eqn:Ht; simpl.
  2:{ split; [by destruct (in_zero_demand cfg b)|]. by intros [? _]. }
  destruct (isinstance_int v) eqn:Hi; simpl.
  2:{ split; [|done]. intros _. split; [done|]. by left. }
  destruct (py_in_ints v (possible_connections cfg)) eqn:Hr; simpl.
  - apply py_in_possible in Hr as (z & Hz & Hr).
    split; [by destruct (in_zero_demand cfg b)|].
    intros [_ [?|(z' & Hz' & Hout)]]; [done|].
    rewrite Hz in Hz'. simplify_eq. lia.
  - split; [|done]. intros _. split; [done|]. right.
    destruct (isinstance_int_as_int v Hi) as [z Hz]. exists z. split; [done|].
    destruct (decide (0 <= z <= maximum_number_of_networks cfg)%Z) as [Hin|Hout];
      [|lia].
    assert (py_in_ints v (possible_connections cfg) = true) as Hr'
      by (apply py_in_possible; eauto).
    congruence.
Qed.

Lemma setter_ok_or_value_error (cfg : config) (b : pyval) (v : pyval) :
  network_connection_setter cfg b v = Raise ValueError \/
  network_connection_setter cfg b v
  = Ok (if in_zero_demand cfg b then PyInt 0 else v).
Proof.
  unfold network_connection_setter.
  repeat match goal with |- context [if ?c then _ else _] =>
    destruct c eqn:?; simpl; auto end.
Qed.

(** C7 -- zero-demand pin.  On a connection of a zero-demand building,
    assigning any non-zero network id (a true [int] within
    [[0, maximum_number_of_networks]]) succeeds and stores [0]; whatever is
    assigned, an assignment that succeeds stores [0]; and a connection that
    holds [0] holds [0] after any attempt, rejected ones included. *)
Theorem zero_demand_pin (cfg : config) (c : Connection) (v : pyval) :
  in_zero_demand cfg (building c) = true ->
  (py_truthy v = true -> legal_id cfg v ->
   set_network_connection cfg c v
   = Ok {| building := building c; network_connection := PyInt 0 |}) /\
  (forall c', set_network_connection cfg c v = Ok c' ->
              network_connection c' = PyInt 0) /\
  (network_connection c = PyInt 0 ->
   network_connection
     (match set_network_connection cfg c v with Ok c' => c' | Raise _ => c end)
   = PyInt 0).
Proof.
  intros Hzero. unfold set_network_connection. split; [|split].
  - intros _ Hlegal. rewrite (setter_legal _ _ _ Hlegal), Hzero. done.
  - intros c'.
    destruct (setter_ok_or_value_error cfg (building c) v) as [-> | ->];
      rewrite ?Hzero; simpl; [done|]. by intros [= <-].
  - intros H0.
    destruct (setter_ok_or_value_error cfg (building c) v) as [-> | ->];
      rewrite ?Hzero; simpl; done.
Qed.

(** ** Canonicalisation *)

Lemma collapse_nil (c : Connection) : collapse [] c = c.
Proof. done. Qed.

Lemma collapse_building (once : list Z) (c : Connection) :
  building (collapse once c) = building c.
Proof. unfold collapse. by destruct (py_in_ints _ _). Qed.

Lemma assign_changed_collapse (cfg : config) (once : list Z)
    (suf pre : list Connection) :
  assign_changed cfg
    ((fun ic => (ic.1, PyInt 0)) <$>
       filter (fun ic => py_in_ints (network_connection ic.2) once = true)
              (imap (fun i c => (length pre + i, c)) suf))
    (pre ++ suf)
  = Ok (pre ++ (collapse once <$> suf)).
Proof.
  revert pre. induction suf as [|c suf IH]; intros pre; [done|].
  rewrite imap_cons, filter_cons. simpl.
  assert (imap ((fun i c0 => (length pre + i, c0)) ∘ S) suf
          = imap (fun i c0 => (length (pre ++ [c]) + i, c0)) suf) as Hshift.
  { apply imap_ext. intros i x _. simpl. rewrite length_app. simpl.
    f_equal. lia. }
  unfold collapse at 1.
  destruct (decide (py_in_ints (network_connection c) once = true)) as [Hin|Hout].
  - rewrite Hin. simpl.
    rewrite list_lookup_middle by lia. rewrite setter_zero. simpl.
    rewrite insert_app_r. simpl.
    rewrite (cons_middle _ pre suf), app_assoc.
    set (c0 := {| building := building c; network_connection := PyInt 0 |}).
    assert (imap ((fun i c1 => (length pre + i, c1)) ∘ S) suf
            = imap (fun i c1 => (length (pre ++ [c0]) + i, c1)) suf) as ->.
    { apply imap_ext. intros i x _. simpl. rewrite length_app. simpl.
      f_equal. lia. }
    rewrite IH. by rewrite <- app_assoc.
  - apply not_true_is_false in Hout. rewrite Hout.
    rewrite Hshift. rewrite (cons_middle c pre suf), app_assoc, IH.
    by rewrite <- app_assoc.
Qed.

Lemma canonical_connections_collapse (cfg : config) (l : list Connection) :
  canonical_connections cfg l
  = Ok (collapse (values_appearing_once cfg (network_connection <$> l)) <$> l).
Proof.
  unfold canonical_connections.
  set (once := values_appearing_once cfg (network_connection <$> l)).
  case_bool_decide as Hnil; simpl.
  - rewrite Hnil. f_equal. clear. induction l as [|c l IH]; [done|].
    rewrite fmap_cons, <- IH. done.
  - unfold changed_values.
    pose proof (assign_changed_collapse cfg once l []) as E. simpl in E.
    exact E.
Qed.

Lemma as_connection_list_connections (l : list Connection) :
  as_connection_list (ObjList (ObjConnection <$> l)) = Some l.
Proof.
  unfold as_connection_list. induction l as [|c l IH]; [done|].
  rewrite fmap_cons. cbn [mapM]. simpl. by rewrite IH.
Qed.

Lemma connections_setter_collapse (cfg : config) (l : list Connection) :
  connections_setter cfg (ObjList (ObjConnection <$> l))
  = Ok (collapse (values_appearing_once cfg (network_connection <$> l)) <$> l).
Proof.
  unfold connections_setter. rewrite as_connection_list_connections.
  apply canonical_connections_collapse.
Qed.

Lemma reset_collapse (cfg : config) (cv : ConnectivityVector) :
  reset cfg cv
  = Ok {| connections :=
            collapse (values_appearing_once cfg (values cv)) <$> connections cv;
          fitness := fitness cv |}.
Proof. unfold reset. by rewrite connections_setter_collapse. Qed.

Lemma elem_of_values_appearing_once (cfg : config) (vs : list pyval) (k : Z) :
  k ∈ values_appearing_once cfg vs <->
  (0 <= k <= maximum_number_of_networks cfg)%Z /\ py_count (PyInt k) vs = 1.
Proof.
  unfold values_appearing_once, possible_connections.
  rewrite list_elem_of_filter, elem_of_py_range. intuition lia.
Qed.

Lemma py_count_pos (x v : pyval) (vs : list pyval) :
  v ∈ vs -> py_eqb v x = true -> 0 < py_count x vs.
Proof.
  intros Hin Heq. unfold py_count.
  assert (v ∈ filter (fun v => py_eqb v x = true) vs) as Hf
    by by apply list_elem_of_filter.
  destruct (filter _ vs); [by apply elem_of_nil in Hf | simpl; lia].
Qed.

Lemma py_count_fmap_le (f : pyval -> pyval) (x : pyval) (vs : list pyval) :
  (forall v, v ∈ vs -> py_eqb v x = true -> py_eqb (f v) x = true) ->
  py_count x vs <= py_count x (f <$> vs).
Proof.
  unfold py_count. induction vs as [|v vs IH]; intros Hf; [done|].
  rewrite fmap_cons, !filter_cons.
  assert (length (filter (fun v => py_eqb v x = true) vs)
          <= length (filter (fun v => py_eqb v x = true) (f <$> vs))) as IH'.
  { apply IH. intros w Hw. apply Hf. by right. }
  destruct (decide (py_eqb v x = true)) as [Hv|Hv].
  - rewrite decide_True by (apply Hf; [by left | done]). simpl. lia.
  - destruct (decide (py_eqb (f v) x = true)); simpl; lia.
Qed.

(** After one canonicalisation, a value that appears once is a stored [0]. *)
Lemma collapse_stable (cfg : config) (l : list Connection) (c : Connection) :
  let once := values_appearing_once cfg (network_connection <$> l) in
  let once' :=
    values_appearing_once cfg (network_connection <$> (collapse once <$> l)) in
  c ∈ l -> collapse once' (collapse once c) = collapse once c.
Proof.
  intros once once' Hc.
  unfold collapse at 1.
  destruct (py_in_ints (network_connection (collapse once c)) once') eqn:Hin';
    [|done].
  unfold collapse in *.
  destruct (py_in_ints (network_connection c) once) eqn:Hin; [done|].
  exfalso.
  apply py_in_ints_true in Hin' as (k & Hk & Hk').
  apply elem_of_values_appearing_once in Hk' as [Hrange Hcount'].
  assert (k ∉ once) as Hnot.
  { intros Hk1. assert (py_in_ints (network_connection c) once = true)
      by (apply py_in_ints_true; eauto). congruence. }
  assert (py_count (PyInt k) (network_connection <$> l) <> 1) as Hne.
  { intros H1. apply Hnot. by apply elem_of_values_appearing_once. }
  assert (0 < py_count (PyInt k) (network_connection <$> l)) as Hpos.
  { apply (py_count_pos _ (network_connection c)).
    - apply list_elem_of_fmap. eauto.
    - by apply py_eqb_int. }
  assert (py_count (PyInt k) (network_connection <$> l)
          <= py_count (PyInt k)
               (network_connection <$> (collapse once <$> l))) as Hle.
  { rewrite <- list_fmap_compose.
    rewrite (list_fmap_ext (network_connection ∘ collapse once)
               ((fun v => if py_in_ints v once then PyInt 0 else v)
                  ∘ network_connection) l); [|
      intros i x _; unfold collapse; simpl;
      by destruct (py_in_ints (network_connection x) once)].
    rewrite list_fmap_compose. apply py_count_fmap_le.
    intros v _ Hv. apply py_eqb_int in Hv.
    destruct (py_in_ints v once) eqn:Hvin; [|by apply py_eqb_int].
    apply py_in_ints_true in Hvin as (z & Hz & Hzin). by simplify_eq. }
  unfold collapse in Hle. lia.
Qed.

(** The result of [reset] is a fixed point of [reset]. *)
Lemma reset_fixed_point (cfg : config) (cv cv1 : ConnectivityVector) :
  reset cfg cv = Ok cv1 -> reset cfg cv1 = Ok cv1.
Proof.
  rewrite reset_collapse. intros [= <-].
  rewrite reset_collapse. unfold values. simpl. f_equal. f_equal.
  rewrite <- list_fmap_compose.
  apply list_fmap_ext. intros i c Hi. simpl.
  apply (collapse_stable cfg (connections cv) c).
  by eapply list_elem_of_lookup_2.
Qed.

(** C8 -- canonicalisation is idempotent.  [reset()] always returns; applied
    to its own result it returns that result again, and it keeps the length
    of the genome. *)
Theorem reset_idempotent (cfg : config) (cv : ConnectivityVector) :
  exists cv1,
    reset cfg cv = Ok cv1 /\
    reset cfg cv1 = Ok cv1 /\
    length (connections cv1) = length (connections cv).
Proof.
  eexists. split; [apply reset_collapse|]. split.
  - eapply reset_fixed_point, reset_collapse.
  - simpl. by rewrite length_fmap.
Qed.

(** ** Assigning values position by position *)

Section Assignment.
Context `{FloatOps}.
Variable cfg : config.

Lemma py_round2_legal (v : pyval) (z : Z) :
  isinstance_int v = true -> py_as_int v = Some z -> py_round2 v = Ok (PyInt z).
Proof. destruct v; try discriminate; simpl; congruence. Qed.

Lemma legal_id_int (z : Z) :
  (0 <= z <= maximum_number_of_networks cfg)%Z -> legal_id cfg (PyInt z).
Proof. intros Hz. split; [done|]. exists z. done. Qed.

Lemma setitem_legal (cv : ConnectivityVector) (i : nat) (c : Connection)
    (v : pyval) :
  connections cv !! i = Some c -> legal_id cfg v ->
  setitem cfg cv i v
  = Ok {| connections := <[i := stored_for cfg c v]> (connections cv);
          fitness := fitness cv |}.
Proof.
  intros Hc [Hint (z & Hz & Hr)]. unfold setitem. rewrite Hc.
  rewrite (py_round2_legal v z Hint Hz). simpl.
  unfold set_network_connection.
  rewrite (setter_legal cfg (building c) (PyInt z)) by by apply legal_id_int.
  simpl. unfold stored_for. rewrite Hz. done.
Qed.

Lemma setitem_all_legal (vs : list pyval) :
  forall (pre suf : list Connection) (fit : Fitness),
    length suf = length vs -> Forall (legal_id cfg) vs ->
    setitem_all cfg {| connections := pre ++ suf; fitness := fit |}
      (imap (fun i v => (length pre + i, v)) vs)
    = (Ok (), {| connections := pre ++ zip_with (stored_for cfg) suf vs;
                 fitness := fit |}).
Proof.
  induction vs as [|v vs IH]; intros pre suf fit Hlen Hlegal.
  - destruct suf; [|done]. done.
  - destruct suf as [|c suf]; [done|].
    apply Forall_cons in Hlegal as [Hv Hvs].
    rewrite imap_cons. cbn [setitem_all].
    rewrite (setitem_legal _ _ c) by
      (try done; simpl; apply list_lookup_middle; lia).
    cbn [connections fitness]. rewrite insert_app_r. cbn [zip_with].
    rewrite (imap_ext _ (fun i x => (length (pre ++ [stored_for cfg c v]) + i, x))).
    2:{ intros i x _. simpl. rewrite length_app. simpl. f_equal. lia. }
    simpl. rewrite (cons_middle _ pre suf), app_assoc.
    rewrite IH by (simpl in Hlen; auto with lia).
    by rewrite <- app_assoc.
Qed.

Lemma values_setter_legal (cv : ConnectivityVector) (new_values : list pyval) :
  length new_values = length (connections cv) ->
  Forall (legal_id cfg) new_values ->
  let once := values_appearing_once cfg new_values in
  values_setter cfg cv new_values
  = (Ok (),
     {| connections :=
          zip_with (stored_for cfg) (connections cv)
            ((fun i => if py_in_ints i once then PyInt 0 else i) <$> new_values);
        fitness := fitness cv |}).
Proof.
  intros Hlen Hlegal once. unfold values_setter.
  rewrite Hlen, Nat.eqb_refl. simpl. fold once.
  set (rewritten := if negb (bool_decide (once = [])) then _ else _).
  assert (rewritten
          = (fun i => if py_in_ints i once then PyInt 0 else i) <$> new_values)
    as ->.
  { unfold rewritten. case_bool_decide as Hnil; [|done]. simpl.
    rewrite Hnil. clear. induction new_values as [|v vs IH]; [done|].
    rewrite fmap_cons, <- IH. done. }
  destruct cv as [conns fit]. simpl in *.
  pose proof (setitem_all_legal
                ((fun i => if py_in_ints i once then PyInt 0 else i) <$> new_values)
                [] conns fit) as E.
  simpl in E. apply E.
  - by rewrite length_fmap.
  - apply Forall_fmap. eapply Forall_impl; [exact Hlegal|].
    intros v Hv. simpl.
    destruct (py_in_ints v once) eqn:Hin; [|done].
    apply py_in_ints_true in Hin as (z & _ & Hz).
    apply elem_of_values_appearing_once in Hz as [Hz _].
    apply legal_id_int. lia.
Qed.

(** C6 -- singleton collapse.  Let [k] be a network id with
    [0 < k <= maximum_number_of_networks].  If exactly one position of a
    list of connections assigned to [connections] holds [k], the setter
    succeeds and that position stores [0]; if exactly one position of a
    list of network ids assigned to [values] holds [k], the assignment
    succeeds and that position stores [0]. *)
Theorem singleton_collapse (k : Z) :
  (0 < k <= maximum_number_of_networks cfg)%Z ->
  (forall (l : list Connection) (i : nat) (c : Connection),
      l !! i = Some c ->
      py_eqb (network_connection c) (PyInt k) = true ->
      py_count (PyInt k) (network_connection <$> l) = 1 ->
      exists l',
        connections_setter cfg (ObjList (ObjConnection <$> l)) = Ok l' /\
        network_connection <$> (l' !! i) = Some (PyInt 0)) /\
  (forall (cv : ConnectivityVector) (new_values : list pyval) (i : nat)
          (v : pyval),
      length new_values = length (connections cv) ->
      Forall (legal_id cfg) new_values ->
      new_values !! i = Some v ->
      py_eqb v (PyInt k) = true ->
      py_count (PyInt k) new_values = 1 ->
      exists cv',
        values_setter cfg cv new_values = (Ok (), cv') /\
        values cv' !! i = Some (PyInt 0)).
Proof.
  intros Hk. split.
  - intros l i c Hi Hc Hcount. eexists. split;
      [apply connections_setter_collapse|].
    rewrite list_lookup_fmap, Hi. simpl. unfold collapse.
    assert (py_in_ints (network_connection c)
              (values_appearing_once cfg (network_connection <$> l)) = true)
      as ->; [|done].
    apply py_in_ints_true. exists k. split; [by apply py_eqb_int|].
    apply elem_of_values_appearing_once. split; [lia | done].
  - intros cv new_values i v Hlen Hlegal Hi Hv Hcount. eexists. split;
      [by apply values_setter_legal|].
    unfold values. simpl. rewrite list_lookup_fmap.
    destruct (lookup_lt_is_Some_2 (connections cv) i) as [c Hc].
    { rewrite <- Hlen. by eapply lookup_lt_Some. }
    rewrite lookup_zip_with, Hc. simpl.
    rewrite list_lookup_fmap, Hi. simpl.
    assert (py_in_ints v (values_appearing_once cfg new_values) = true) as ->.
    { apply py_in_ints_true. exists k. split; [by apply py_eqb_int|].
      apply elem_of_values_appearing_once. split; [lia | done]. }
    simpl. by destruct (in_zero_demand cfg (building c)).
Qed.

End Assignment.

(** ** Running the operators *)

Lemma bind_run {A B} (m : M A) (f : A -> M B) (w : world) :
  (m ≫= f) w
  = match m w with
    | (Ok a, w') => f a w'
    | (Raise e, w') => (Raise e, w')
    end.
Proof. done. Qed.

Lemma bind_ok_inv {A B} (m : M A) (f : A -> M B) (w w' : world) (b : B) :
  (m ≫= f) w = (Ok b, w') ->
  exists a w1, m w = (Ok a, w1) /\ f a w1 = (Ok b, w').
Proof.
  rewrite bind_run. destruct (m w) as [[a|e] w1]; [eauto | discriminate].
Qed.

(** Inverts a run [(m ≫= f) w = (Ok _, _)] into the run of [m] and the
    run of the continuation. *)
Ltac bind_inv H :=
  let a := fresh "a" in
  let w := fresh "w" in
  let E := fresh "E" in
  apply bind_ok_inv in H as (a & w & E & H).

Section MutateProperties.
Context `{FloatOps} `{SetOrder Z} `{ClusteringOps}.
Variable cfg : config.

Lemma ClusterSwitch_returns_vector (cv : loc) (p : Q) (w w' : world)
    (r : pyobj) :
  ClusterSwitch cfg cv p w = (Ok r, w') -> r = ObjVector cv.
Proof.
  unfold ClusterSwitch. intros Hrun.
  do 2 bind_inv Hrun. by injection Hrun as <- _.
Qed.

(** C1 -- [mutate] with the selector ['ClusterSwitch'].  [ClusterSwitch]
    hands back the vector itself where the library mutations hand back a
    one-element tuple, so [mutated_cv[0]] is the first network id and
    [.reset()] on it raises: whatever the genome, the cluster cache and the
    random draws, the call ends in an exception and returns no genome. *)
Theorem mutate_ClusterSwitch_raises (cv : loc) (p : Q) (cx : string) (q : Q)
    (connection_points : list connection_point) (w : world) :
  exists e w',
    mutate cfg cv
      {| mutation := "ClusterSwitch"; mut_prob := p;
         crossover := cx; cx_prob := q |}
      connection_points w
    = (Raise e, w').
Proof.
  unfold mutate. cbn [mutation mut_prob]. cbn [String.eqb Ascii.eqb Bool.eqb].
  rewrite bind_run.
  destruct ((ensure_cluster_indexes connection_points;;
             ClusterSwitch cfg cv p) w) as [[r|e] w1] eqn:Hrun; [|eauto].
  apply bind_ok_inv in Hrun as (u & w0 & _ & Hrun).
  apply ClusterSwitch_returns_vector in Hrun as ->.
  rewrite bind_run. unfold obj_getitem. rewrite bind_run.
  unfold cv_getitem. destruct (getitem (heap w1 cv) 0) as [v|e]; eauto.
Qed.

End MutateProperties.

(** The failing input of C1: a genome [[1, 1]] whose two buildings form one
    cluster; [ClusterSwitch] rewrites it to [[0, 0]] and the call then
    raises [AttributeError]. *)
Example mutate_ClusterSwitch_example :
  let '(r, w') :=
    @mutate float_ops_unused slot_order_Z example_clustering example_config 0
      {| mutation := "ClusterSwitch"; mut_prob := 1 # 2;
         crossover := "ClusterSwap"; cx_prob := 1 # 2 |}
      [] (example_world (Some [0; 0]%Z) [1; 1]%Z [0; 0]%Z (fun _ => 0%Q)) in
  r = Raise AttributeError /\ values (heap w' 0) = [PyInt 0; PyInt 0].
Proof. vm_compute. done. Qed.

(** C2 -- [ClusterSwap] treats the outlier marker as one more cluster.  With
    cluster indexes [[-1, 0, 0]] and draws that select the cluster [-1]
    only, the outlier position [0] is the one position that is exchanged. *)
Theorem ClusterSwap_swaps_outliers :
  let ci := [-1; 0; 0]%Z in
  let tape := fun k : nat => if decide (k = 0) then 3 # 4 else 1 # 4 in
  let '(r, w') :=
    @ClusterSwap float_ops_unused slot_order_Z example_config 0 1 (1 # 2)
      (example_world (Some ci) [1; 1; 1]%Z [2; 2; 2]%Z tape) in
  ci !! 0 = Some (-1)%Z /\
  r = Ok (ObjTuple [ObjVector 0; ObjVector 1]) /\
  values (heap w' 0) = [PyInt 2; PyInt 1; PyInt 1] /\
  values (heap w' 1) = [PyInt 1; PyInt 2; PyInt 2].
Proof. vm_compute. done. Qed.

Section LibraryMutations.
Context `{FloatOps} `{SetOrder Z} `{ClusteringOps}.
Variable cfg : config.

Lemma mutShuffleIndexes_returns_tuple (cv : loc) (p : Q) (w w' : world)
    (r : pyobj) :
  mutShuffleIndexes cfg cv p w = (Ok r, w') -> r = ObjTuple [ObjVector cv].
Proof.
  unfold mutShuffleIndexes. intros Hrun.
  do 2 bind_inv Hrun. by injection Hrun as <- _.
Qed.

Lemma mutUniformInt_returns_tuple (cv : loc) (low up : Z) (p : Q)
    (w w' : world) (r : pyobj) :
  mutUniformInt cfg cv low up p w = (Ok r, w') -> r = ObjTuple [ObjVector cv].
Proof.
  unfold mutUniformInt. intros Hrun.
  do 2 bind_inv Hrun. by injection Hrun as <- _.
Qed.

(** The two library modes do what [mutate] is written for: when the call
    returns, it returns the one-element tuple holding the reference it was
    given, and the genome behind it is in canonical form. *)
Lemma mutate_library_modes (cv : loc) (algorithm : GeneticAlgorithm)
    (connection_points : list connection_point) (w w' : world) (r : pyobj) :
  mutation algorithm = "ShuffleIndexes" \/ mutation algorithm = "UniformInteger" ->
  mutate cfg cv algorithm connection_points w = (Ok r, w') ->
  r = ObjTuple [ObjVector cv] /\ reset cfg (heap w' cv) = Ok (heap w' cv).
Proof.
  intros Hmode Hrun. unfold mutate in Hrun.
  apply bind_ok_inv in Hrun as (mutated & w1 & Hmut & Hrun).
  assert (mutated = ObjTuple [ObjVector cv]) as ->.
  { destruct Hmode as [Hm|Hm]; rewrite Hm in Hmut; cbn in Hmut.
    - by eapply mutShuffleIndexes_returns_tuple.
    - by eapply mutUniformInt_returns_tuple. }
  apply bind_ok_inv in Hrun as (first & w2 & Hfirst & Hrun).
  injection Hfirst as <- <-.
  apply bind_ok_inv in Hrun as (x & w3 & Hreset & Hrun).
  injection Hrun as <- <-. split; [done|].
  unfold obj_reset, cv_reset in Hreset.
  destruct (reset cfg (heap w1 cv)) as [g|] eqn:Hg; [|done].
  injection Hreset as _ <-.
  simpl. rewrite decide_True by done. by eapply reset_fixed_point.
Qed.

End LibraryMutations.

(** ** The most prevalent connectivity value of a cluster *)

Lemma float_eqb_eq (f g : spec_float) :
  float_eqb f g = true -> float_as_int f = None -> f = g.
Proof.
  destruct f as [s|s| |s m e], g as [t|t| |t n d]; simpl; try done.
  - intros Hs _. apply eqb_prop in Hs. congruence.
  - intros Heq _. apply andb_true_iff in Heq as [Heq He].
    apply andb_true_iff in Heq as [Hs Hm].
    apply eqb_prop in Hs. apply Pos.eqb_eq in Hm. apply Z.eqb_eq in He.
    congruence.
Qed.

Lemma py_eqb_cases (a b : pyval) :
  py_eqb a b = true ->
  (exists x, py_as_int a = Some x /\ py_as_int b = Some x) \/
  (py_as_int a = None /\ a = b).
Proof.
  unfold py_eqb.
  destruct (py_as_int a) as [x|] eqn:Ha, (py_as_int b) as [y|] eqn:Hb;
    try discriminate.
  - intros ->%Z.eqb_eq. left. eauto.
  - intros Heq. right. split; [done|].
    destruct a, b; try discriminate; try done.
    + simpl in Ha. f_equal. by apply float_eqb_eq.
    + apply String.eqb_eq in Heq. congruence.
Qed.

Lemma py_eqb_refl (a : pyval) : py_eqb a a = true.
Proof.
  unfold py_eqb. destruct (py_as_int a) eqn:Ha; [apply Z.eqb_refl|].
  destruct a; try done.
  - destruct f as [s|s| |s m e]; try done.
    + by destruct s.
    + unfold float_eqb. by rewrite eqb_reflx, Pos.eqb_refl, Z.eqb_refl.
  - apply String.eqb_refl.
Qed.

Lemma py_count_proper (a b : pyval) (vals : list pyval) :
  py_eqb a b = true -> py_count a vals = py_count b vals.
Proof.
  intros [(x & Ha & Hb) | [_ ->]]%py_eqb_cases; [|done].
  unfold py_count. f_equal. apply list_filter_iff. intros v.
  unfold py_eqb. rewrite Ha, Hb. done.
Qed.

Lemma py_max_from_split {A} (key : A -> nat) (xs : list A) :
  forall (best : A) (pre0 mid : list A),
    (forall x, x ∈ pre0 -> key x < key best) ->
    (forall x, x ∈ mid -> key x <= key best) ->
    exists pre post,
      pre0 ++ best :: mid ++ xs = pre ++ py_max_from key best xs :: post /\
      (forall x, x ∈ pre -> key x < key (py_max_from key best xs)) /\
      (forall x, x ∈ post -> key x <= key (py_max_from key best xs)).
Proof.
  induction xs as [|x xs IH]; intros best pre0 mid Hpre Hmid.
  - exists pre0, mid. rewrite app_nil_r. done.
  - simpl. destruct (key best <? key x) eqn:Hlt.
    + apply Nat.ltb_lt in Hlt.
      destruct (IH x (pre0 ++ best :: mid) []) as (pre & post & E & H1 & H2).
      * intros y [Hy|Hy]%elem_of_app; [specialize (Hpre y Hy); lia|].
        apply elem_of_cons in Hy as [->|Hy]; [done|].
        specialize (Hmid y Hy). lia.
      * intros y Hy. by apply elem_of_nil in Hy.
      * exists pre, post. split; [|done]. rewrite <- E. simpl.
        by rewrite <- app_assoc.
    + apply Nat.ltb_ge in Hlt.
      destruct (IH best pre0 (mid ++ [x])) as (pre & post & E & H1 & H2).
      * done.
      * intros y [Hy|Hy]%elem_of_app; [by apply Hmid|].
        apply list_elem_of_singleton in Hy as ->. done.
      * exists pre, post. split; [|done]. rewrite <- E.
        by rewrite <- app_assoc.
Qed.

Lemma py_max_split {A} (key : A -> nat) (xs : list A) (m : A) :
  py_max key xs = Ok m ->
  exists pre post,
    xs = pre ++ m :: post /\
    (forall x, x ∈ pre -> key x < key m) /\
    (forall x, x ∈ post -> key x <= key m).
Proof.
  destruct xs as [|x xs]; [done|]. simpl. intros [= <-].
  destruct (py_max_from_split key xs x [] []) as (pre & post & E & H1 & H2).
  - intros y Hy. by apply elem_of_nil in Hy.
  - intros y Hy. by apply elem_of_nil in Hy.
  - exists pre, post. done.
Qed.

Lemma elem_of_positions_of (c : Z) (ci : list Z) (i : nat) :
  i ∈ positions_of c ci <-> ci !! i = Some c.
Proof.
  unfold positions_of. rewrite list_elem_of_fmap. split.
  - intros ([j x] & -> & Hin). apply list_elem_of_filter in Hin as [Hx Hin].
    apply elem_of_lookup_imap in Hin as (k & y & [= -> ->] & Hk).
    simpl in *. by subst.
  - intros Hi. exists (i, c). split; [done|].
    apply list_elem_of_filter. split; [done|].
    apply elem_of_lookup_imap. eauto.
Qed.

Lemma assign_prevalent_spec (indexes : list nat) (m : pyval) :
  forall mp0 mp1,
    assign_prevalent indexes m mp0 = Ok mp1 ->
    forall i, mp1 !! i = if decide (i ∈ indexes) then Some m else mp0 !! i.
Proof.
  induction indexes as [|j rest IH]; intros mp0 mp1.
  - intros [= <-] i. done.
  - simpl. destruct (j <? length mp0) eqn:Hj; [|done].
    apply Nat.ltb_lt in Hj. intros Hrun i.
    rewrite (IH _ _ Hrun i).
    destruct (decide (i ∈ rest)) as [Hin|Hout].
    + rewrite decide_True; [done | by right].
    + destruct (decide (i = j)) as [->|Hne].
      * rewrite decide_True by by left. by apply list_lookup_insert_eq.
      * rewrite decide_False.
        -- by apply list_lookup_insert_ne.
        -- intros [->|?]%elem_of_cons; done.
Qed.

Section MostPrevalent.
Context `{S : SetOrder pyval}.

Lemma most_prevalent_loop_spec (cv : ConnectivityVector) (ci clusters : list Z) :
  forall mp0 mp,
    most_prevalent_loop cv ci clusters mp0 = Ok mp ->
    forall i c, ci !! i = Some c ->
      ((0 <= c)%Z -> c ∈ clusters ->
       exists vals m, cluster_mode cv ci c vals m /\ mp !! i = Some m) /\
      (~ ((0 <= c)%Z /\ c ∈ clusters) -> mp !! i = mp0 !! i).
Proof.
  induction clusters as [|c0 rest IH]; intros mp0 mp Hrun i c Hi.
  - injection Hrun as <-. split; [|done]. intros _ Hin.
    by apply elem_of_nil in Hin.
  - simpl in Hrun. destruct (c0 <? 0)%Z eqn:Hneg.
    + apply Z.ltb_lt in Hneg.
      destruct (IH _ _ Hrun i c Hi) as [IH1 IH2]. split.
      * intros Hc [->|Hin]%elem_of_cons; [lia | by apply IH1].
      * intros Hno. apply IH2. intros [? ?]. apply Hno. split; [done|].
        by right.
    + apply Z.ltb_ge in Hneg.
      destruct (mapM (getitem cv) (positions_of c0 ci)) as [vals0|] eqn:Hvals;
        [|done].
      simpl in Hrun.
      destruct (most_prevalent_connectivity_value vals0) as [m0|] eqn:Hm0;
        [|done].
      simpl in Hrun.
      destruct (assign_prevalent (positions_of c0 ci) m0 mp0) as [mp1|]
        eqn:Hassign; [|done].
      simpl in Hrun.
      pose proof (assign_prevalent_spec _ _ _ _ Hassign i) as Hmp1.
      destruct (IH _ _ Hrun i c Hi) as [IH1 IH2]. split.
      * intros Hc Hin. destruct (decide (c ∈ rest)) as [Hrest|Hrest];
          [by apply IH1|].
        apply elem_of_cons in Hin as [->|?]; [|done].
        exists vals0, m0. split; [done|].
        rewrite IH2 by (intros [? ?]; done). rewrite Hmp1.
        rewrite decide_True; [done | by apply elem_of_positions_of].
      * intros Hno. rewrite IH2.
        -- rewrite Hmp1. rewrite decide_False; [done|].
           intros Hpos%elem_of_positions_of. simplify_eq.
           apply Hno. split; [lia | by left].
        -- intros [? ?]. apply Hno. split; [done | by right].
Qed.

Lemma most_prevalent_value_spec `{!SetOrderOk S} (vals : list pyval) (m : pyval) :
  most_prevalent_connectivity_value vals = Ok m ->
  m ∈ vals /\
  (forall v, v ∈ vals -> py_count v vals <= py_count m vals) /\
  (exists pre post,
      set_iter vals = pre ++ m :: post /\
      forall x, x ∈ pre -> py_count x vals < py_count m vals).
Proof.
  unfold most_prevalent_connectivity_value.
  intros (pre & post & E & Hpre & Hpost)%py_max_split.
  assert (forall y, y ∈ set_iter vals -> py_count y vals <= py_count m vals)
    as Hmax.
  { intros y. rewrite E. intros [Hy|Hy]%elem_of_app.
    - specialize (Hpre y Hy). simpl in Hpre. lia.
    - apply elem_of_cons in Hy as [->|Hy]; [done|]. by apply Hpost. }
  split; [|split].
  - apply set_iter_sound. rewrite E. apply elem_of_app. right. by left.
  - intros v Hv. destruct (set_iter_complete vals v Hv) as (y & Hy & Heq).
    rewrite <- (py_count_proper y v vals Heq). by apply Hmax.
  - exists pre, post. done.
Qed.

(** C5 -- the mode of a cluster (amended).  For a position of a non-outlier
    cluster that is among [clusters], the value the function records is a
    most frequent value among that cluster's positions; among tied values
    it is the one that comes first when iterating over the set of the
    cluster's values, not the one that comes first in position order. *)
Theorem most_prevalent_is_mode (Hok : SetOrderOk S) (cv : ConnectivityVector)
    (ci clusters : list Z) (mp : list pyval) (i : nat) (c : Z) :
  most_prevalent_connectivity_values cv ci clusters = Ok mp ->
  ci !! i = Some c -> (0 <= c)%Z -> c ∈ clusters ->
  exists vals m,
    mapM (getitem cv) (positions_of c ci) = Ok vals /\
    mp !! i = Some m /\
    m ∈ vals /\
    (forall v, v ∈ vals -> py_count v vals <= py_count m vals) /\
    (exists pre post,
        set_iter vals = pre ++ m :: post /\
        forall x, x ∈ pre -> py_count x vals < py_count m vals).
Proof.
  intros Hrun Hi Hc Hin.
  destruct (most_prevalent_loop_spec _ _ _ _ _ Hrun i c Hi) as [Hspec _].
  destruct (Hspec Hc Hin) as (vals & m & [Hvals Hm] & Hmp).
  exists vals, m. split; [done|]. split; [done|].
  by apply most_prevalent_value_spec.
Qed.

End MostPrevalent.

(** The slot order is an iteration order a set can have. *)

Lemma py_eqb_sym (a b : pyval) : py_eqb a b = true -> py_eqb b a = true.
Proof.
  intros [(x & Ha & Hb) | [_ ->]]%py_eqb_cases; [|apply py_eqb_refl].
  unfold py_eqb. rewrite Ha, Hb. apply Z.eqb_refl.
Qed.

Lemma elem_of_insert_by {A} (key : A -> Z) (a x : A) (l : list A) :
  x ∈ insert_by key a l <-> x = a \/ x ∈ l.
Proof.
  induction l as [|y l IH]; simpl.
  - rewrite list_elem_of_singleton. split; [by left|].
    intros [?|Hx]; [done | by apply elem_of_nil in Hx].
  - destruct (key a <=? key y)%Z.
    + by rewrite elem_of_cons.
    + rewrite !elem_of_cons, IH. tauto.
Qed.

Lemma elem_of_sort_by {A} (key : A -> Z) (x : A) (l : list A) :
  x ∈ sort_by key l <-> x ∈ l.
Proof.
  unfold sort_by. induction l as [|y l IH]; simpl; [done|].
  rewrite elem_of_insert_by, elem_of_cons, IH. done.
Qed.

Lemma dedup_by_sound {A} (eqb : A -> A -> bool) (l : list A) :
  forall seen x, x ∈ dedup_by eqb seen l -> x ∈ l.
Proof.
  induction l as [|a l IH]; intros seen x; simpl; [done|].
  destruct (existsb (eqb a) seen).
  - intros Hx. right. by eapply IH.
  - intros [->|Hx]%elem_of_cons; [by left|]. right. by eapply IH.
Qed.

Lemma dedup_by_complete (l : list pyval) :
  forall seen x, x ∈ l ->
    (exists s, s ∈ seen /\ py_eqb x s = true) \/
    (exists y, y ∈ dedup_by py_eqb seen l /\ py_eqb y x = true).
Proof.
  induction l as [|a l IH]; intros seen x Hx; [by apply elem_of_nil in Hx|].
  simpl. destruct (existsb (py_eqb a) seen) eqn:Hseen.
  - apply elem_of_cons in Hx as [->|Hx]; [|by apply IH].
    left. apply existsb_exists in Hseen as (s & Hs & Heq).
    exists s. split; [by apply list_elem_of_In | done].
  - apply elem_of_cons in Hx as [->|Hx].
    + right. exists a. split; [by left | apply py_eqb_refl].
    + destruct (IH (a :: seen) x Hx) as [(s & Hs & Heq) | (y & Hy & Heq)].
      * apply elem_of_cons in Hs as [->|Hs]; [|left; eauto].
        right. exists a. split; [by left | by apply py_eqb_sym].
      * right. exists y. split; [by right | done].
Qed.

Lemma slot_order_val_ok : SetOrderOk slot_order_val.
Proof.
  split; unfold set_iter, slot_order_val.
  - intros l x Hx%elem_of_sort_by. by eapply dedup_by_sound.
  - intros l x Hx.
    destruct (dedup_by_complete l [] x Hx) as [(s & Hs & _) | (y & Hy & Heq)];
      [by apply elem_of_nil in Hs|].
    exists y. split; [by apply elem_of_sort_by | done].
Qed.

(** C5, at a genome that is in canonical form: one cluster holding
    [[2, 2, 1, 1]]. *)
Lemma most_prevalent_is_mode_witness :
  exists vals m,
    mapM (getitem (example_vector [2; 2; 1; 1]%Z))
         (positions_of 0 [0; 0; 0; 0]%Z) = Ok vals /\
    [PyInt 1; PyInt 1; PyInt 1; PyInt 1] !! 0 = Some m /\
    m ∈ vals /\
    (forall v, v ∈ vals -> py_count v vals <= py_count m vals) /\
    (exists pre post,
        @set_iter _ slot_order_val vals = pre ++ m :: post /\
        forall x, x ∈ pre -> py_count x vals < py_count m vals).
Proof.
  apply (most_prevalent_is_mode slot_order_val_ok
           (example_vector [2; 2; 1; 1]%Z) [0; 0; 0; 0]%Z [0%Z]
           [PyInt 1; PyInt 1; PyInt 1; PyInt 1] 0 0%Z).
  - vm_compute. reflexivity.
  - reflexivity.
  - lia.
  - constructor.
Defined.

(** C5 as stated fails: in the cluster [[2, 2, 1, 1]] the values [2] and
    [1] are tied, [2] comes first in position order, and the function
    records [1]. *)
Lemma mode_tie_counterexample :
  let cv := example_vector [2; 2; 1; 1]%Z in
  let ci := [0; 0; 0; 0]%Z in
  let vals := [PyInt 2; PyInt 2; PyInt 1; PyInt 1] in
  mapM (getitem cv) (positions_of 0 ci) = Ok vals /\
  py_count (PyInt 2) vals = 2 /\ py_count (PyInt 1) vals = 2 /\
  mode_in_position_order vals = Ok (PyInt 2) /\
  @most_prevalent_connectivity_values slot_order_val cv ci
     (@set_iter _ slot_order_Z ci)
  = Ok [PyInt 1; PyInt 1; PyInt 1; PyInt 1].
Proof. vm_compute. done. Qed.

(** ** Selection *)

Lemma mapM_result_Forall2 {A B} (f : A -> result B) (l : list A) (r : list B) :
  mapM f l = Ok r -> Forall2 (fun x y => f x = Ok y) l r.
Proof.
  revert r. induction l as [|x l IH]; intros r.
  - intros [= <-]. constructor.
  - cbn [mapM]. destruct (f x) as [y|] eqn:Hx; [|done]. simpl.
    destruct (mapM f l) as [ys|] eqn:Hl; [|done]. simpl.
    intros [= <-]. constructor; [done | by apply IH].
Qed.

Lemma mapM_result_is_ok {A B} (f : A -> result B) (l : list A) :
  Forall (fun x => is_ok (f x) = true) l -> is_ok (mapM f l) = true.
Proof.
  induction 1 as [|x l Hx _ IH]; [done|].
  cbn [mapM]. destruct (f x); [|done]. simpl.
  destruct (mapM f l); done.
Qed.

Section SelectProperties.
Context `{FloatOps} `{SetOrder string} `{NonDominatedSort}.

Lemma individual_dict_keyed (individuals_list : list ConnectivityVector) :
  dict_keyed (individual_dict individuals_list).
Proof.
  unfold individual_dict.
  assert (forall l d, dict_keyed d ->
            dict_keyed (foldl (fun d ind => <[as_str ind := ind]> d) d l)) as Hgen.
  { induction l as [|ind l IH]; intros d Hd; [done|].
    simpl. apply IH. intros k ind' [[<- <-]|[_ Hk]]%lookup_insert_Some;
      [done | by apply Hd]. }
  apply Hgen. intros k ind Hk. by rewrite lookup_empty in Hk.
Qed.

Lemma select_in_front_inv (n : nat) (front : list string) :
  forall st, select_inv n st -> select_inv n (select_in_front n front st).
Proof.
  induction front as [|k rest IH]; intros [d pop] Hinv; [done|].
  simpl. destruct (n <=? length pop) eqn:Hfull; [done|].
  apply Nat.leb_gt in Hfull.
  destruct (d !! k) as [ind|] eqn:Hk; [|by apply IH].
  apply IH. destruct Hinv as [Hkeyed Hdistinct Hremoved Hbound]. simpl in *.
  pose proof (Hkeyed k ind Hk) as Hstr.
  split; simpl.
  - intros k' ind' [_ Hk']%lookup_delete_Some. by apply Hkeyed.
  - rewrite fmap_app. apply NoDup_app. split; [done|]. split.
    + intros s Hs [->|Hnil]%elem_of_cons; [|by apply elem_of_nil in Hnil].
      apply list_elem_of_fmap in Hs as (ind' & Heq & Hin').
      specialize (Hremoved ind' Hin'). congruence.
    + apply NoDup_singleton.
  - intros ind' [Hin'|Hin']%elem_of_app.
    + apply lookup_delete_None. right. by apply Hremoved.
    + apply list_elem_of_singleton in Hin' as ->. rewrite Hstr.
      apply lookup_delete_eq.
  - rewrite length_app. simpl. lia.
Qed.

Lemma select_in_fronts_inv (n : nat) (fronts : list (list string)) :
  forall st, select_inv n st ->
    length (select_in_fronts n fronts st) <= n /\
    NoDup (as_str <$> select_in_fronts n fronts st).
Proof.
  induction fronts as [|front rest IH]; intros st Hinv; simpl.
  - split; [apply Hinv | apply Hinv].
  - destruct (n <=? length st.2); [split; apply Hinv|].
    apply IH. by apply select_in_front_inv.
Qed.

(** C3 -- selection size bound.  Whenever [select] returns a population,
    it has at most [population_size] members and no two of them have the
    same [as_str]; and it does return one when every solution has an
    encoding to read the key from. *)
Theorem select_bounded_distinct (individuals_list : list ConnectivityVector)
    (energy_system_solutions_dict : list (string * list SystemCombination))
    (population_size : nat) :
  (forall new_population,
      select individuals_list energy_system_solutions_dict population_size
      = Ok new_population ->
      length new_population <= population_size /\
      NoDup (as_str <$> new_population)) /\
  (let all := concat (snd <$> energy_system_solutions_dict) in
   Forall (Forall (fun sc => encoding sc <> []))
          (sortLogNondominated all (length all)) ->
   is_ok (select individuals_list energy_system_solutions_dict population_size)
   = true).
Proof.
  unfold select. split.
  - intros out.
    destruct (connectivity_vectors_by_front _) as [by_front|]; [|done].
    simpl. intros [= <-]. apply select_in_fronts_inv.
    split.
    + apply individual_dict_keyed.
    + constructor.
    + intros ind Hin. by apply elem_of_nil in Hin.
    + simpl. lia.
  - intros Hall.
    set (all := concat (snd <$> energy_system_solutions_dict)) in *.
    assert (is_ok (connectivity_vectors_by_front
                     (sortLogNondominated all (length all))) = true) as Hok.
    { apply mapM_result_is_ok. eapply Forall_impl; [exact Hall|].
      intros front Hfront. simpl.
      assert (is_ok (mapM encoding_0 front) = true) as Hkeys.
      { apply mapM_result_is_ok. eapply Forall_impl; [exact Hfront|].
        intros sc Hsc. simpl in Hsc. unfold encoding_0.
        by destruct (encoding sc). }
      by destruct (mapM encoding_0 front). }
    by destruct (connectivity_vectors_by_front _).
Qed.

Lemma select_in_front_keys (n : nat) (front : list string) :
  forall d pop,
    dict_keyed d ->
    exists ks,
      as_str <$> (select_in_front n front (d, pop)).2 = (as_str <$> pop) ++ ks /\
      ks `sublist_of` front /\
      dict_keyed (select_in_front n front (d, pop)).1.
Proof.
  induction front as [|k rest IH]; intros d pop Hd; simpl.
  - exists []. by rewrite app_nil_r.
  - destruct (n <=? length pop).
    { exists []. rewrite app_nil_r. split; [done|]. split;
        [apply sublist_nil_l | done]. }
    destruct (d !! k) as [ind|] eqn:Hk.
    + destruct (IH (delete k d) (pop ++ [ind])) as (ks & E & Hsub & Hd').
      { intros k' ind' [_ Hk']%lookup_delete_Some. by apply Hd. }
      exists (k :: ks). split; [|split; [by constructor | done]].
      rewrite E, fmap_app. simpl. rewrite (Hd k ind Hk).
      by rewrite <- app_assoc.
    + destruct (IH d pop Hd) as (ks & E & Hsub & Hd').
      exists ks. split; [done|]. split; [by constructor | done].
Qed.

Lemma select_in_fronts_keys (n : nat) (fronts : list (list string)) :
  forall d pop,
    dict_keyed d ->
    exists ks,
      as_str <$> select_in_fronts n fronts (d, pop) = (as_str <$> pop) ++ ks /\
      ks `sublist_of` concat fronts.
Proof.
  induction fronts as [|front rest IH]; intros d pop Hd; simpl.
  - exists []. by rewrite app_nil_r.
  - destruct (n <=? length pop).
    { exists []. rewrite app_nil_r. split; [done | apply sublist_nil_l]. }
    destruct (select_in_front_keys n front d pop Hd) as (ks1 & E1 & Hsub1 & Hd1).
    destruct (select_in_front n front (d, pop)) as [d1 pop1] eqn:Hfront.
    simpl in *.
    destruct (IH d1 pop1 Hd1) as (ks2 & E2 & Hsub2).
    exists (ks1 ++ ks2). split; [|by apply sublist_app].
    by rewrite E2, E1, <- app_assoc.
Qed.

Lemma existsb_eqb_str (x : string) (seen : list string) :
  existsb (String.eqb x) seen = true <-> x ∈ seen.
Proof.
  induction seen as [|y seen IH]; simpl.
  - split; [done | by intros ?%elem_of_nil].
  - rewrite orb_true_iff, IH, elem_of_cons, String.eqb_eq. done.
Qed.

Lemma dedup_by_fresh (l : list string) :
  forall seen x, x ∈ dedup_by String.eqb seen l -> x ∉ seen.
Proof.
  induction l as [|y l IH]; intros seen x; simpl.
  - by intros ?%elem_of_nil.
  - destruct (existsb (String.eqb y) seen) eqn:E; [by apply IH|].
    intros [->|Hx]%elem_of_cons.
    + intros Hin%existsb_eqb_str. congruence.
    + apply IH in Hx. intros Hin. apply Hx. by right.
Qed.

Lemma filter_ext_elem {A} (P1 P2 : A -> Prop)
    `{!forall x, Decision (P1 x)} `{!forall x, Decision (P2 x)} (l : list A) :
  (forall x, x ∈ l -> P1 x <-> P2 x) -> filter P1 l = filter P2 l.
Proof.
  induction l as [|x l IH]; intros Hl; [done|].
  rewrite !filter_cons.
  rewrite IH by (intros y Hy; apply Hl; by right).
  pose proof (Hl x ltac:(left)) as Hx.
  destruct (decide (P1 x)), (decide (P2 x)); tauto.
Qed.

Lemma select_in_front_full (n : nat) (front : list string)
    (st : gmap string ConnectivityVector * list ConnectivityVector) :
  n <= length st.2 -> select_in_front n front st = st.
Proof.
  intros Hfull. destruct front as [|k rest]; [done|]. simpl.
  by apply Nat.leb_le in Hfull as ->.
Qed.

Lemma select_in_front_app (n : nat) (front_1 front_2 : list string) :
  forall st,
    select_in_front n (front_1 ++ front_2) st
    = select_in_front n front_2 (select_in_front n front_1 st).
Proof.
  induction front_1 as [|k rest IH]; intros st; [done|]. simpl.
  destruct (n <=? length st.2) eqn:Hfull.
  - apply Nat.leb_le in Hfull. by rewrite select_in_front_full.
  - destruct (st.1 !! k); apply IH.
Qed.

(** The two loops walk the fronts' keys laid end to end. *)
Lemma select_in_fronts_concat (n : nat) (fronts : list (list string)) :
  forall st,
    select_in_fronts n fronts st = (select_in_front n (concat fronts) st).2.
Proof.
  induction fronts as [|front rest IH]; intros st; [done|]. simpl.
  destruct (n <=? length st.2) eqn:Hfull.
  - apply Nat.leb_le in Hfull. by rewrite select_in_front_full.
  - by rewrite select_in_front_app, IH.
Qed.

(** One walk over a list of keys, from a dictionary [d] none of whose keys
    is in [seen]: the genomes appended are those of the keys of [d], each
    at its first occurrence, until the population is full. *)
Lemma select_in_front_walk (n : nat) (keys : list string) :
  forall d pop seen,
    dict_keyed d ->
    (forall k, k ∈ seen -> d !! k = None) ->
    exists inds,
      (select_in_front n keys (d, pop)).2 = pop ++ inds /\
      as_str <$> inds
      = take (n - length pop)
          (filter (fun k => is_Some (d !! k))
                  (dedup_by String.eqb seen keys)) /\
      Forall (fun ind => d !! as_str ind = Some ind) inds.
Proof.
  induction keys as [|k rest IH]; intros d pop seen Hd Hseen.
  { exists []. cbn [select_in_front dedup_by snd].
    rewrite app_nil_r, filter_nil, take_nil. done. }
  cbn [select_in_front dedup_by fst snd].
  destruct (n <=? length pop) eqn:Hfull.
  { apply Nat.leb_le in Hfull. exists []. rewrite app_nil_r.
    replace (n - length pop) with 0 by lia. done. }
  apply Nat.leb_gt in Hfull.
  destruct (d !! k) as [ind|] eqn:Hk.
  - assert (k ∉ seen) as Hfresh.
    { intros Hin. apply Hseen in Hin. congruence. }
    assert (existsb (String.eqb k) seen = false) as ->.
    { apply not_true_is_false. by rewrite existsb_eqb_str. }
    destruct (IH (delete k d) (pop ++ [ind]) (k :: seen))
      as (inds & Hrun & Hkeys & Hlook).
    { intros k' ind' [_ Hk']%lookup_delete_Some. by apply Hd. }
    { intros k' [->|Hin]%elem_of_cons.
      - apply lookup_delete_eq.
      - apply lookup_delete_None. right. by apply Hseen. }
    exists (ind :: inds). split; [by rewrite Hrun, <- app_assoc|]. split.
    + rewrite filter_cons_True by (by rewrite Hk).
      replace (n - length pop) with (S (n - length (pop ++ [ind])))
        by (rewrite length_app; simpl; lia).
      cbn [fmap list_fmap take]. rewrite (Hd k ind Hk). f_equal.
      change (as_str <$> inds
              = take (n - length (pop ++ [ind]))
                  (filter (fun k0 => is_Some (d !! k0))
                          (dedup_by String.eqb (k :: seen) rest))).
      rewrite Hkeys. f_equal. apply filter_ext_elem.
      intros k' Hk'%dedup_by_fresh.
      rewrite lookup_delete_ne; [done|].
      intros ->. apply Hk'. by left.
    + constructor; [by rewrite (Hd k ind Hk)|].
      eapply Forall_impl; [exact Hlook|]. simpl.
      by intros ind' [_ ?]%lookup_delete_Some.
  - destruct (existsb (String.eqb k) seen) eqn:Hex.
    + by apply IH.
    + rewrite filter_cons_False by (rewrite Hk; by intros [? ?]).
      apply IH; [done|].
      by intros k' [->|Hin]%elem_of_cons; [|apply Hseen].
Qed.

(** C4 -- order within a front (amended).  The keys of a front are
    collected by building a set of them, and [select] walks the fronts in
    order and each front in the iteration order of that set.  With the
    fronts' key sets laid end to end in that order, the encodings of the
    returned population are exactly the keys of [individual_dict], each at
    its first occurrence, cut off after [population_size] of them, and the
    genome appended for a key is the one the dictionary holds for it.  So
    the population is determined by the iteration order of the sets; the
    order of first encounter in the solution list plays no part. *)
Theorem select_follows_set_order (individuals_list : list ConnectivityVector)
    (energy_system_solutions_dict : list (string * list SystemCombination))
    (population_size : nat) (new_population : list ConnectivityVector) :
  select individuals_list energy_system_solutions_dict population_size
  = Ok new_population ->
  let all := concat (snd <$> energy_system_solutions_dict) in
  exists by_front,
    Forall2 (fun solutions_in_front keys =>
               exists ks, mapM encoding_0 solutions_in_front = Ok ks /\
                          keys = set_iter ks)
            (sortLogNondominated all (length all)) by_front /\
    as_str <$> new_population
    = take population_size
        (filter (fun k => is_Some (individual_dict individuals_list !! k))
                (dedup_by String.eqb [] (concat by_front))) /\
    Forall (fun ind =>
              individual_dict individuals_list !! as_str ind = Some ind)
           new_population /\
    (as_str <$> new_population) `sublist_of` concat by_front.
Proof.
  intros Hrun all. unfold select in Hrun. fold all in Hrun.
  destruct (connectivity_vectors_by_front
              (sortLogNondominated all (length all)))
    as [by_front|] eqn:Hfronts;
    [|done].
  simpl in Hrun. injection Hrun as <-.
  exists by_front. split; [|split; [|split]].
  - apply mapM_result_Forall2 in Hfronts.
    eapply Forall2_impl; [exact Hfronts|]. intros front keys Hkeys. simpl in *.
    destruct (mapM encoding_0 front) as [ks|]; [|done].
    simpl in Hkeys. injection Hkeys as <-. eauto.
  - rewrite select_in_fronts_concat.
    destruct (select_in_front_walk population_size (concat by_front)
                (individual_dict individuals_list) [] [])
      as (inds & -> & Hkeys & _).
    + apply individual_dict_keyed.
    + by intros k ?%elem_of_nil.
    + simpl in *. by rewrite Nat.sub_0_r in Hkeys.
  - rewrite select_in_fronts_concat.
    destruct (select_in_front_walk population_size (concat by_front)
                (individual_dict individuals_list) [] [])
      as (inds & -> & _ & Hlook).
    + apply individual_dict_keyed.
    + by intros k ?%elem_of_nil.
    + done.
  - destruct (select_in_fronts_keys population_size by_front
                (individual_dict individuals_list) [])
      as (ks & E & Hsub); [apply individual_dict_keyed|].
    rewrite E. done.
Qed.

End SelectProperties.

(** *** Closed instances of the selection *)

(** C4 as stated fails: both solutions are in the first front, the one of
    [1_1] is met first, and the set of the two keys is iterated the other
    way round, so [0_0] is selected first. *)
Lemma select_order_counterexample :
  let X := example_vector [1; 1]%Z in
  let Y := example_vector [0; 0]%Z in
  let all := concat (snd <$> example_solutions) in
  @sortLogNondominated one_front all (length all) = [all] /\
  first_encounter_order all = Ok ["1_1"; "0_0"] /\
  @select float_ops_unused reverse_order_str one_front
    [X; Y] example_solutions 2 = Ok [Y; X] /\
  @as_str float_ops_unused <$> [Y; X] = ["0_0"; "1_1"].
Proof. vm_compute. done. Qed.

(** C4, at the same input: the one front's key set is iterated as
    [0_0], [1_1], and that is the order of the population. *)
Lemma select_follows_set_order_witness :
  exists by_front,
    Forall2 (fun solutions_in_front keys =>
               exists ks, mapM encoding_0 solutions_in_front = Ok ks /\
                          keys = @set_iter _ reverse_order_str ks)
            (@sortLogNondominated one_front
               (concat (snd <$> example_solutions))
               (length (concat (snd <$> example_solutions)))) by_front /\
    @as_str float_ops_unused <$>
      [example_vector [0; 0]%Z; example_vector [1; 1]%Z]
    = take 2
        (filter (fun k =>
                   is_Some (@individual_dict float_ops_unused
                              [example_vector [1; 1]%Z;
                               example_vector [0; 0]%Z] !! k))
                (dedup_by String.eqb [] (concat by_front))) /\
    Forall (fun ind =>
              @individual_dict float_ops_unused
                [example_vector [1; 1]%Z; example_vector [0; 0]%Z]
                !! @as_str float_ops_unused ind = Some ind)
           [example_vector [0; 0]%Z; example_vector [1; 1]%Z] /\
    (@as_str float_ops_unused <$>
       [example_vector [0; 0]%Z; example_vector [1; 1]%Z])
      `sublist_of` concat by_front.
Proof.
  apply (@select_follows_set_order float_ops_unused reverse_order_str one_front
           [example_vector [1; 1]%Z; example_vector [0; 0]%Z]
           example_solutions 2).
  vm_compute. reflexivity.
Defined.

(** ** Construction *)

Lemma Connection_init_default (cfg : config) :
  Connection_init cfg PyNone PyNone = Ok default_connection.
Proof. done. Qed.

Lemma connections_setter_default (cfg : config) :
  connections_setter cfg (ObjList [ObjConnection default_connection])
  = Ok [default_connection].
Proof.
  change (ObjList [ObjConnection default_connection])
    with (ObjList (ObjConnection <$> [default_connection])).
  rewrite connections_setter_collapse.
  simpl. unfold collapse. by destruct (py_in_ints _ _).
Qed.

(** C9 -- construction (amended).  An argument that is false in a boolean
    context -- omitted, [None], but also an empty list or tuple -- gives
    the vector of one default connection; an argument that is true and is
    not a list of [Connection] objects raises [ValueError]; a non-empty
    list of [Connection] objects is canonicalised and stored. *)
Theorem ConnectivityVector_init_cases (cfg : config)
    (objects : loc -> ConnectivityVector) (connection_list : pyobj) :
  (obj_truthy objects connection_list = false ->
   ConnectivityVector_init cfg objects connection_list
   = Ok {| connections := [default_connection]; fitness := Fitness_init |}) /\
  (obj_truthy objects connection_list = true ->
   as_connection_list connection_list = None ->
   ConnectivityVector_init cfg objects connection_list = Raise ValueError) /\
  (forall l, obj_truthy objects connection_list = true ->
             as_connection_list connection_list = Some l ->
             l <> [] /\
             ConnectivityVector_init cfg objects connection_list
             = Ok {| connections :=
                       collapse (values_appearing_once cfg
                                   (network_connection <$> l)) <$> l;
                     fitness := Fitness_init |}).
Proof.
  unfold ConnectivityVector_init. split; [|split].
  - intros ->. simpl. rewrite connections_setter_default. done.
  - intros -> Hnone. simpl. unfold connections_setter. by rewrite Hnone.
  - intros l Ht Hl. split.
    + intros ->. destruct connection_list as [| | |xs|]; try done.
      destruct xs; [done|]. simpl in Hl. cbn [mapM] in Hl.
      destruct (as_connection p); [|done]. simpl in Hl.
      by destruct (mapM as_connection xs).
    + rewrite Ht. simpl. unfold connections_setter. rewrite Hl.
      by rewrite canonical_connections_collapse.
Qed.

(** C9 as stated fails: an empty list is an argument that is present and is
    not a non-empty list of connections, and the construction succeeds. *)
Lemma init_empty_list_counterexample :
  ObjList [] <> ObjValue PyNone /\
  nonempty_connection_list (ObjList []) = false /\
  ConnectivityVector_init example_config (fun _ => example_vector [])
    (ObjList [])
  = Ok {| connections := [default_connection]; fitness := Fitness_init |}.
Proof. split; [done|]. split; reflexivity. Qed.

(** ** What the setter checks *)

(** C10 -- the checks of the setter guard truthy values only.  The setter
    raises (a [ValueError]) exactly when the value is true in a boolean
    context and is not an [int], or is an [int] outside
    [[0, maximum_number_of_networks]]; a value that is false in a boolean
    context is stored as it is ([0] for a zero-demand building); so [None]
    and [0.0] end up as the values of genome positions. *)
Theorem setter_checks_truthy_only (cfg : config) (b : pyval)
    (v : pyval) :
  (is_ok (network_connection_setter cfg b v) = false <->
   py_truthy v = true /\
   (isinstance_int v = false \/
    exists z, py_as_int v = Some z /\
              (z < 0 \/ maximum_number_of_networks cfg < z)%Z)) /\
  (py_truthy v = false ->
   network_connection_setter cfg b v
   = Ok (if in_zero_demand cfg b then PyInt 0 else v)) /\
  (let zero := PyFloat (S754_zero false) in
   exists c_none c_zero cv,
     set_network_connection example_config default_connection PyNone
     = Ok c_none /\
     set_network_connection example_config default_connection zero
     = Ok c_zero /\
     ConnectivityVector_init example_config (fun _ => example_vector [])
       (ObjList (ObjConnection <$> [c_none; c_zero; c_zero])) = Ok cv /\
     values cv = [PyNone; zero; zero]).
Proof.
  split; [|split].
  - rewrite <- (setter_raises_iff cfg b v).
    destruct (setter_ok_or_value_error cfg b v) as [-> | ->]; simpl; [done|].
    split; discriminate.
  - apply setter_falsy.
  - do 3 eexists. repeat split; vm_compute; reflexivity.
Qed.

(** ** Closed instances *)

(** C7, for the building without demand of the example and network id 2. *)
Lemma zero_demand_pin_witness :
  set_network_connection example_config
    {| building := PyStr "B1004"; network_connection := PyInt 0 |} (PyInt 2)
  = Ok {| building := PyStr "B1004"; network_connection := PyInt 0 |}.
Proof.
  apply (proj1 (zero_demand_pin example_config
                  {| building := PyStr "B1004"; network_connection := PyInt 0 |}
                  (PyInt 2) eq_refl)).
  - reflexivity.
  - split; [reflexivity|]. exists 2%Z. split; [reflexivity | simpl; lia].
Defined.

(** C6, for the genome [[1, 1, 1, 2]] of the specification's scenario. *)
Lemma singleton_collapse_witness :
  let l := (fun z => {| building := PyNone; network_connection := PyInt z |})
             <$> [1; 1; 1; 2]%Z in
  exists l',
    connections_setter example_config (ObjList (ObjConnection <$> l)) = Ok l' /\
    network_connection <$> (l' !! 3) = Some (PyInt 0).
Proof.
  apply (proj1 (@singleton_collapse float_ops_unused example_config 2%Z
                  ltac:(simpl; lia)) _ 3
               {| building := PyNone; network_connection := PyInt 2 |});
    reflexivity.
Defined.

(** * Further properties *)

(** ** The canonical form *)

Lemma py_count_cons (x v : pyval) (vs : list pyval) :
  py_count x (v :: vs) = (if py_eqb v x then 1 else 0) + py_count x vs.
Proof.
  unfold py_count. rewrite filter_cons.
  destruct (py_eqb v x) eqn:E.
  - by rewrite decide_True.
  - rewrite decide_False; [done | congruence].
Qed.

Lemma py_count_collapse (once : list Z) (k : Z) (l : list Connection) :
  k <> 0%Z ->
  py_count (PyInt k) (network_connection <$> (collapse once <$> l))
  = if decide (k ∈ once) then 0
    else py_count (PyInt k) (network_connection <$> l).
Proof.
  intros Hk. induction l as [|c l IH].
  - by destruct (decide (k ∈ once)).
  - rewrite !fmap_cons, !py_count_cons, IH. unfold collapse.
    destruct (py_in_ints (network_connection c) once) eqn:Hin; simpl.
    + assert (py_eqb (PyInt 0) (PyInt k) = false) as ->.
      { apply not_true_is_false. rewrite py_eqb_int. simpl. congruence. }
      destruct (decide (k ∈ once)) as [Hko|Hko]; [done|].
      assert (py_eqb (network_connection c) (PyInt k) = false) as ->; [|done].
      apply not_true_is_false. intros Heq%py_eqb_int.
      apply py_in_ints_true in Hin as (z & Hz & Hzin). by simplify_eq.
    + destruct (decide (k ∈ once)) as [Hko|Hko]; [|done].
      assert (py_eqb (network_connection c) (PyInt k) = false) as ->; [|done].
      apply not_true_is_false. intros Heq%py_eqb_int.
      assert (py_in_ints (network_connection c) once = true)
        by (apply py_in_ints_true; eauto).
      congruence.
Qed.

Lemma collapse_canonical (cfg : config) (l : list Connection) (f : Fitness) :
  canonical_form cfg
    {| connections :=
         collapse (values_appearing_once cfg (network_connection <$> l)) <$> l;
       fitness := f |}.
Proof.
  intros k Hk. unfold values. simpl.
  rewrite py_count_collapse by lia.
  destruct (decide (k ∈ _)) as [Hin|Hout]; [done|].
  intros Hone. apply Hout. apply elem_of_values_appearing_once.
  split; [lia | done].
Qed.

Lemma reset_gives_canonical (cfg : config) (cv cv1 : ConnectivityVector) :
  reset cfg cv = Ok cv1 -> canonical_form cfg cv1.
Proof. rewrite reset_collapse. intros [= <-]. apply collapse_canonical. Qed.

(** X1 -- the canonical form is established.  [reset()], and the setter of
    [connections] it goes through, always succeed and leave a genome in
    which no network id between [1] and [maximum_number_of_networks] is
    held by exactly one position. *)
Theorem canonical_form_established (cfg : config) :
  (forall cv, exists cv1, reset cfg cv = Ok cv1 /\ canonical_form cfg cv1) /\
  (forall (l : list Connection) (f : Fitness),
      exists l',
        connections_setter cfg (ObjList (ObjConnection <$> l)) = Ok l' /\
        canonical_form cfg {| connections := l'; fitness := f |}).
Proof.
  split.
  - intros cv. eexists. split; [apply reset_collapse|].
    apply collapse_canonical.
  - intros l f. eexists. split; [apply connections_setter_collapse|].
    apply collapse_canonical.
Qed.

(** X2 -- what [reset()] leaves alone.  [reset()] keeps the fitness, the
    length and the building of every position; a position either keeps its
    value or is set to the integer [0], and it is set to [0] only if its
    value is a network id within range that exactly one position holds. *)
Theorem reset_frame (cfg : config) (cv : ConnectivityVector) :
  exists cv1,
    reset cfg cv = Ok cv1 /\
    fitness cv1 = fitness cv /\
    building <$> connections cv1 = building <$> connections cv /\
    forall i c, connections cv !! i = Some c ->
      exists c1,
        connections cv1 !! i = Some c1 /\
        (c1 = c \/
         network_connection c1 = PyInt 0 /\
         exists k, (0 <= k <= maximum_number_of_networks cfg)%Z /\
                   py_as_int (network_connection c) = Some k /\
                   py_count (PyInt k) (values cv) = 1).
Proof.
  eexists. split; [apply reset_collapse|]. simpl. split; [done|]. split.
  - rewrite <- list_fmap_compose. apply list_fmap_ext.
    intros i c _. simpl. apply collapse_building.
  - intros i c Hi. eexists. rewrite list_lookup_fmap, Hi. split; [done|].
    unfold collapse.
    destruct (py_in_ints (network_connection c) _) eqn:Hin; [|by left].
    right. split; [done|].
    apply py_in_ints_true in Hin as (k & Hk & Hin).
    apply elem_of_values_appearing_once in Hin as [Hr Hc]. eauto.
Qed.

(** X3 -- a canonical genome is a fixed point.  On a genome of integers
    that is in canonical form, [reset()] changes nothing. *)
Theorem reset_canonical_identity (cfg : config) (cv : ConnectivityVector) :
  canonical_form cfg cv ->
  Forall (fun c => exists z, network_connection c = PyInt z) (connections cv) ->
  reset cfg cv = Ok cv.
Proof.
  intros Hcanon Hints. rewrite reset_collapse. destruct cv as [conns fit].
  simpl in *. f_equal. f_equal.
  rewrite <- (list_fmap_id conns) at 3.
  apply list_fmap_ext. intros i c Hi. simpl.
  unfold collapse.
  destruct (py_in_ints (network_connection c) _) eqn:Hin; [|done].
  apply py_in_ints_true in Hin as (k & Hk & Hin).
  apply elem_of_values_appearing_once in Hin as [Hr Hc].
  rewrite Forall_forall in Hints.
  destruct (Hints c) as [z Hz]; [by eapply list_elem_of_lookup_2|].
  rewrite Hz in Hk. simpl in Hk. injection Hk as ->.
  destruct (decide (k = 0%Z)) as [->|Hne].
  - destruct c. simpl in *. by subst.
  - destruct (Hcanon k); [lia | done].
Qed.

Lemma reset_canonical_identity_witness :
  reset example_config (example_vector [1; 1; 0; 2; 2]%Z)
  = Ok (example_vector [1; 1; 0; 2; 2]%Z).
Proof.
  apply reset_canonical_identity.
  - intros k Hk. simpl in Hk.
    assert (k = 1 \/ k = 2)%Z as [->| ->] by lia; vm_compute; lia.
  - repeat constructor; eexists; reflexivity.
Defined.

(** ** Construction of a [Connection] *)

(** X4 -- a constructed connection holds an integer.  Whatever is handed
    to [Connection(...)], a connection that is constructed holds an [int]
    (never [None] or a float): [0], or a network id between [1] and
    [maximum_number_of_networks]; for a zero-demand building it holds
    [0]. *)
Theorem Connection_init_stores_int (cfg : config) (v : pyval)
    (b : pyval) (c : Connection) :
  Connection_init cfg v b = Ok c ->
  building c = b /\
  isinstance_int (network_connection c) = true /\
  (exists z, py_as_int (network_connection c) = Some z /\
             (z = 0 \/ 0 < z <= maximum_number_of_networks cfg)%Z) /\
  (in_zero_demand cfg b = true -> network_connection c = PyInt 0).
Proof.
  unfold Connection_init.
  destruct (building_setter cfg b) as [b'|] eqn:Hb; [|done]. simpl.
  assert (b' = b) as ->.
  { unfold building_setter in Hb.
    repeat match type of Hb with
           | context [if ?t then _ else _] => destruct t
           end; congruence. }
  destruct (py_truthy v) eqn:Ht.
  - destruct (setter_ok_or_value_error cfg b v) as [E|E]; rewrite E; [done|].
    simpl. intros [= <-]. simpl. split; [done|].
    destruct (in_zero_demand cfg b) eqn:Hz.
    { split; [done|]. split; [|done]. exists 0%Z. split; [done | by left]. }
    assert (network_connection_setter cfg b v <> Raise ValueError) as Hok
      by congruence.
    rewrite setter_raises_iff in Hok.
    destruct (isinstance_int v) eqn:Hi;
      [|destruct Hok; split; [done | by left]].
    split; [done|]. split; [|done].
    destruct (isinstance_int_as_int v Hi) as [z Hz'].
    exists z. split; [done|]. right.
    assert (z <> 0%Z).
    { intros ->. destruct v; simpl in *; try done.
      - destruct b0; simplify_eq.
      - simplify_eq. }
    destruct (decide (0 < z <= maximum_number_of_networks cfg)%Z); [done|].
    destruct Hok. split; [done|]. right. exists z. split; [done | lia].
  - rewrite setter_falsy by done. simpl. intros [= <-]. simpl.
    split; [done|]. split; [by destruct (in_zero_demand cfg b)|].
    split; [|by intros ->].
    exists 0%Z. split; [by destruct (in_zero_demand cfg b) | by left].
Qed.

Lemma Connection_init_stores_int_witness :
  building {| building := PyStr "B1001"; network_connection := PyInt 2 |}
  = PyStr "B1001" /\
  isinstance_int (PyInt 2) = true /\
  (exists z, py_as_int (PyInt 2) = Some z /\
             (z = 0 \/ 0 < z <= maximum_number_of_networks example_config)%Z) /\
  (in_zero_demand example_config (PyStr "B1001") = true -> PyInt 2 = PyInt 0).
Proof.
  apply (Connection_init_stores_int example_config (PyInt 2) (PyStr "B1001")
           {| building := PyStr "B1001"; network_connection := PyInt 2 |}).
  reflexivity.
Defined.

(** X5 -- when the construction of a connection fails.  [Connection(...)]
    raises [ValueError] exactly when the building code is true in a boolean
    context and is not a string naming a building of the domain, or the
    network connection is true in a boolean context and is not an [int]
    within [[0, maximum_number_of_networks]]; in every other case the
    connection is constructed, so no other exception is raised.  [None],
    [0] and the empty string pass unchecked in either position. *)
Theorem Connection_init_raises_iff (cfg : config) (v : pyval)
    (b : pyval) :
  (Connection_init cfg v b = Raise ValueError <->
   (py_truthy b = true /\
    (isinstance_str b = false \/
     exists code, b = PyStr code /\ code ∉ possible_building_codes cfg)) \/
   (py_truthy v = true /\
    (isinstance_int v = false \/
     exists z, py_as_int v = Some z /\
               (z < 0 \/ maximum_number_of_networks cfg < z)%Z))) /\
  (Connection_init cfg v b = Raise ValueError \/
   exists c, Connection_init cfg v b = Ok c).
Proof.
  assert (building_setter cfg b = Raise ValueError \/
          building_setter cfg b = Ok b) as Hcases.
  { unfold building_setter.
    repeat match goal with
           | |- context [if ?t then _ else _] => destruct t
           end; auto. }
  assert (building_setter cfg b = Raise ValueError <->
          py_truthy b = true /\
          (isinstance_str b = false \/
           exists code, b = PyStr code /\
                        code ∉ possible_building_codes cfg)) as Hb.
  { unfold building_setter.
    destruct (py_truthy b) eqn:Ht; simpl.
    2:{ split; [done|]. by intros [? _]. }
    destruct b as [| |z|f|code]; simpl;
      try (split; [intros _; split; [done | by left] | done]).
    case_bool_decide as Hin; simpl.
    - split; [done|]. intros [_ [?|(? & [= <-] & ?)]]; done.
    - split; [|done]. intros _. split; [done|]. right. eauto. }
  assert (forall b',
            (stored ← (if py_truthy v
                       then network_connection_setter cfg b' v
                       else network_connection_setter cfg b' (PyInt 0));
             mret {| building := b'; network_connection := stored |})
            = Raise ValueError \/
            (network_connection_setter cfg b' v <> Raise ValueError \/
             py_truthy v = false) /\
            exists c,
              (stored ← (if py_truthy v
                         then network_connection_setter cfg b' v
                         else network_connection_setter cfg b' (PyInt 0));
               mret {| building := b'; network_connection := stored |})
              = Ok c) as Hs.
  { intros b'. destruct (py_truthy v) eqn:Ht.
    - destruct (setter_ok_or_value_error cfg b' v) as [-> | ->]; simpl.
      + by left.
      + right. split; [by left | by eexists].
    - rewrite setter_falsy by done. simpl. right. split; [by right | by eexists]. }
  unfold Connection_init.
  destruct Hcases as [E|E]; rewrite E; simpl.
  { split; [|by left]. split; [|done]. intros _. left. by apply Hb. }
  assert (~ (py_truthy b = true /\
             (isinstance_str b = false \/
              exists code, b = PyStr code /\
                           code ∉ possible_building_codes cfg))) as Hgood.
  { rewrite <- Hb, E. done. }
  destruct (Hs b) as [Hr | [Hno [c Hc]]].
  - rewrite Hr. split; [|by left]. split; [|done]. intros _. right.
    destruct (py_truthy v) eqn:Ht.
    + destruct (setter_ok_or_value_error cfg b v) as [Hv | Hv].
      * split; [done|]. exact (proj2 (proj1 (setter_raises_iff cfg b v) Hv)).
      * rewrite Hv in Hr. done.
    + rewrite setter_falsy in Hr by done. done.
  - rewrite Hc. split; [|right; by eexists]. split; [done|].
    intros [Hbad | Hbad]; [done|].
    destruct Hno as [Hno | Hno].
    + destruct Hno. exact (proj2 (setter_raises_iff cfg b v) Hbad).
    + destruct Hbad as [? _]. congruence.
Qed.

Lemma Connection_init_raises_iff_witness :
  Connection_init example_config (PyInt 0) (PyInt 5) = Raise ValueError.
Proof.
  apply (proj1 (Connection_init_raises_iff example_config (PyInt 0) (PyInt 5))).
  left. split; [reflexivity | left; reflexivity].
Defined.

(** ** Equality of genomes *)

Lemma py_eqb_trans (a b c : pyval) :
  py_eqb a b = true -> py_eqb b c = true -> py_eqb a c = true.
Proof.
  intros [(x & Ha & Hb) | [_ ->]]%py_eqb_cases; [|done].
  intros [(y & Hb' & Hc) | [Hn _]]%py_eqb_cases; [|congruence].
  unfold py_eqb. rewrite Ha, Hc. simplify_eq. apply Z.eqb_refl.
Qed.

(** X6 -- [__eq__] is an equivalence.  Equality of connectivity vectors is
    reflexive, symmetric and transitive, and equal vectors have the same
    length; buildings and fitness play no part in it. *)
Theorem ConnectivityVector_eq_equivalence :
  (forall a, ConnectivityVector_eq a a = true) /\
  (forall a b, ConnectivityVector_eq a b = true ->
               ConnectivityVector_eq b a = true) /\
  (forall a b c, ConnectivityVector_eq a b = true ->
                 ConnectivityVector_eq b c = true ->
                 ConnectivityVector_eq a c = true) /\
  (forall a b, ConnectivityVector_eq a b = true ->
               length (connections a) = length (connections b)).
Proof.
  unfold ConnectivityVector_eq. split; [|split; [|split]].
  - intros a. induction (values a) as [|v vs IH]; [done|].
    simpl. by rewrite py_eqb_refl.
  - intros a b. revert b.
    assert (forall xs ys, py_tuple_eqb xs ys = true ->
                          py_tuple_eqb ys xs = true) as Hsym.
    { induction xs as [|x xs IH]; intros [|y ys]; try done. simpl.
      intros [Hx Hxs]%andb_true_iff.
      by rewrite (py_eqb_sym _ _ Hx), (IH _ Hxs). }
    intros b. apply Hsym.
  - assert (forall xs ys zs, py_tuple_eqb xs ys = true ->
              py_tuple_eqb ys zs = true -> py_tuple_eqb xs zs = true) as Htr.
    { induction xs as [|x xs IH]; intros [|y ys] [|z zs]; try done. simpl.
      intros [Hx Hxs]%andb_true_iff [Hy Hys]%andb_true_iff.
      by rewrite (py_eqb_trans _ _ _ Hx Hy), (IH _ _ Hxs Hys). }
    intros a b c. apply Htr.
  - assert (forall xs ys, py_tuple_eqb xs ys = true ->
                          length xs = length ys) as Hlen.
    { induction xs as [|x xs IH]; intros [|y ys]; try done. simpl.
      intros [_ Hxs]%andb_true_iff. f_equal. by apply IH. }
    intros a b Heq. apply Hlen in Heq. unfold values in Heq.
    by rewrite !length_fmap in Heq.
Qed.

(** ** Drawing values *)

Lemma select_values_run {A} (values : list A) (probability : Q) :
  forall w, exists selected w',
    select_values_with_probability values probability w = (Ok selected, w') /\
    selected `sublist_of` values /\
    draws w' = draws w + length values /\
    heap w' = heap w /\
    cluster_indexes w' = cluster_indexes w.
Proof.
  induction values as [|v values IH]; intros w.
  - exists [], w. simpl. repeat split; [done | lia].
  - cbn [select_values_with_probability]. rewrite bind_run.
    unfold random_random at 1.
    destruct (IH (drawn w)) as (sel & w1 & Hrun & Hsub & Hdraws & Hheap & Hci).
    rewrite bind_run, Hrun. simpl in *.
    eexists _, w1. split; [done|]. split; [|split; [lia | done]].
    destruct (Qltb _ _); by constructor.
Qed.

(** X7 -- [select_values_with_probability] never raises: it returns a
    subsequence of the values handed in (their order kept), draws exactly
    one random number per value and touches neither a genome nor the
    cluster cache. *)
Theorem select_values_subsequence {A} (values : list A) (probability : Q)
    (w : world) :
  exists selected,
    (select_values_with_probability values probability w).1 = Ok selected /\
    selected `sublist_of` values /\
    draws (select_values_with_probability values probability w).2
    = draws w + length values /\
    heap (select_values_with_probability values probability w).2 = heap w /\
    cluster_indexes (select_values_with_probability values probability w).2
    = cluster_indexes w.
Proof.
  destruct (select_values_run values probability w)
    as (sel & w' & -> & Hsub & Hdraws & Hheap & Hci).
  exists sel. done.
Qed.

(** ** Outliers in the prevalent values *)

Lemma assign_prevalent_length (indexes : list nat) (m : pyval) :
  forall mp0 mp1,
    assign_prevalent indexes m mp0 = Ok mp1 -> length mp1 = length mp0.
Proof.
  induction indexes as [|j rest IH]; intros mp0 mp1; simpl.
  - by intros [= <-].
  - destruct (j <? length mp0); [|done].
    intros Hrun%IH. by rewrite length_insert in Hrun.
Qed.

Section PrevalentOutliers.
Context `{S : SetOrder pyval}.

Lemma most_prevalent_loop_length (cv : ConnectivityVector)
    (ci clusters : list Z) :
  forall mp0 mp,
    most_prevalent_loop cv ci clusters mp0 = Ok mp -> length mp = length mp0.
Proof.
  induction clusters as [|c0 rest IH]; intros mp0 mp; simpl.
  - by intros [= <-].
  - destruct (c0 <? 0)%Z; [apply IH|].
    destruct (mapM (getitem cv) (positions_of c0 ci)); [|done]. simpl.
    destruct (most_prevalent_connectivity_value _); [|done]. simpl.
    destruct (assign_prevalent _ _ mp0) as [mp1|] eqn:Hassign; [|done]. simpl.
    intros Hrun%IH. apply assign_prevalent_length in Hassign. congruence.
Qed.

(** X8 -- outliers have no prevalent value.  The list
    [_get_most_prevalent_connectivity_values] computes has one entry per
    position of the genome, and the entry of a position whose cluster index
    is negative is [None], whichever clusters are handed in. *)
Theorem most_prevalent_ignores_outliers (cv : ConnectivityVector)
    (ci clusters : list Z) (mp : list pyval) :
  most_prevalent_connectivity_values cv ci clusters = Ok mp ->
  length mp = length (connections cv) /\
  forall i c, ci !! i = Some c -> (c < 0)%Z -> i < length (connections cv) ->
              mp !! i = Some PyNone.
Proof.
  unfold most_prevalent_connectivity_values. intros Hrun. split.
  - apply most_prevalent_loop_length in Hrun. by rewrite length_replicate in Hrun.
  - intros i c Hi Hc Hlen.
    destruct (most_prevalent_loop_spec _ _ _ _ _ Hrun i c Hi) as [_ Hkeep].
    rewrite Hkeep by lia. by apply lookup_replicate_2.
Qed.

End PrevalentOutliers.

Lemma most_prevalent_ignores_outliers_witness :
  length [PyNone; PyInt 1; PyInt 1] = length (connections (example_vector [2; 1; 1]%Z)) /\
  forall i c, [-1; 0; 0]%Z !! i = Some c -> (c < 0)%Z ->
              i < length (connections (example_vector [2; 1; 1]%Z)) ->
              [PyNone; PyInt 1; PyInt 1] !! i = Some PyNone.
Proof.
  apply (@most_prevalent_ignores_outliers slot_order_val
           (example_vector [2; 1; 1]%Z) [-1; 0; 0]%Z [0; -1]%Z).
  vm_compute. reflexivity.
Defined.

(** ** What the operators hand back *)

Section Dispatch.
Context `{FloatOps} `{SetOrder Z} `{SetOrder pyval} `{ClusteringOps}.
Variable cfg : config.

Lemma cxOnePoint_returns_pair (a b : loc) (w w' : world) (r : pyobj) :
  cxOnePoint cfg a b w = (Ok r, w') -> r = ObjTuple [ObjVector a; ObjVector b].
Proof.
  unfold cxOnePoint. intros Hrun. do 4 bind_inv Hrun.
  by injection Hrun as <- _.
Qed.

Lemma cxTwoPoint_returns_pair (a b : loc) (w w' : world) (r : pyobj) :
  cxTwoPoint cfg a b w = (Ok r, w') -> r = ObjTuple [ObjVector a; ObjVector b].
Proof.
  unfold cxTwoPoint. intros Hrun. do 4 bind_inv Hrun.
  destruct (_ <=? _)%Z; bind_inv Hrun; by injection Hrun as <- _.
Qed.

Lemma cxUniform_returns_pair (a b : loc) (p : Q) (w w' : world) (r : pyobj) :
  cxUniform cfg a b p w = (Ok r, w') -> r = ObjTuple [ObjVector a; ObjVector b].
Proof.
  unfold cxUniform. intros Hrun. do 3 bind_inv Hrun.
  by injection Hrun as <- _.
Qed.

Lemma ClusterSwap_returns_pair (a b : loc) (p : Q) (w w' : world) (r : pyobj) :
  ClusterSwap cfg a b p w = (Ok r, w') -> r = ObjTuple [ObjVector a; ObjVector b].
Proof.
  unfold ClusterSwap. intros Hrun. do 3 bind_inv Hrun.
  by injection Hrun as <- _.
Qed.

Lemma ClusterAlignment_returns_pair (a b : loc) (p : Q) (w w' : world)
    (r : pyobj) :
  ClusterAlignment cfg a b p w = (Ok r, w') ->
  r = ObjTuple [ObjVector a; ObjVector b].
Proof.
  unfold ClusterAlignment. intros Hrun. do 6 bind_inv Hrun.
  by injection Hrun as <- _.
Qed.

(** X9 -- what [mate] hands back.  Whenever [mate] returns, with any of
    the five crossovers, it returns the pair of the two references it was
    given, and both genomes are in canonical form. *)
Theorem mate_returns_canonical_pair (cv_1 cv_2 : loc)
    (algorithm : GeneticAlgorithm)
    (connection_points : list connection_point) (w w' : world) (r : pyobj) :
  mate cfg cv_1 cv_2 algorithm connection_points w = (Ok r, w') ->
  r = ObjTuple [ObjVector cv_1; ObjVector cv_2] /\
  canonical_form cfg (heap w' cv_1) /\
  canonical_form cfg (heap w' cv_2).
Proof.
  unfold mate. intros Hrun.
  apply bind_ok_inv in Hrun as (pair & w1 & Hmode & Hrun).
  assert (pair = ObjTuple [ObjVector cv_1; ObjVector cv_2]) as ->.
  { repeat match type of Hmode with
           | (if ?c then _ else _) _ = _ => destruct c
           end.
    - by eapply cxOnePoint_returns_pair.
    - by eapply cxTwoPoint_returns_pair.
    - by eapply cxUniform_returns_pair.
    - bind_inv Hmode. by eapply ClusterSwap_returns_pair.
    - bind_inv Hmode. by eapply ClusterAlignment_returns_pair.
    - discriminate. }
  apply bind_ok_inv in Hrun as (first & w2 & Hfirst & Hrun).
  injection Hfirst as <- <-.
  apply bind_ok_inv in Hrun as (x & w3 & Hreset1 & Hrun).
  apply bind_ok_inv in Hrun as (second & w4 & Hsecond & Hrun).
  injection Hsecond as <- <-.
  apply bind_ok_inv in Hrun as (y & w5 & Hreset2 & Hrun).
  injection Hrun as <- <-. split; [done|].
  unfold obj_reset, cv_reset in Hreset1, Hreset2.
  destruct (reset cfg (heap w1 cv_1)) as [g1|] eqn:Hg1; [|done].
  injection Hreset1 as _ <-.
  destruct (reset cfg (heap (store cv_1 g1 w1) cv_2)) as [g2|] eqn:Hg2; [|done].
  injection Hreset2 as _ <-.
  apply reset_gives_canonical in Hg1, Hg2. simpl.
  split.
  - destruct (decide (cv_1 = cv_2)); [done|]. by rewrite decide_True.
  - by rewrite decide_True.
Qed.

(** X10 -- the library mutations end in canonical form.  Whenever [mutate]
    returns with the selector ['ShuffleIndexes'] or ['UniformInteger'], it
    returns the one-element tuple of the reference it was given and the
    genome is in canonical form. *)
Theorem mutate_returns_canonical (cv : loc) (algorithm : GeneticAlgorithm)
    (connection_points : list connection_point) (w w' : world) (r : pyobj) :
  mutation algorithm = "ShuffleIndexes" \/ mutation algorithm = "UniformInteger" ->
  mutate cfg cv algorithm connection_points w = (Ok r, w') ->
  r = ObjTuple [ObjVector cv] /\ canonical_form cfg (heap w' cv).
Proof.
  intros Hmode Hrun. unfold mutate in Hrun.
  apply bind_ok_inv in Hrun as (mutated & w1 & Hmut & Hrun).
  assert (mutated = ObjTuple [ObjVector cv]) as ->.
  { destruct Hmode as [Hm|Hm]; rewrite Hm in Hmut; cbn in Hmut.
    - by eapply mutShuffleIndexes_returns_tuple.
    - by eapply mutUniformInt_returns_tuple. }
  apply bind_ok_inv in Hrun as (first & w2 & Hfirst & Hrun).
  injection Hfirst as <- <-.
  apply bind_ok_inv in Hrun as (x & w3 & Hreset & Hrun).
  injection Hrun as <- <-. split; [done|].
  unfold obj_reset, cv_reset in Hreset.
  destruct (reset cfg (heap w1 cv)) as [g|] eqn:Hg; [|done].
  injection Hreset as _ <-.
  simpl. rewrite decide_True by done. by eapply reset_gives_canonical.
Qed.

End Dispatch.

Lemma mate_returns_canonical_pair_witness :
  let w := example_world None [1; 1; 2; 2]%Z [2; 0; 1; 1]%Z (fun _ => 0%Q) in
  let run :=
    @mate float_ops_unused slot_order_Z slot_order_val example_clustering
      example_config 0 1
      {| mutation := "UniformInteger"; mut_prob := 1 # 2;
         crossover := "Uniform"; cx_prob := 1 # 2 |} [] w in
  run.1 = Ok (ObjTuple [ObjVector 0; ObjVector 1]) /\
  canonical_form example_config (heap run.2 0) /\
  canonical_form example_config (heap run.2 1).
Proof.
  intros w run.
  assert (run.1 = Ok (ObjTuple [ObjVector 0; ObjVector 1])) as E
    by (vm_compute; reflexivity).
  split; [exact E|].
  refine (proj2 (@mate_returns_canonical_pair float_ops_unused slot_order_Z
                   slot_order_val example_clustering example_config 0 1
                   {| mutation := "UniformInteger"; mut_prob := 1 # 2;
                      crossover := "Uniform"; cx_prob := 1 # 2 |} []
                   w run.2 (ObjTuple [ObjVector 0; ObjVector 1]) _)).
  rewrite <- E. apply surjective_pairing.
Defined.

Lemma mutate_returns_canonical_witness :
  let w := example_world None [1; 1; 2; 2]%Z [2; 0; 1; 1]%Z (fun _ => 0%Q) in
  let run :=
    @mutate float_ops_unused slot_order_Z example_clustering example_config 0
      {| mutation := "UniformInteger"; mut_prob := 1 # 2;
         crossover := "Uniform"; cx_prob := 1 # 2 |} [] w in
  run.1 = Ok (ObjTuple [ObjVector 0]) /\
  canonical_form example_config (heap run.2 0).
Proof.
  intros w run.
  assert (run.1 = Ok (ObjTuple [ObjVector 0])) as E
    by (vm_compute; reflexivity).
  split; [exact E|].
  refine (proj2 (@mutate_returns_canonical float_ops_unused slot_order_Z
                   example_clustering example_config 0
                   {| mutation := "UniformInteger"; mut_prob := 1 # 2;
                      crossover := "Uniform"; cx_prob := 1 # 2 |} []
                   w run.2 (ObjTuple [ObjVector 0]) _ _)).
  - right. reflexivity.
  - rewrite <- E. apply surjective_pairing.
Defined.

(** ** What the operators keep *)

Section Preserves.
Variable R : world -> world -> Prop.
Hypothesis R_reads :
  forall w w',
    heap w' = heap w -> cluster_indexes w' = cluster_indexes w -> R w w'.
Hypothesis R_trans : forall a b c, R a b -> R b c -> R a c.

Lemma preserves_reads {A} (m : M A) :
  (forall w, heap (m w).2 = heap w /\
             cluster_indexes (m w).2 = cluster_indexes w) ->
  preserves R m.
Proof.
  intros Hm w r w' Hrun. specialize (Hm w). rewrite Hrun in Hm.
  destruct Hm as [Hheap Hcache]. by apply R_reads.
Qed.

Lemma preserves_ret {A} (a : A) : preserves R (mret a).
Proof. apply preserves_reads. by intros w. Qed.

Lemma preserves_raise {A} (e : exn) : preserves R (@raise A e).
Proof. apply preserves_reads. by intros w. Qed.

Lemma preserves_lift {A} (r : result A) : preserves R (lift_result r).
Proof. apply preserves_reads. by intros w. Qed.

Lemma preserves_bind {A B} (m : M A) (f : A -> M B) :
  preserves R m -> (forall a, preserves R (f a)) -> preserves R (m ≫= f).
Proof.
  intros Hm Hf w r w' Hrun. rewrite bind_run in Hrun.
  destruct (m w) as [[a|e] w1] eqn:Hmw.
  - eapply R_trans; [by eapply Hm | by eapply Hf].
  - injection Hrun as _ <-. by eapply Hm.
Qed.

Lemma preserves_for_each {A} (xs : list A) (body : A -> M unit) :
  (forall x, x ∈ xs -> preserves R (body x)) -> preserves R (for_each xs body).
Proof.
  induction xs as [|x xs IH]; intros Hbody; simpl.
  - apply preserves_ret.
  - apply preserves_bind; [apply Hbody; by left|].
    intros _. apply IH. intros y Hy. apply Hbody. by right.
Qed.

Lemma preserves_random_random : preserves R random_random.
Proof. apply preserves_reads. by intros w. Qed.

Lemma preserves_randbelow (n : nat) : preserves R (randbelow n).
Proof. apply preserves_reads. by intros w. Qed.

Lemma preserves_random_choice {A} (seq : list A) :
  preserves R (random_choice seq).
Proof.
  destruct seq as [|x seq]; [apply preserves_raise|].
  unfold random_choice. apply preserves_bind; [apply preserves_randbelow|].
  intros k. destruct (_ !! k); [apply preserves_ret | apply preserves_raise].
Qed.

Lemma preserves_random_randint (a b : Z) : preserves R (random_randint a b).
Proof.
  unfold random_randint. destruct (b <? a)%Z; [apply preserves_raise|].
  apply preserves_bind; [apply preserves_randbelow|].
  intros k. apply preserves_ret.
Qed.

Lemma preserves_cv_len (cv : loc) : preserves R (cv_len cv).
Proof. apply preserves_reads. by intros w. Qed.

Lemma preserves_cv_read (cv : loc) : preserves R (cv_read cv).
Proof. apply preserves_reads. by intros w. Qed.

Lemma preserves_cv_getitem (cv : loc) (i : nat) : preserves R (cv_getitem cv i).
Proof. apply preserves_reads. by intros w. Qed.

Lemma preserves_cv_getslice (cv : loc) (sl : pyslice) :
  preserves R (cv_getslice cv sl).
Proof. apply preserves_reads. by intros w. Qed.

Lemma preserves_iter_cluster_indexes : preserves R iter_cluster_indexes.
Proof.
  apply preserves_reads. intros w. unfold iter_cluster_indexes.
  by destruct (cluster_indexes w) eqn:E.
Qed.

Lemma preserves_select_values {A} (values : list A) (p : Q) :
  preserves R (select_values_with_probability values p).
Proof.
  induction values as [|v values IH]; simpl; [apply preserves_ret|].
  apply preserves_bind; [apply preserves_random_random|].
  intros u. apply preserves_bind; [apply IH|].
  intros sel. apply preserves_ret.
Qed.

Lemma preserves_swappable (cv_1 cv_2 : loc)
    (pairs : list (nat * (pyval * pyval))) :
  preserves R (swappable_building_indexes cv_1 cv_2 pairs).
Proof.
  induction pairs as [|[i [p1 p2]] pairs IH]; simpl; [apply preserves_ret|].
  apply preserves_bind; [apply preserves_cv_getitem|]. intros a.
  apply preserves_bind.
  - destruct (py_eqb a p2); [|apply preserves_ret].
    apply preserves_bind; [apply preserves_cv_getitem|].
    intros b. apply preserves_ret.
  - intros keep. apply preserves_bind; [apply IH|].
    intros idx. apply preserves_ret.
Qed.

Lemma preserves_get_most_prevalent `{SetOrder pyval} (cv : loc)
    (clusters : list Z) :
  preserves R (_get_most_prevalent_connectivity_values cv clusters).
Proof.
  unfold _get_most_prevalent_connectivity_values.
  apply preserves_bind; [apply preserves_iter_cluster_indexes|]. intros ci.
  apply preserves_bind; [apply preserves_cv_read|]. intros g.
  apply preserves_lift.
Qed.

Lemma preserves_bind_ok {A B} (m : M A) (f : A -> M B) :
  preserves R m ->
  (forall a w w1, m w = (Ok a, w1) -> preserves R (f a)) ->
  preserves R (m ≫= f).
Proof.
  intros Hm Hf w r w' Hrun. rewrite bind_run in Hrun.
  destruct (m w) as [[a|e] w1] eqn:Hmw.
  - eapply R_trans; [by eapply Hm | by eapply Hf].
  - injection Hrun as _ <-. by eapply Hm.
Qed.

(** The operators, given that the writes they are built from keep the
    relation: [cv[i] = v] where [P cv i] holds, the other writes on the
    vectors in [L]. *)
Section Writes.
Context `{FloatOps} `{SetOrder Z} `{SetOrder pyval} `{ClusteringOps}.
Variable cfg : config.
Variable P : loc -> nat -> Prop.
Hypothesis R_setitem :
  forall cv i v, P cv i -> preserves R (cv_setitem cfg cv i v).

Lemma preserves_swap_at (cv_1 cv_2 : loc) (i : nat) :
  P cv_1 i -> P cv_2 i -> preserves R (swap_at cfg cv_1 cv_2 i).
Proof.
  intros Hi1 Hi2. unfold swap_at.
  apply preserves_bind; [apply preserves_cv_getitem|]. intros a.
  apply preserves_bind; [apply preserves_cv_getitem|]. intros b.
  apply preserves_bind; [by apply R_setitem|]. intros _.
  by apply R_setitem.
Qed.

End Writes.

Section AllWrites.
Context `{FloatOps} `{SetOrder Z} `{SetOrder pyval} `{ClusteringOps}.
Variable cfg : config.
Variable L : loc -> Prop.
Hypothesis R_setitem :
  forall cv i v, L cv -> preserves R (cv_setitem cfg cv i v).
Hypothesis R_setslice :
  forall cv sl v, L cv -> preserves R (cv_setslice cfg cv sl v).
Hypothesis R_reset : forall cv, L cv -> preserves R (cv_reset cfg cv).
Hypothesis R_ensure :
  forall connection_points,
    preserves R (ensure_cluster_indexes connection_points).

Ltac keeps :=
  repeat first
    [ apply preserves_ret
    | apply preserves_raise
    | apply preserves_lift
    | apply preserves_random_random
    | apply preserves_random_choice
    | apply preserves_random_randint
    | apply preserves_cv_len
    | apply preserves_cv_read
    | apply preserves_cv_getitem
    | apply preserves_cv_getslice
    | apply preserves_iter_cluster_indexes
    | apply R_ensure
    | apply preserves_select_values
    | apply preserves_swappable
    | apply preserves_get_most_prevalent
    | apply R_setitem; assumption
    | apply R_setslice; assumption
    | apply R_reset; assumption
    | apply (preserves_swap_at cfg (fun cv _ => L cv));
        [intros; by apply R_setitem | assumption | assumption]
    | apply preserves_bind; [|intros ?]
    | apply preserves_for_each; intros ? _
    | match goal with
      | |- preserves _ (if ?c then _ else _) => destruct c
      | |- preserves _ (let '(_, _) := ?p in _) => destruct p
      end ].

Lemma preserves_obj_getitem (o : pyobj) (i : nat) : preserves R (obj_getitem o i).
Proof.
  destruct o as [v|c|cv|xs|xs]; simpl.
  - destruct v; keeps. destruct (String.get i s); keeps.
  - keeps.
  - keeps.
  - destruct (xs !! i); keeps.
  - destruct (xs !! i); keeps.
Qed.

Lemma preserves_mutShuffleIndexes (cv : loc) (p : Q) :
  L cv -> preserves R (mutShuffleIndexes cfg cv p).
Proof. intros Hcv. unfold mutShuffleIndexes. keeps. Qed.

Lemma preserves_mutUniformInt (cv : loc) (low up : Z) (p : Q) :
  L cv -> preserves R (mutUniformInt cfg cv low up p).
Proof. intros Hcv. unfold mutUniformInt. keeps. Qed.

Lemma preserves_ClusterSwitch (cv : loc) (p : Q) :
  L cv -> preserves R (ClusterSwitch cfg cv p).
Proof. intros Hcv. unfold ClusterSwitch. keeps. Qed.

Lemma preserves_ClusterSwap (cv_1 cv_2 : loc) (p : Q) :
  L cv_1 -> L cv_2 -> preserves R (ClusterSwap cfg cv_1 cv_2 p).
Proof. intros Hcv1 Hcv2. unfold ClusterSwap. keeps. Qed.

Lemma preserves_ClusterAlignment (cv_1 cv_2 : loc) (p : Q) :
  L cv_1 -> L cv_2 -> preserves R (ClusterAlignment cfg cv_1 cv_2 p).
Proof. intros Hcv1 Hcv2. unfold ClusterAlignment. keeps. Qed.

Lemma preserves_swap_slices (a b : loc) (sl : pyslice) :
  L a -> L b -> preserves R (swap_slices cfg a b sl).
Proof. intros Ha Hb. unfold swap_slices. keeps. Qed.

Lemma preserves_cxOnePoint (a b : loc) :
  L a -> L b -> preserves R (cxOnePoint cfg a b).
Proof.
  intros Ha Hb. unfold cxOnePoint. keeps; by apply preserves_swap_slices.
Qed.

Lemma preserves_cxTwoPoint (a b : loc) :
  L a -> L b -> preserves R (cxTwoPoint cfg a b).
Proof.
  intros Ha Hb. unfold cxTwoPoint. keeps; by apply preserves_swap_slices.
Qed.

Lemma preserves_cxUniform (a b : loc) (p : Q) :
  L a -> L b -> preserves R (cxUniform cfg a b p).
Proof. intros Ha Hb. unfold cxUniform. keeps. Qed.

Lemma preserves_mutate (cv : loc) (algorithm : GeneticAlgorithm)
    (connection_points : list connection_point) :
  L cv -> preserves R (mutate cfg cv algorithm connection_points).
Proof.
  intros Hcv. unfold mutate. apply preserves_bind_ok.
  - destruct (String.eqb _ _); [by apply preserves_mutShuffleIndexes|].
    destruct (String.eqb _ _); [by apply preserves_mutUniformInt|].
    destruct (String.eqb _ _); [|keeps].
    apply preserves_bind; [keeps|]. intros _. by apply preserves_ClusterSwitch.
  - intros o w w1 Hop.
    assert (o = ObjTuple [ObjVector cv] \/ o = ObjVector cv) as [-> | ->].
    { repeat match type of Hop with
             | (if ?c then _ else _) _ = _ => destruct c
             end.
      - left. by eapply mutShuffleIndexes_returns_tuple.
      - left. by eapply mutUniformInt_returns_tuple.
      - right. bind_inv Hop. by eapply ClusterSwitch_returns_vector.
      - discriminate. }
    + apply preserves_bind_ok; [apply preserves_obj_getitem|].
      intros first w2 w3 [= <- <-]. simpl. keeps.
    + apply preserves_bind_ok; [apply preserves_obj_getitem|].
      intros first w2 w3 Hget. simpl in Hget. bind_inv Hget.
      injection Hget as <- _. simpl. keeps.
Qed.

Lemma preserves_mate (cv_1 cv_2 : loc) (algorithm : GeneticAlgorithm)
    (connection_points : list connection_point) :
  L cv_1 -> L cv_2 ->
  preserves R (mate cfg cv_1 cv_2 algorithm connection_points).
Proof.
  intros Hcv1 Hcv2. unfold mate. apply preserves_bind_ok.
  - destruct (String.eqb _ _); [by apply preserves_cxOnePoint|].
    destruct (String.eqb _ _); [by apply preserves_cxTwoPoint|].
    destruct (String.eqb _ _); [by apply preserves_cxUniform|].
    destruct (String.eqb _ _).
    { apply preserves_bind; [keeps|]. intros _. by apply preserves_ClusterSwap. }
    destruct (String.eqb _ _); [|keeps].
    apply preserves_bind; [keeps|]. intros _.
    by apply preserves_ClusterAlignment.
  - intros o w w1 Hop.
    assert (o = ObjTuple [ObjVector cv_1; ObjVector cv_2]) as ->.
    { repeat match type of Hop with
             | (if ?c then _ else _) _ = _ => destruct c
             end.
      - by eapply cxOnePoint_returns_pair.
      - by eapply cxTwoPoint_returns_pair.
      - by eapply cxUniform_returns_pair.
      - bind_inv Hop. by eapply ClusterSwap_returns_pair.
      - bind_inv Hop. by eapply ClusterAlignment_returns_pair.
      - discriminate. }
    apply preserves_bind_ok; [apply preserves_obj_getitem|].
    intros first w2 w3 [= <- <-].
    apply preserves_bind; [simpl; keeps|]. intros _.
    apply preserves_bind_ok; [apply preserves_obj_getitem|].
    intros second w4 w5 [= <- <-]. simpl. keeps.
Qed.

End AllWrites.

End Preserves.

(** ** The operators keep the buildings of every genome *)

Lemma ensure_cluster_indexes_heap `{ClusteringOps}
    (connection_points : list connection_point) (w : world) :
  heap (ensure_cluster_indexes connection_points w).2 = heap w.
Proof. unfold ensure_cluster_indexes. by destruct (cluster_indexes w) as [[|]|]. Qed.

Lemma preserves_by_heap {A} (R : world -> world -> Prop) (m : M A) :
  (forall w w', heap w' = heap w -> R w w') ->
  (forall w, heap (m w).2 = heap w) -> preserves R m.
Proof.
  intros HR Hm w r w' Hrun. apply HR. specialize (Hm w). by rewrite Hrun in Hm.
Qed.

Lemma same_buildings_heap (w w' : world) :
  heap w' = heap w -> same_buildings w w'.
Proof. intros E l. by rewrite E. Qed.

Lemma same_buildings_trans (a b c : world) :
  same_buildings a b -> same_buildings b c -> same_buildings a c.
Proof. intros Hab Hbc l. by rewrite Hbc, Hab. Qed.

Lemma same_buildings_store (w : world) (l : loc) (cv : ConnectivityVector) :
  building <$> connections cv = building <$> connections (heap w l) ->
  same_buildings w (store l cv w).
Proof. intros E l'. simpl. by destruct (decide (l' = l)) as [->|]. Qed.

Lemma insert_keeps_buildings (l : list Connection) (n : nat)
    (c c' : Connection) :
  l !! n = Some c -> building c' = building c ->
  building <$> <[n := c']> l = building <$> l.
Proof.
  intros Hn Hb. rewrite list_fmap_insert, Hb. apply list_insert_id.
  by rewrite list_lookup_fmap, Hn.
Qed.

Lemma set_network_connection_building (cfg : config) (c c' : Connection)
    (v : pyval) :
  set_network_connection cfg c v = Ok c' -> building c' = building c.
Proof.
  unfold set_network_connection.
  destruct (network_connection_setter _ _ _); simpl; [|done].
  by intros [= <-].
Qed.

Section KeepBuildings.
Context `{FloatOps} `{SetOrder Z} `{SetOrder pyval} `{ClusteringOps}.
Variable cfg : config.

Lemma setitem_buildings (cv cv' : ConnectivityVector) (i : nat) (v : pyval) :
  setitem cfg cv i v = Ok cv' ->
  building <$> connections cv' = building <$> connections cv.
Proof.
  unfold setitem. destruct (py_round2 v) as [rounded|]; simpl; [|done].
  destruct (connections cv !! i) as [c|] eqn:Hi; [|done].
  destruct (set_network_connection cfg c rounded) as [c'|] eqn:Hset; simpl;
    [|done].
  intros [= <-]. simpl. eapply insert_keeps_buildings; [done|].
  by eapply set_network_connection_building.
Qed.

Lemma setitem_slice_step_buildings (cv cv' : ConnectivityVector)
    (ind_start : Z) (value : list pyval) (index : Z) :
  setitem_slice_step cfg cv ind_start value index = Ok cv' ->
  building <$> connections cv' = building <$> connections cv.
Proof.
  unfold setitem_slice_step.
  destruct (py_list_get value _); simpl; [|done].
  destruct (py_round2 _) as [rounded|]; simpl; [|done].
  destruct (py_position _ index) as [n|]; [|done].
  destruct (connections cv !! n) as [c|] eqn:Hn; [|done].
  destruct (set_network_connection cfg c rounded) as [c'|] eqn:Hset; simpl;
    [|done].
  intros [= <-]. simpl. eapply insert_keeps_buildings; [done|].
  by eapply set_network_connection_building.
Qed.

Lemma setitem_slice_loop_buildings (ind_start : Z) (value : list pyval)
    (indexes : list Z) :
  forall cv,
    building <$> connections
      (setitem_slice_loop cfg cv ind_start value indexes).2
    = building <$> connections cv.
Proof.
  induction indexes as [|index rest IH]; intros cv; simpl; [done|].
  destruct (setitem_slice_step cfg cv ind_start value index) as [cv'|]
    eqn:Hstep; [|done].
  rewrite IH. by eapply setitem_slice_step_buildings.
Qed.

Lemma cv_setitem_buildings (cv : loc) (i : nat) (v : pyval) :
  preserves same_buildings (cv_setitem cfg cv i v).
Proof.
  intros w r w'. unfold cv_setitem.
  destruct (setitem cfg (heap w cv) i v) as [cv'|] eqn:Hset.
  - intros [= <- <-]. apply same_buildings_store.
    by eapply setitem_buildings.
  - intros [= <- <-]. by apply same_buildings_heap.
Qed.

Lemma cv_setslice_buildings (cv : loc) (sl : pyslice) (v : list pyval) :
  preserves same_buildings (cv_setslice cfg cv sl v).
Proof.
  intros w r w'. unfold cv_setslice.
  destruct (setitem_slice cfg (heap w cv) sl v) as [r1 cv'] eqn:Hset.
  intros [= <- <-]. apply same_buildings_store.
  unfold setitem_slice in Hset.
  pose proof (setitem_slice_loop_buildings
                (bound_or (slice_start sl) 0) v
                (py_range3 (bound_or (slice_start sl) 0)
                   (bound_or (slice_stop sl)
                      (Z.of_nat (length (connections (heap w cv)))))
                   (bound_or (slice_step sl) 1))
                (heap w cv)) as Hb.
  by rewrite Hset in Hb.
Qed.

Lemma cv_reset_buildings (cv : loc) :
  preserves same_buildings (cv_reset cfg cv).
Proof.
  intros w r w'. unfold cv_reset. rewrite reset_collapse.
  intros [= <- <-]. apply same_buildings_store. simpl.
  rewrite <- list_fmap_compose. apply list_fmap_ext.
  intros i c _. simpl. apply collapse_building.
Qed.

Lemma same_fitness_heap (w w' : world) :
  heap w' = heap w -> same_fitness w w'.
Proof. intros E l. by rewrite E. Qed.

Lemma same_fitness_trans (a b c : world) :
  same_fitness a b -> same_fitness b c -> same_fitness a c.
Proof. intros Hab Hbc l. by rewrite Hbc, Hab. Qed.

Lemma same_fitness_store (w : world) (l : loc) (cv : ConnectivityVector) :
  fitness cv = fitness (heap w l) -> same_fitness w (store l cv w).
Proof. intros E l'. simpl. by destruct (decide (l' = l)) as [->|]. Qed.

Lemma setitem_slice_loop_fitness (ind_start : Z) (value : list pyval)
    (indexes : list Z) :
  forall cv,
    fitness (setitem_slice_loop cfg cv ind_start value indexes).2
    = fitness cv.
Proof.
  induction indexes as [|index rest IH]; intros cv; simpl; [done|].
  destruct (setitem_slice_step cfg cv ind_start value index) as [cv'|]
    eqn:Hstep; [|done].
  rewrite IH. unfold setitem_slice_step in Hstep.
  destruct (py_list_get value _); simpl in Hstep; [|done].
  destruct (py_round2 _) as [rounded|]; simpl in Hstep; [|done].
  destruct (py_position _ index) as [n|]; [|done].
  destruct (connections cv !! n) as [c|]; [|done].
  destruct (set_network_connection cfg c rounded); simpl in Hstep; [|done].
  by injection Hstep as <-.
Qed.

Lemma cv_setitem_fitness (cv : loc) (i : nat) (v : pyval) :
  preserves same_fitness (cv_setitem cfg cv i v).
Proof.
  intros w r w'. unfold cv_setitem.
  destruct (setitem cfg (heap w cv) i v) as [cv'|] eqn:Hset.
  - intros [= <- <-]. apply same_fitness_store.
    unfold setitem in Hset.
    destruct (py_round2 v) as [rounded|]; simpl in Hset; [|done].
    destruct (connections (heap w cv) !! i) as [c|]; [|done].
    destruct (set_network_connection cfg c rounded); simpl in Hset; [|done].
    by injection Hset as <-.
  - intros [= <- <-]. by apply same_fitness_heap.
Qed.

Lemma cv_setslice_fitness (cv : loc) (sl : pyslice) (v : list pyval) :
  preserves same_fitness (cv_setslice cfg cv sl v).
Proof.
  intros w r w'. unfold cv_setslice.
  destruct (setitem_slice cfg (heap w cv) sl v) as [r1 cv'] eqn:Hset.
  intros [= <- <-]. apply same_fitness_store.
  unfold setitem_slice in Hset.
  pose proof (setitem_slice_loop_fitness
                (bound_or (slice_start sl) 0) v
                (py_range3 (bound_or (slice_start sl) 0)
                   (bound_or (slice_stop sl)
                      (Z.of_nat (length (connections (heap w cv)))))
                   (bound_or (slice_step sl) 1))
                (heap w cv)) as Hb.
  by rewrite Hset in Hb.
Qed.

Lemma cv_reset_fitness (cv : loc) :
  preserves same_fitness (cv_reset cfg cv).
Proof.
  intros w r w'. unfold cv_reset. rewrite reset_collapse.
  intros [= <- <-]. by apply same_fitness_store.
Qed.

(** X11 -- the operators change connectivity values only.  Whatever
    [mutate] and [mate] do -- return or raise, with any selector, cluster
    cache and random source -- every genome keeps its length, the building
    of each of its positions and the fitness object it carries. *)
Theorem operators_keep_buildings (cv_1 cv_2 : loc)
    (algorithm : GeneticAlgorithm) (connection_points : list connection_point)
    (w : world) :
  (same_buildings w (mutate cfg cv_1 algorithm connection_points w).2 /\
   same_fitness w (mutate cfg cv_1 algorithm connection_points w).2) /\
  (same_buildings w (mate cfg cv_1 cv_2 algorithm connection_points w).2 /\
   same_fitness w (mate cfg cv_1 cv_2 algorithm connection_points w).2) /\
  forall l w',
    same_buildings w w' ->
    length (connections (heap w' l)) = length (connections (heap w l)).
Proof.
  split; [|split].
  - destruct (mutate cfg cv_1 algorithm connection_points w) as [r w'] eqn:E.
    split; revert E; apply preserves_mutate with (L := fun _ => True);
      first [ done
            | by intros w0 w1 E0 _; apply same_buildings_heap
            | by intros w0 w1 E0 _; apply same_fitness_heap
            | by intros cps; eapply preserves_by_heap;
                [exact same_buildings_heap | apply ensure_cluster_indexes_heap]
            | by intros cps; eapply preserves_by_heap;
                [exact same_fitness_heap | apply ensure_cluster_indexes_heap]
            | by intros; apply cv_setitem_buildings
            | by intros; apply cv_setslice_buildings
            | by intros; apply cv_reset_buildings
            | by intros; apply cv_setitem_fitness
            | by intros; apply cv_setslice_fitness
            | by intros; apply cv_reset_fitness
            | exact same_buildings_heap | exact same_buildings_trans
            | exact cv_setitem_buildings | exact cv_setslice_buildings
            | exact cv_reset_buildings
            | exact same_fitness_heap | exact same_fitness_trans
            | exact cv_setitem_fitness | exact cv_setslice_fitness
            | exact cv_reset_fitness ].
  - destruct (mate cfg cv_1 cv_2 algorithm connection_points w) as [r w'] eqn:E.
    split; revert E; apply preserves_mate with (L := fun _ => True);
      first [ done
            | by intros w0 w1 E0 _; apply same_buildings_heap
            | by intros w0 w1 E0 _; apply same_fitness_heap
            | by intros cps; eapply preserves_by_heap;
                [exact same_buildings_heap | apply ensure_cluster_indexes_heap]
            | by intros cps; eapply preserves_by_heap;
                [exact same_fitness_heap | apply ensure_cluster_indexes_heap]
            | by intros; apply cv_setitem_buildings
            | by intros; apply cv_setslice_buildings
            | by intros; apply cv_reset_buildings
            | by intros; apply cv_setitem_fitness
            | by intros; apply cv_setslice_fitness
            | by intros; apply cv_reset_fitness
            | exact same_buildings_heap | exact same_buildings_trans
            | exact cv_setitem_buildings | exact cv_setslice_buildings
            | exact cv_reset_buildings
            | exact same_fitness_heap | exact same_fitness_trans
            | exact cv_setitem_fitness | exact cv_setslice_fitness
            | exact cv_reset_fitness ].
  - intros l w' Hsame. specialize (Hsame l).
    apply (f_equal length) in Hsame. by rewrite !length_fmap in Hsame.
Qed.

End KeepBuildings.

(** ** The operators touch no other genome *)

Section Frame.
Context `{FloatOps} `{SetOrder Z} `{SetOrder pyval} `{ClusteringOps}.
Variable cfg : config.
Variable L : loc -> Prop.

Lemma untouched_heap (w w' : world) : heap w' = heap w -> untouched L w w'.
Proof. intros E l _. by rewrite E. Qed.

Lemma untouched_trans (a b c : world) :
  untouched L a b -> untouched L b c -> untouched L a c.
Proof. intros Hab Hbc l Hl. by rewrite Hbc, Hab. Qed.

Lemma untouched_store (w : world) (l : loc) (cv : ConnectivityVector) :
  L l -> untouched L w (store l cv w).
Proof.
  intros Hl l' Hl'. simpl. destruct (decide (l' = l)) as [->|]; done.
Qed.

Lemma cv_setitem_untouched (cv : loc) (i : nat) (v : pyval) :
  L cv -> preserves (untouched L) (cv_setitem cfg cv i v).
Proof.
  intros Hcv w r w'. unfold cv_setitem.
  destruct (setitem cfg (heap w cv) i v).
  - intros [= <- <-]. by apply untouched_store.
  - intros [= <- <-]. by apply untouched_heap.
Qed.

Lemma cv_setslice_untouched (cv : loc) (sl : pyslice) (v : list pyval) :
  L cv -> preserves (untouched L) (cv_setslice cfg cv sl v).
Proof.
  intros Hcv w r w'. unfold cv_setslice.
  destruct (setitem_slice cfg (heap w cv) sl v).
  intros [= <- <-]. by apply untouched_store.
Qed.

Lemma cv_reset_untouched (cv : loc) :
  L cv -> preserves (untouched L) (cv_reset cfg cv).
Proof.
  intros Hcv w r w'. unfold cv_reset.
  destruct (reset cfg (heap w cv)).
  - intros [= <- <-]. by apply untouched_store.
  - intros [= <- <-]. by apply untouched_heap.
Qed.

End Frame.

(** X12 -- the operators touch no other genome.  Whatever [mutate] and
    [mate] do, whether they return or raise, every genome other than the
    one or two they are handed is after the call what it was before. *)
Theorem operators_frame `{FloatOps} `{SetOrder Z} `{SetOrder pyval}
    `{ClusteringOps} (cfg : config) (cv_1 cv_2 : loc)
    (algorithm : GeneticAlgorithm) (connection_points : list connection_point)
    (w : world) :
  untouched (fun l => l = cv_1) w
    (mutate cfg cv_1 algorithm connection_points w).2 /\
  untouched (fun l => l = cv_1 \/ l = cv_2) w
    (mate cfg cv_1 cv_2 algorithm connection_points w).2.
Proof.
  split.
  - destruct (mutate cfg cv_1 algorithm connection_points w) as [r w'] eqn:E.
    revert E. apply preserves_mutate with (L := fun l => l = cv_1);
      first [ done
            | by intros w0 w1 E0 _; apply untouched_heap
            | by intros cps; eapply preserves_by_heap;
                [apply untouched_heap | apply ensure_cluster_indexes_heap]
            | exact (untouched_trans _)
            | exact (cv_setitem_untouched cfg _)
            | exact (cv_setslice_untouched cfg _)
            | exact (cv_reset_untouched cfg _) ].
  - destruct (mate cfg cv_1 cv_2 algorithm connection_points w) as [r w'] eqn:E.
    revert E. apply preserves_mate with (L := fun l => l = cv_1 \/ l = cv_2);
      first [ by left | by right
            | by intros w0 w1 E0 _; apply untouched_heap
            | by intros cps; eapply preserves_by_heap;
                [apply untouched_heap | apply ensure_cluster_indexes_heap]
            | exact (untouched_trans _)
            | exact (cv_setitem_untouched cfg _)
            | exact (cv_setslice_untouched cfg _)
            | exact (cv_reset_untouched cfg _) ].
Qed.

(** ** The cluster cache *)

Section Cache.
Context `{FloatOps} `{SetOrder Z} `{SetOrder pyval} `{ClusteringOps}.
Variable cfg : config.
Variable ci : list Z.
Hypothesis ci_filled : ci <> [].

Lemma cache_kept_reads (w w' : world) :
  heap w' = heap w -> cluster_indexes w' = cluster_indexes w ->
  cache_kept ci w w'.
Proof. intros _ E Hw. by rewrite E. Qed.

Lemma cache_kept_trans (a b c : world) :
  cache_kept ci a b -> cache_kept ci b c -> cache_kept ci a c.
Proof. unfold cache_kept. auto. Qed.

Lemma cv_setitem_cache (cv : loc) (i : nat) (v : pyval) :
  preserves (cache_kept ci) (cv_setitem cfg cv i v).
Proof.
  intros w r w'. unfold cv_setitem, cache_kept.
  by destruct (setitem cfg (heap w cv) i v); intros [= <- <-].
Qed.

Lemma cv_setslice_cache (cv : loc) (sl : pyslice) (v : list pyval) :
  preserves (cache_kept ci) (cv_setslice cfg cv sl v).
Proof.
  intros w r w'. unfold cv_setslice, cache_kept.
  by destruct (setitem_slice cfg (heap w cv) sl v); intros [= <- <-].
Qed.

Lemma cv_reset_cache (cv : loc) :
  preserves (cache_kept ci) (cv_reset cfg cv).
Proof.
  intros w r w'. unfold cv_reset, cache_kept.
  by destruct (reset cfg (heap w cv)); intros [= <- <-].
Qed.

Lemma ensure_cluster_indexes_cache
    (connection_points : list connection_point) :
  preserves (cache_kept ci) (ensure_cluster_indexes connection_points).
Proof.
  intros w r w' Hrun Hw. unfold ensure_cluster_indexes in Hrun.
  rewrite Hw in Hrun. destruct ci; [done|]. by injection Hrun as _ <-.
Qed.

(** X13 -- the cluster cache is filled once.  Once the class attribute
    [_cluster_indexes] holds a non-empty list, [mutate] and [mate] leave it
    as it is, whichever selector and whichever connection points they are
    handed and whether they return or raise: the clustering is never
    computed again. *)
Theorem cluster_cache_sticky (cv_1 cv_2 : loc) (algorithm : GeneticAlgorithm)
    (connection_points : list connection_point) (w : world) :
  cluster_indexes w = Some ci ->
  cluster_indexes (mutate cfg cv_1 algorithm connection_points w).2 = Some ci /\
  cluster_indexes (mate cfg cv_1 cv_2 algorithm connection_points w).2
  = Some ci.
Proof.
  intros Hw. split.
  - destruct (mutate cfg cv_1 algorithm connection_points w) as [r w'] eqn:E.
    simpl. cut (cache_kept ci w w'); [by intros Hk; apply Hk|].
    revert E. apply preserves_mutate with (L := fun _ => True);
      first [ done | exact cache_kept_reads | exact cache_kept_trans
            | by intros; apply cv_setitem_cache
            | by intros; apply cv_setslice_cache
            | by intros; apply cv_reset_cache
            | exact ensure_cluster_indexes_cache ].
  - destruct (mate cfg cv_1 cv_2 algorithm connection_points w) as [r w'] eqn:E.
    simpl. cut (cache_kept ci w w'); [by intros Hk; apply Hk|].
    revert E. apply preserves_mate with (L := fun _ => True);
      first [ done | exact cache_kept_reads | exact cache_kept_trans
            | by intros; apply cv_setitem_cache
            | by intros; apply cv_setslice_cache
            | by intros; apply cv_reset_cache
            | exact ensure_cluster_indexes_cache ].
Qed.

End Cache.

Lemma cluster_cache_sticky_witness :
  let w :=
    example_world (Some [0; 0; 1; 1]%Z) [1; 1; 2; 2]%Z [2; 0; 1; 1]%Z
      (fun _ => 0%Q) in
  let algorithm :=
    {| mutation := "ClusterSwitch"; mut_prob := 1 # 2;
       crossover := "ClusterSwap"; cx_prob := 1 # 2 |} in
  cluster_indexes
    (@mutate float_ops_unused slot_order_Z example_clustering example_config
       0 algorithm [(0, 0); (5, 5)]%Z w).2 = Some [0; 0; 1; 1]%Z /\
  cluster_indexes
    (@mate float_ops_unused slot_order_Z slot_order_val example_clustering
       example_config 0 1 algorithm [(0, 0); (5, 5)]%Z w).2
  = Some [0; 0; 1; 1]%Z.
Proof.
  intros w algorithm.
  apply (@cluster_cache_sticky float_ops_unused slot_order_Z slot_order_val
           example_clustering example_config [0; 0; 1; 1]%Z);
    [discriminate | reflexivity].
Defined.

(** ** [ClusterAlignment] and the outliers *)

Section Outliers.
Context `{FloatOps} `{SetOrder Z} `{SetOrder pyval} `{ClusteringOps}.
Variable cfg : config.
Variable i : nat.

Lemma same_at_heap (w w' : world) : heap w' = heap w -> same_at i w w'.
Proof. intros E l. by rewrite E. Qed.

Lemma same_at_trans (a b c : world) :
  same_at i a b -> same_at i b c -> same_at i a c.
Proof. intros Hab Hbc l. by rewrite Hbc, Hab. Qed.

Lemma cv_setitem_same_at (cv : loc) (j : nat) (v : pyval) :
  j <> i -> preserves (same_at i) (cv_setitem cfg cv j v).
Proof.
  intros Hne w r w'. unfold cv_setitem.
  destruct (setitem cfg (heap w cv) j v) as [cv'|] eqn:Hset.
  - intros [= <- <-] l. simpl.
    destruct (decide (l = cv)) as [->|]; [|done].
    unfold setitem in Hset.
    destruct (py_round2 v) as [rounded|]; simpl in Hset; [|done].
    destruct (connections (heap w cv) !! j) as [c|]; [|done].
    destruct (set_network_connection cfg c rounded) as [c'|];
      simpl in Hset; [|done].
    injection Hset as <-. simpl. by apply list_lookup_insert_ne.
  - intros [= <- <-]. by apply same_at_heap.
Qed.

(** Swapping a [None] raises before anything is stored. *)
Lemma swap_at_none (cv_1 cv_2 : loc) (j : nat) (w : world) :
  getitem (heap w cv_2) j = Ok PyNone ->
  exists e, swap_at cfg cv_1 cv_2 j w = (Raise e, w).
Proof.
  intros Hnone. unfold swap_at. rewrite bind_run.
  unfold cv_getitem at 1. rewrite Hnone. rewrite bind_run.
  unfold cv_getitem at 1.
  destruct (getitem (heap w cv_1) j) as [b|e]; [|by eexists].
  rewrite bind_run. unfold cv_setitem at 1. unfold setitem. by eexists.
Qed.

Lemma swaps_same_at (cv_1 cv_2 : loc) (selected : list nat) :
  forall w r w',
    (i ∈ selected -> getitem (heap w cv_2) i = Ok PyNone) ->
    for_each selected (swap_at cfg cv_1 cv_2) w = (r, w') ->
    same_at i w w'.
Proof.
  induction selected as [|j rest IH]; intros w r w' Hnone; simpl.
  - intros [= <- <-]. by apply same_at_heap.
  - rewrite bind_run. destruct (decide (j = i)) as [->|Hne].
    + destruct (swap_at_none cv_1 cv_2 i w) as [e ->]; [apply Hnone; by left|].
      intros [= <- <-]. by apply same_at_heap.
    + destruct (swap_at cfg cv_1 cv_2 j w) as [r1 w1] eqn:Hswap.
      assert (same_at i w w1) as Hstep.
      { eapply (preserves_swap_at (same_at i)
                  (fun w0 w1 E0 _ => same_at_heap w0 w1 E0) same_at_trans
                  cfg (fun _ k => k <> i));
          [|exact Hne|exact Hne|exact Hswap].
        intros cv k v Hk. by apply cv_setitem_same_at. }
      destruct r1 as [[]|e].
      * intros Hrest. eapply same_at_trans; [exact Hstep|].
        eapply IH; [|exact Hrest].
        intros Hin. unfold getitem. rewrite (Hstep cv_2).
        apply Hnone. by right.
      * by intros [= <- <-].
Qed.

Lemma swappable_run (cv_1 cv_2 : loc) (pairs : list (nat * (pyval * pyval))) :
  forall w r w',
    swappable_building_indexes cv_1 cv_2 pairs w = (r, w') ->
    w' = w /\
    forall indexes j, r = Ok indexes -> j ∈ indexes ->
      exists p1 p2 b,
        (j, (p1, p2)) ∈ pairs /\
        getitem (heap w cv_2) j = Ok b /\ py_eqb b p1 = true.
Proof.
  induction pairs as [|[k [p1 p2]] pairs IH]; intros w r w'; simpl.
  - intros [= <- <-]. split; [done|]. intros idx j [= <-] Hj.
    by apply elem_of_nil in Hj.
  - rewrite bind_run. unfold cv_getitem at 1.
    destruct (getitem (heap w cv_1) k) as [a|e]; [|by intros [= <- <-]].
    rewrite bind_run.
    destruct (py_eqb a p2).
    + rewrite bind_run. unfold cv_getitem at 1.
      destruct (getitem (heap w cv_2) k) as [b|e] eqn:Hb;
        [|by intros [= <- <-]].
      simpl. rewrite bind_run.
      destruct (swappable_building_indexes cv_1 cv_2 pairs w) as [r1 w1]
        eqn:Hrest.
      destruct (IH _ _ _ Hrest) as [-> Hspec].
      destruct r1 as [idx|e]; [|by intros [= <- <-]].
      simpl. intros [= <- <-]. split; [done|].
      intros indexes j [= <-] Hj.
      destruct (py_eqb b p1) eqn:Hbp.
      * apply elem_of_cons in Hj as [->|Hj].
        -- exists p1, p2, b. split; [by left | done].
        -- destruct (Hspec idx j eq_refl Hj) as (q1 & q2 & b' & Hin & ?).
           exists q1, q2, b'. split; [by right | done].
      * destruct (Hspec idx j eq_refl Hj) as (q1 & q2 & b' & Hin & ?).
        exists q1, q2, b'. split; [by right | done].
    + simpl. rewrite bind_run.
      destruct (swappable_building_indexes cv_1 cv_2 pairs w) as [r1 w1]
        eqn:Hrest.
      destruct (IH _ _ _ Hrest) as [-> Hspec].
      destruct r1 as [idx|e]; [|by intros [= <- <-]].
      simpl. intros [= <- <-]. split; [done|].
      intros indexes j [= <-] Hj.
      destruct (Hspec idx j eq_refl Hj) as (q1 & q2 & b' & Hin & ?).
      exists q1, q2, b'. split; [by right | done].
Qed.

Lemma prevalent_of_outlier (cv : ConnectivityVector) (ci clusters : list Z)
    (mp : list pyval) (m : pyval) :
  most_prevalent_connectivity_values cv ci clusters = Ok mp ->
  (forall c, ci !! i = Some c -> (c < 0)%Z) ->
  mp !! i = Some m -> m = PyNone.
Proof.
  unfold most_prevalent_connectivity_values. intros Hrun Hout Hm.
  destruct (ci !! i) as [c|] eqn:Hi.
  - destruct (most_prevalent_loop_spec _ _ _ _ _ Hrun i c Hi) as [_ Hkeep].
    rewrite Hkeep in Hm by (specialize (Hout c eq_refl); lia).
    by apply lookup_replicate in Hm as [-> _].
  - assert (mp !! i = replicate (length (connections cv)) PyNone !! i) as E.
    { clear Hm. revert Hrun.
      generalize (replicate (length (connections cv)) PyNone).
      induction clusters as [|c0 rest IH]; intros mp0; simpl.
      - by intros [= <-].
      - destruct (c0 <? 0)%Z; [apply IH|].
        destruct (mapM (getitem cv) (positions_of c0 ci)); [|done]. simpl.
        destruct (most_prevalent_connectivity_value _); [|done]. simpl.
        destruct (assign_prevalent _ _ mp0) as [mp1|] eqn:Hassign; [|done].
        simpl. intros Hrun%IH. rewrite Hrun.
        rewrite (assign_prevalent_spec _ _ _ _ Hassign i).
        rewrite decide_False; [done|].
        intros Hpos%elem_of_positions_of. congruence. }
    rewrite E in Hm. by apply lookup_replicate in Hm as [-> _].
Qed.

(** X14 -- [ClusterAlignment] leaves the outliers alone.  A position that
    belongs to no cluster -- its cluster index is negative, or it lies
    beyond the list of cluster indexes -- holds in every genome after
    [ClusterAlignment] what it held before, whether the operator returns
    or raises. *)
Theorem ClusterAlignment_keeps_outliers (cv_1 cv_2 : loc) (cx_prob : Q)
    (w : world) :
  (forall ci c, cluster_indexes w = Some ci -> ci !! i = Some c -> (c < 0)%Z) ->
  same_at i w (ClusterAlignment cfg cv_1 cv_2 cx_prob w).2.
Proof.
  intros Hout. unfold ClusterAlignment. rewrite bind_run.
  unfold iter_cluster_indexes at 1.
  destruct (cluster_indexes w) as [ci|] eqn:Hci; [|by apply same_at_heap].
  specialize (Hout ci).
  assert (forall c, ci !! i = Some c -> (c < 0)%Z) as Hout' by eauto.
  rewrite bind_run. unfold _get_most_prevalent_connectivity_values at 1.
  rewrite bind_run. unfold iter_cluster_indexes at 1. rewrite Hci.
  rewrite bind_run. unfold cv_read at 1, lift_result at 1.
  destruct (most_prevalent_connectivity_values (heap w cv_1) ci (set_iter ci))
    as [prevailing_1|e] eqn:Hp1; [|by apply same_at_heap].
  rewrite bind_run. unfold _get_most_prevalent_connectivity_values at 1.
  rewrite bind_run. unfold iter_cluster_indexes at 1. rewrite Hci.
  rewrite bind_run. unfold cv_read at 1, lift_result at 1.
  destruct (most_prevalent_connectivity_values (heap w cv_2) ci (set_iter ci))
    as [prevailing_2|e] eqn:Hp2; [|by apply same_at_heap].
  rewrite bind_run.
  destruct (swappable_building_indexes cv_1 cv_2
              (imap pair (zip prevailing_1 prevailing_2)) w)
    as [r1 w1] eqn:Hsw.
  destruct (swappable_run _ _ _ _ _ _ Hsw) as [-> Hspec].
  destruct r1 as [swappable|e]; [|by apply same_at_heap].
  rewrite bind_run.
  destruct (select_values_run swappable cx_prob w)
    as (sel & w2 & -> & Hsub & _ & Hheap & _).
  rewrite bind_run.
  destruct (for_each sel (swap_at cfg cv_1 cv_2) w2) as [r3 w3] eqn:Hloop.
  assert (same_at i w w3) as Hsame.
  { eapply same_at_trans; [by apply same_at_heap|].
    eapply swaps_same_at; [|exact Hloop].
    intros Hin. rewrite Hheap.
    destruct (Hspec swappable i eq_refl) as (p1 & p2 & b & Hpair & Hb & Heq).
    { by eapply elem_of_sublist. }
    apply elem_of_lookup_imap in Hpair as (n & pq & [= <- <-] & Hn).
    apply lookup_zip_with_Some in Hn as (q1 & q2 & [= <- <-] & Hq1 & Hq2).
    assert (p1 = PyNone) as ->
      by (eapply prevalent_of_outlier; [exact Hp1 | exact Hout' | exact Hq1]).
    rewrite Hb. f_equal.
    destruct (py_eqb_cases _ _ Heq) as [(x & _ & Hx)|[_ ->]];
      [discriminate | done]. }
  by destruct r3.
Qed.

End Outliers.

Lemma ClusterAlignment_keeps_outliers_witness :
  let w :=
    example_world (Some [-1; 0; 0]%Z) [1; 2; 1]%Z [2; 1; 1]%Z
      (fun _ => 0%Q) in
  same_at 0 w
    (@ClusterAlignment float_ops_unused slot_order_Z slot_order_val
       example_config 0 1 (1 # 2) w).2.
Proof.
  intros w. apply ClusterAlignment_keeps_outliers.
  intros ci c [= <-] [= <-]. lia.
Defined.

(** ** Generating a genome *)

Lemma collapse_legal (cfg : config) (once : list Z) (c : Connection) :
  legal_id cfg (network_connection c) ->
  legal_id cfg (network_connection (collapse once c)).
Proof.
  intros Hc. unfold collapse.
  destruct (py_in_ints (network_connection c) once); [|done].
  simpl. destruct Hc as [_ (z & _ & Hr)]. apply legal_id_int. lia.
Qed.

Lemma Connection_init_legal (cfg : config) (z : Z) (code : string) :
  (0 <= z <= maximum_number_of_networks cfg)%Z ->
  code ∈ possible_building_codes cfg ->
  Connection_init cfg (PyInt z) (PyStr code)
  = Ok {| building := PyStr code;
          network_connection :=
            if in_zero_demand cfg (PyStr code) then PyInt 0 else PyInt z |}.
Proof.
  intros Hz Hcode. unfold Connection_init, building_setter.
  cbn [isinstance_str py_in_strs negb].
  rewrite andb_false_r, (bool_decide_eq_true_2 _ Hcode), andb_false_r. simpl.
  destruct (z =? 0)%Z eqn:E; simpl.
  - apply Z.eqb_eq in E as ->. rewrite setter_falsy by done. simpl.
    by destruct (bool_decide _).
  - rewrite setter_legal; [done|]. split; [done|]. by exists z.
Qed.

Lemma random_randint_run (a b : Z) (w : world) :
  (a <= b)%Z ->
  exists z, random_randint a b w = (Ok z, drawn w) /\ (a <= z <= b)%Z.
Proof.
  intros Hab. unfold random_randint.
  assert ((b <? a)%Z = false) as -> by lia.
  rewrite bind_run. unfold randbelow.
  eexists. split; [done|].
  pose proof (Nat.mod_upper_bound (integers w (draws w))
                (Z.to_nat (b - a + 1))).
  lia.
Qed.

Section Generate.
Variable cfg : config.

Lemma generate_random_run (buildings : list string) :
  (0 <= maximum_number_of_networks cfg)%Z ->
  Forall (fun code => code ∈ possible_building_codes cfg) buildings ->
  forall w, exists l w',
    mapM (fun building =>
            v ← random_randint 0 (maximum_number_of_networks cfg + 1 - 1);
            lift_result (Connection_init cfg (PyInt v) (PyStr building)))
         buildings w = (Ok l, w') /\
    building <$> l = PyStr <$> buildings /\
    Forall (generated cfg) l /\
    heap w' = heap w /\
    cluster_indexes w' = cluster_indexes w /\
    draws w' = draws w + length buildings.
Proof.
  intros Hmax. induction 1 as [|code rest Hcode _ IH]; intros w.
  - exists [], w. simpl. repeat split; [done | lia].
  - cbn [mapM]. rewrite bind_run, bind_run.
    destruct (random_randint_run 0 (maximum_number_of_networks cfg + 1 - 1) w)
      as (z & -> & Hz); [lia|].
    unfold lift_result at 1.
    rewrite (Connection_init_legal cfg z code) by (done || lia).
    rewrite bind_run.
    destruct (IH (drawn w)) as (l & w' & -> & Hb & Hall & Hheap & Hci & Hd).
    eexists _, w'. split; [done|]. simpl in *.
    split; [by f_equal|]. split; [|split; [done|split; [done|lia]]].
    constructor; [|done]. simpl.
    destruct (bool_decide (code ∈ zero_demand_buildings cfg)) eqn:Hzero.
    + exists 0%Z. split; [done|]. split; [lia | done].
    + exists z. split; [done|]. split; [lia|]. simpl. congruence.
Qed.

Lemma generate_zero_run (buildings : list string) :
  (0 <= maximum_number_of_networks cfg)%Z ->
  Forall (fun code => code ∈ possible_building_codes cfg) buildings ->
  forall w,
    mapM (fun building =>
            lift_result (Connection_init cfg (PyInt 0) (PyStr building)))
         buildings w
    = (Ok ((fun code => {| building := PyStr code;
                           network_connection := PyInt 0 |}) <$> buildings),
       w).
Proof.
  intros Hmax. induction 1 as [|code rest Hcode _ IH]; intros w; [done|].
  cbn [mapM]. rewrite bind_run. unfold lift_result at 1.
  assert (0 <= 0 <= maximum_number_of_networks cfg)%Z as Hz by lia.
  rewrite (Connection_init_legal cfg 0 code Hz Hcode).
  rewrite bind_run, IH. simpl. by destruct (bool_decide _).
Qed.

(** X15 -- [generate] gives a legal list.  With at least the id [0]
    possible, [generate] never raises: it returns one connection per
    building code, in order, each holding an integer between [0] and
    [maximum_number_of_networks] and [0] for a building without demand.
    The random method draws once per building and nothing else of the
    state changes; any other method draws nothing and gives [0]
    everywhere. *)
Theorem generate_legal (method : string) (w : world) :
  (0 <= maximum_number_of_networks cfg)%Z ->
  exists l w',
    generate cfg method w = (Ok l, w') /\
    building <$> l = PyStr <$> possible_building_codes cfg /\
    Forall (generated cfg) l /\
    heap w' = heap w /\
    cluster_indexes w' = cluster_indexes w /\
    (method = "random" ->
       draws w' = draws w + length (possible_building_codes cfg)) /\
    (method <> "random" ->
       w' = w /\ Forall (fun c => network_connection c = PyInt 0) l).
Proof.
  intros Hmax. unfold generate.
  assert (Forall (fun code => code ∈ possible_building_codes cfg)
            (possible_building_codes cfg)) as Hcodes
    by by apply Forall_forall.
  destruct (String.eqb method "random") eqn:E.
  - apply String.eqb_eq in E.
    destruct (generate_random_run _ Hmax Hcodes w)
      as (l & w' & Hrun & Hb & Hall & Hheap & Hci & Hd).
    exists l, w'. by repeat split.
  - apply String.eqb_neq in E. rewrite (generate_zero_run _ Hmax Hcodes w).
    eexists _, w. split; [done|].
    split; [by rewrite <- list_fmap_compose|].
    split.
    { apply Forall_fmap, Forall_forall. intros code _. exists 0%Z. simpl.
      split; [done|]. split; [lia | done]. }
    repeat split; try done.
    apply Forall_fmap, Forall_forall. by intros code _.
Qed.

(** X16 -- [generate] with no id to draw from.  With a negative
    [maximum_number_of_networks] and at least one building, the random
    method raises [ValueError] at the first draw and changes nothing. *)
Theorem generate_empty_range (w : world) :
  (maximum_number_of_networks cfg < 0)%Z ->
  possible_building_codes cfg <> [] ->
  generate cfg "random" w = (Raise ValueError, w).
Proof.
  intros Hmax Hcodes. unfold generate. simpl.
  destruct (possible_building_codes cfg) as [|code rest]; [done|].
  cbn [mapM]. rewrite bind_run, bind_run. unfold random_randint.
  by assert ((maximum_number_of_networks cfg + 1 - 1 <? 0)%Z = true) as ->
    by lia.
Qed.

Lemma generate_run (method : string) (w : world) :
  (0 <= maximum_number_of_networks cfg)%Z ->
  exists l w',
    generate cfg method w = (Ok l, w') /\
    building <$> l = PyStr <$> possible_building_codes cfg /\
    Forall (generated cfg) l.
Proof.
  intros Hmax. unfold generate.
  assert (Forall (fun code => code ∈ possible_building_codes cfg)
            (possible_building_codes cfg)) as Hcodes
    by by apply Forall_forall.
  destruct (String.eqb method "random").
  - destruct (generate_random_run _ Hmax Hcodes w)
      as (l & w' & Hrun & Hb & Hall & _).
    by exists l, w'.
  - rewrite (generate_zero_run _ Hmax Hcodes w).
    eexists _, w. split; [done|].
    split; [by rewrite <- list_fmap_compose|].
    apply Forall_fmap, Forall_forall. intros code _. exists 0%Z. simpl.
    split; [done|]. split; [lia | done].
Qed.

(** X17 -- a generated genome.  With at least one building and the id [0]
    possible, [ConnectivityVector(ConnectivityVector.generate(method))]
    never raises: the vector has one position per building code, in order,
    holds integers that are legal network ids, and is in canonical form. *)
Theorem generated_vector (method : string) (w : world) :
  (0 <= maximum_number_of_networks cfg)%Z ->
  possible_building_codes cfg <> [] ->
  exists l w' cv,
    generate cfg method w = (Ok l, w') /\
    ConnectivityVector_init cfg (heap w') (ObjList (ObjConnection <$> l))
    = Ok cv /\
    building <$> connections cv = PyStr <$> possible_building_codes cfg /\
    legal_genome cfg cv /\
    int_genome cv /\
    canonical_form cfg cv.
Proof.
  intros Hmax Hcodes.
  destruct (generate_run method w Hmax) as (l & w' & Hrun & Hb & Hall).
  exists l, w'. eexists. split; [done|].
  unfold ConnectivityVector_init.
  assert (obj_truthy (heap w') (ObjList (ObjConnection <$> l)) = true) as ->.
  { simpl. apply negb_true_iff, bool_decide_eq_false.
    destruct l; [|done]. simpl in Hb.
    by destruct (possible_building_codes cfg). }
  simpl. rewrite connections_setter_collapse. simpl. split; [done|].
  simpl. split; [|split; [|split]].
  - rewrite <- Hb, <- list_fmap_compose. apply list_fmap_ext.
    intros i c _. simpl. apply collapse_building.
  - unfold legal_genome. simpl. apply Forall_fmap.
    eapply Forall_impl; [exact Hall|]. intros c (z & Hz & Hr & _). simpl.
    apply collapse_legal. rewrite Hz. by apply legal_id_int.
  - unfold int_genome, values. simpl. rewrite <- list_fmap_compose.
    apply Forall_fmap.
    eapply Forall_impl; [exact Hall|]. intros c (z & Hz & _). simpl.
    unfold collapse. destruct (py_in_ints _ _); simpl; eauto.
  - apply collapse_canonical.
Qed.

End Generate.

Lemma generate_legal_witness :
  exists l w',
    generate example_config "random"
      (example_world None [1; 1]%Z [0; 0]%Z (fun _ => 0%Q)) = (Ok l, w') /\
    building <$> l = PyStr <$> possible_building_codes example_config /\
    Forall (generated example_config) l.
Proof.
  destruct (generate_legal example_config "random"
              (example_world None [1; 1]%Z [0; 0]%Z (fun _ => 0%Q)))
    as (l & w' & Hrun & Hb & Hall & _); [simpl; lia|].
  by exists l, w'.
Defined.

Lemma generated_vector_witness :
  exists l w' cv,
    generate example_config "random"
      (example_world None [1; 1]%Z [0; 0]%Z (fun k => 0%Q)) = (Ok l, w') /\
    ConnectivityVector_init example_config (heap w')
      (ObjList (ObjConnection <$> l)) = Ok cv /\
    building <$> connections cv
    = PyStr <$> possible_building_codes example_config /\
    legal_genome example_config cv /\
    int_genome cv /\
    canonical_form example_config cv.
Proof.
  apply (generated_vector example_config "random"
           (example_world None [1; 1]%Z [0; 0]%Z (fun k => 0%Q)));
    simpl; [lia | discriminate].
Defined.

Lemma generate_empty_range_witness :
  generate {| maximum_number_of_networks := -1;
              possible_building_codes := ["B1001"];
              zero_demand_buildings := [] |}
    "random" (example_world None [0]%Z [0]%Z (fun _ => 0%Q))
  = (Raise ValueError, example_world None [0]%Z [0]%Z (fun _ => 0%Q)).
Proof. apply generate_empty_range; simpl; [lia | discriminate]. Defined.

(** ** When the operators return *)

Lemma returns_ret {A} (I : world -> Prop) (a : A) (Q : A -> Prop) :
  Q a -> returns I (mret a) Q.
Proof. intros HQ w HI. by exists a, w. Qed.

Lemma returns_bind {A B} (I : world -> Prop) (m : M A) (f : A -> M B)
    (Q : A -> Prop) (Q' : B -> Prop) :
  returns I m Q -> (forall a, Q a -> returns I (f a) Q') ->
  returns I (m ≫= f) Q'.
Proof.
  intros Hm Hf w HI. destruct (Hm w HI) as (a & w1 & Hrun & HI1 & HQ).
  destruct (Hf a HQ w1 HI1) as (b & w2 & Hrun2 & HI2 & HQ').
  exists b, w2. by rewrite bind_run, Hrun.
Qed.

Lemma returns_for_each {A} (I : world -> Prop) (xs : list A)
    (body : A -> M unit) :
  (forall x, x ∈ xs -> returns I (body x) (fun _ => True)) ->
  returns I (for_each xs body) (fun _ => True).
Proof.
  induction xs as [|x xs IH]; intros Hbody; simpl.
  - by apply returns_ret.
  - eapply returns_bind; [apply Hbody; by left|].
    intros _ _. apply IH. intros y Hy. apply Hbody. by right.
Qed.

Lemma stored_for_legal (cfg : config) (c : Connection) (v : pyval) :
  legal_id cfg v -> legal_id cfg (network_connection (stored_for cfg c v)).
Proof.
  intros [Hint (z & Hz & Hr)]. simpl. rewrite Hz.
  destruct (in_zero_demand cfg (building c)); apply legal_id_int; lia.
Qed.

Lemma py_range3_unit (a b : Z) :
  py_range3 a b 1
  = (fun k => (a + Z.of_nat k)%Z) <$> seq 0 (Z.to_nat (b - a)).
Proof.
  unfold py_range3. simpl.
  assert ((if (a <? b)%Z then (b - a + 1 - 1) / 1 else 0)%Z
          = Z.max 0 (b - a)) as ->.
  { destruct (a <? b)%Z eqn:E; [rewrite Z.div_1_r|]; lia. }
  replace (Z.to_nat (Z.max 0 (b - a))) with (Z.to_nat (b - a)) by lia.
  apply list_fmap_ext. intros i k _. lia.
Qed.

Lemma py_list_get_in_range {A} (l : list A) (i : Z) :
  (0 <= i < Z.of_nat (length l))%Z ->
  exists x, py_list_get l i = Ok x /\ x ∈ l.
Proof.
  intros Hi. unfold py_list_get, py_position.
  assert (((0 <=? i) && (i <? Z.of_nat (length l)))%Z = true) as ->
    by (apply andb_true_iff; lia).
  destruct (lookup_lt_is_Some_2 l (Z.to_nat i)) as [x Hx]; [lia|].
  rewrite Hx. exists x. split; [done|]. by eapply list_elem_of_lookup_2.
Qed.

Lemma mapM_slice_returns (cfg : config) (cv : ConnectivityVector)
    (indexes : list Z) :
  legal_genome cfg cv ->
  Forall (fun i => (0 <= i < Z.of_nat (length (connections cv)))%Z) indexes ->
  exists vs,
    mapM (fun i => c ← py_list_get (connections cv) i;
                   mret (network_connection c)) indexes = Ok vs /\
    length vs = length indexes /\
    Forall (legal_id cfg) vs.
Proof.
  intros Hlegal. induction 1 as [|i rest Hi _ (vs & IH & Hlen & Hall)];
    [by exists []|].
  destruct (py_list_get_in_range (connections cv) i Hi) as (c & Hc & Hin).
  exists (network_connection c :: vs). cbn [mapM]. rewrite Hc. simpl.
  rewrite IH. simpl. split; [done|]. split; [by rewrite Hlen|].
  constructor; [|done]. unfold legal_genome in Hlegal.
  rewrite Forall_forall in Hlegal. by apply Hlegal.
Qed.

Section Returns.
Context `{FloatOps} `{SetOrder Z} `{SetOrder pyval} `{ClusteringOps}.
Variable cfg : config.
Variable S : loc -> Prop.
Variable len : loc -> nat.
Variable cache : option (list Z).

Lemma ready_heap (w w' : world) :
  heap w' = heap w -> cluster_indexes w' = cluster_indexes w -> ready cfg S len cache w -> ready cfg S len cache w'.
Proof. intros Eh Ec [Hc Hl]. split; [congruence|]. by rewrite Eh. Qed.

Lemma ready_store (w : world) (l : loc) (cv : ConnectivityVector) :
  legal_genome cfg cv -> length (connections cv) = len l ->
  ready cfg S len cache w -> ready cfg S len cache (store l cv w).
Proof.
  intros Hlegal Hlen [Hc Hl]. split; [done|]. intros l' Hl'. simpl.
  destruct (decide (l' = l)) as [->|]; [done | by apply Hl].
Qed.

Lemma returns_reads {A} (m : M A) (Q : A -> Prop) :
  (forall w, ready cfg S len cache w -> exists a w',
      m w = (Ok a, w') /\ heap w' = heap w /\
      cluster_indexes w' = cluster_indexes w /\ Q a) ->
  returns (ready cfg S len cache) m Q.
Proof.
  intros Hm w HI. destruct (Hm w HI) as (a & w' & Hrun & Eh & Ec & HQ).
  exists a, w'. split; [done|]. split; [by eapply ready_heap | done].
Qed.

Lemma returns_random_random : returns (ready cfg S len cache) random_random (fun _ => True).
Proof. apply returns_reads. intros w _. by eexists _, _. Qed.

Lemma returns_random_randint (a b : Z) :
  (a <= b)%Z -> returns (ready cfg S len cache) (random_randint a b) (fun z => (a <= z <= b)%Z).
Proof.
  intros Hab. apply returns_reads. intros w _.
  destruct (random_randint_run a b w Hab) as (z & Hrun & Hz).
  by exists z, (drawn w).
Qed.

Lemma returns_random_choice {A} (xs : list A) :
  xs <> [] -> returns (ready cfg S len cache) (random_choice xs) (fun x => x ∈ xs).
Proof.
  intros Hxs. apply returns_reads. intros w _. unfold random_choice.
  destruct xs as [|x0 xs0] eqn:E; [done|]. rewrite <- E.
  assert (0 < length xs) as Hlen by (subst xs; simpl; lia).
  rewrite bind_run. unfold randbelow.
  destruct (lookup_lt_is_Some_2 xs (integers w (draws w) mod length xs))
    as [x Hx].
  { by apply Nat.mod_upper_bound, Nat.neq_0_lt_0. }
  rewrite Hx. exists x, (drawn w). repeat split.
  by eapply list_elem_of_lookup_2.
Qed.

Lemma returns_cv_len (l : loc) :
  S l -> returns (ready cfg S len cache) (cv_len l) (fun n => n = len l).
Proof.
  intros Hl. apply returns_reads. intros w [_ HI].
  eexists _, w. repeat split. by apply HI.
Qed.

Lemma returns_cv_getitem (l : loc) (i : nat) :
  S l -> i < len l -> returns (ready cfg S len cache) (cv_getitem l i) (legal_id cfg).
Proof.
  intros Hl Hi. apply returns_reads. intros w [_ HI].
  destruct (HI l Hl) as [Hlegal Hlen].
  destruct (lookup_lt_is_Some_2 (connections (heap w l)) i) as [c Hc]; [lia|].
  exists (network_connection c), w. unfold cv_getitem, getitem. rewrite Hc.
  split; [done|]. split; [done|]. split; [done|].
  unfold legal_genome in Hlegal. rewrite Forall_forall in Hlegal.
  apply Hlegal. by eapply list_elem_of_lookup_2.
Qed.

Lemma returns_cv_setitem (l : loc) (i : nat) (v : pyval) :
  S l -> i < len l -> legal_id cfg v ->
  returns (ready cfg S len cache) (cv_setitem cfg l i v) (fun _ => True).
Proof.
  intros Hl Hi Hv w HI. destruct HI as [Hc HI].
  destruct (HI l Hl) as [Hlegal Hlen].
  destruct (lookup_lt_is_Some_2 (connections (heap w l)) i) as [c Hci]; [lia|].
  unfold cv_setitem. rewrite (setitem_legal cfg _ i c v Hci Hv).
  eexists (), _. split; [done|]. split; [|done].
  apply ready_store; [| by simpl; rewrite length_insert | done].
  unfold legal_genome. simpl. apply Forall_insert; [done|].
  by apply stored_for_legal.
Qed.

Lemma returns_cv_reset (l : loc) :
  S l -> returns (ready cfg S len cache) (cv_reset cfg l) (fun o => o = ObjVector l).
Proof.
  intros Hl w HI. destruct HI as [Hc HI].
  destruct (HI l Hl) as [Hlegal Hlen].
  unfold cv_reset. rewrite reset_collapse.
  eexists _, _. split; [done|]. split; [|done].
  apply ready_store; [| by simpl; rewrite length_fmap | done].
  unfold legal_genome. simpl. apply Forall_fmap.
  eapply Forall_impl; [exact Hlegal|]. intros c Hcl. by apply collapse_legal.
Qed.

Lemma returns_swap_at (a b : loc) (i : nat) :
  S a -> S b -> i < len a -> i < len b ->
  returns (ready cfg S len cache) (swap_at cfg a b i) (fun _ => True).
Proof.
  intros Ha Hb Hia Hib. unfold swap_at.
  eapply returns_bind; [by apply returns_cv_getitem|]. intros x Hx.
  eapply returns_bind; [by apply returns_cv_getitem|]. intros y Hy.
  eapply returns_bind; [by apply returns_cv_setitem|]. intros _ _.
  by apply returns_cv_setitem.
Qed.

Lemma returns_select_values {A} (values : list A) (probability : Q) :
  returns (ready cfg S len cache) (select_values_with_probability values probability)
    (fun selected => selected `sublist_of` values).
Proof.
  apply returns_reads. intros w _.
  destruct (select_values_run values probability w)
    as (sel & w' & Hrun & Hsub & _ & Hheap & Hci).
  by exists sel, w'.
Qed.

Lemma returns_finish_pair (a b : loc) :
  S a -> S b ->
  returns (ready cfg S len cache)
    (first ← obj_getitem (ObjTuple [ObjVector a; ObjVector b]) 0;
     obj_reset cfg first;;
     second ← obj_getitem (ObjTuple [ObjVector a; ObjVector b]) 1;
     obj_reset cfg second;;
     mret (ObjTuple [ObjVector a; ObjVector b]))
    (fun o => o = ObjTuple [ObjVector a; ObjVector b]).
Proof.
  intros Ha Hb. simpl.
  eapply returns_bind; [by apply (returns_ret _ _ (fun o => o = ObjVector a))|].
  intros ? ->. eapply returns_bind; [by apply returns_cv_reset|].
  intros _ _.
  eapply returns_bind; [by apply (returns_ret _ _ (fun o => o = ObjVector b))|].
  intros ? ->. eapply returns_bind; [by apply returns_cv_reset|].
  intros _ _. by apply returns_ret.
Qed.

Lemma returns_cxUniform (a b : loc) (p : Q) :
  S a -> S b ->
  returns (ready cfg S len cache) (cxUniform cfg a b p)
    (fun o => o = ObjTuple [ObjVector a; ObjVector b]).
Proof.
  intros Ha Hb. unfold cxUniform.
  eapply returns_bind; [by apply returns_cv_len|]. intros ? ->.
  eapply returns_bind; [by apply returns_cv_len|]. intros ? ->.
  eapply returns_bind; [|intros _ _; by apply returns_ret].
  apply returns_for_each. intros i Hi%elem_of_seq.
  eapply returns_bind; [apply returns_random_random|]. intros u _.
  destruct (Qltb u p); [|by apply returns_ret].
  apply returns_swap_at; (done || lia).
Qed.

Lemma returns_ClusterSwap (a b : loc) (p : Q) (ci : list Z) :
  S a -> S b -> cache = Some ci ->
  length ci <= len a -> length ci <= len b ->
  returns (ready cfg S len cache) (ClusterSwap cfg a b p)
    (fun o => o = ObjTuple [ObjVector a; ObjVector b]).
Proof.
  intros Ha Hb Hcache Hla Hlb. unfold ClusterSwap.
  eapply (returns_bind _ _ _ (fun x => x = ci)).
  { apply returns_reads. intros w [Hc _]. unfold iter_cluster_indexes.
    exists ci, w. split; [by rewrite Hc, Hcache | done]. }
  intros ? ->.
  eapply returns_bind; [apply returns_select_values|]. intros sel _.
  eapply returns_bind; [|intros _ _; by apply returns_ret].
  apply returns_for_each. intros cluster _.
  apply returns_for_each. intros i Hi%elem_of_positions_of.
  apply lookup_lt_Some in Hi.
  apply returns_swap_at; (done || lia).
Qed.

Lemma returns_iter_cluster_indexes (ci : list Z) :
  cache = Some ci ->
  returns (ready cfg S len cache) iter_cluster_indexes (fun x => x = ci).
Proof.
  intros Hcache. apply returns_reads. intros w [Hc _].
  unfold iter_cluster_indexes.
  exists ci, w. split; [by rewrite Hc, Hcache | done].
Qed.

Lemma returns_ensure_cluster_indexes (ci : list Z)
    (connection_points : list connection_point) :
  cache = Some ci -> ci <> [] ->
  returns (ready cfg S len cache) (ensure_cluster_indexes connection_points)
    (fun _ => True).
Proof.
  intros Hcache Hne. apply returns_reads. intros w [Hc _].
  exists (), w. split; [|done].
  unfold ensure_cluster_indexes. rewrite Hc, Hcache. by destruct ci.
Qed.

Lemma mapM_getitem_returns (cv : ConnectivityVector) (indexes : list nat) :
  Forall (fun i => i < length (connections cv)) indexes ->
  exists vals,
    mapM (getitem cv) indexes = Ok vals /\ length vals = length indexes.
Proof.
  induction 1 as [|i rest Hi _ (vals & IH & Hlen)]; [by exists []|].
  destruct (lookup_lt_is_Some_2 (connections cv) i Hi) as [c Hc].
  exists (network_connection c :: vals). cbn [mapM].
  assert (getitem cv i = Ok (network_connection c)) as ->
    by (unfold getitem; by rewrite Hc).
  simpl. rewrite IH. simpl. by rewrite Hlen.
Qed.

Lemma assign_prevalent_returns (indexes : list nat) (m : pyval) :
  forall mp0,
    Forall (fun i => i < length mp0) indexes ->
    exists mp1, assign_prevalent indexes m mp0 = Ok mp1.
Proof.
  induction indexes as [|i rest IH]; intros mp0 Hall; [by eexists|].
  apply Forall_cons in Hall as [Hi Hrest]. simpl.
  apply Nat.ltb_lt in Hi. rewrite Hi. apply IH.
  by rewrite length_insert.
Qed.

Lemma returns_mutUniformInt (l : loc) (p : Q) :
  S l -> (0 <= maximum_number_of_networks cfg)%Z ->
  returns (ready cfg S len cache)
    (mutUniformInt cfg l 0 (maximum_number_of_networks cfg + 1 - 1) p)
    (fun o => o = ObjTuple [ObjVector l]).
Proof.
  intros Hl Hmax. unfold mutUniformInt.
  eapply returns_bind; [by apply returns_cv_len|]. intros ? ->.
  eapply returns_bind; [|intros _ _; by apply returns_ret].
  apply returns_for_each. intros i Hi%elem_of_seq.
  eapply returns_bind; [apply returns_random_random|]. intros u _.
  destruct (Qltb u p); [|by apply returns_ret].
  eapply returns_bind; [apply returns_random_randint; lia|]. intros v Hv.
  simpl in Hv, Hi.
  apply returns_cv_setitem; [done | lia |]. apply legal_id_int. lia.
Qed.

Lemma returns_mutShuffleIndexes (l : loc) (p : Q) :
  S l -> len l <> 1 ->
  returns (ready cfg S len cache) (mutShuffleIndexes cfg l p)
    (fun o => o = ObjTuple [ObjVector l]).
Proof.
  intros Hl Hlen. unfold mutShuffleIndexes.
  eapply returns_bind; [by apply returns_cv_len|]. intros ? ->.
  eapply returns_bind; [|intros _ _; by apply returns_ret].
  apply returns_for_each. intros i Hi%elem_of_seq.
  eapply returns_bind; [apply returns_random_random|]. intros u _.
  destruct (Qltb u p); [|by apply returns_ret].
  eapply returns_bind; [apply returns_random_randint; lia|]. intros r Hr.
  simpl in Hr, Hi.
  assert (Z.to_nat (if (Z.of_nat i <=? r)%Z then r + 1 else r)%Z < len l)
    as Hswap by (destruct (Z.of_nat i <=? r)%Z; lia).
  eapply returns_bind; [by apply returns_cv_getitem|]. intros x Hx.
  eapply returns_bind; [apply returns_cv_getitem; [done | lia]|].
  intros y Hy.
  eapply returns_bind; [apply returns_cv_setitem; [done | lia | done]|].
  intros _ _. by apply returns_cv_setitem.
Qed.

Lemma returns_finish_single (l : loc) :
  S l ->
  returns (ready cfg S len cache)
    (first ← obj_getitem (ObjTuple [ObjVector l]) 0;
     obj_reset cfg first;;
     mret (ObjTuple [ObjVector l]))
    (fun o => o = ObjTuple [ObjVector l]).
Proof.
  intros Hl. simpl.
  eapply returns_bind; [by apply (returns_ret _ _ (fun o => o = ObjVector l))|].
  intros ? ->. eapply returns_bind; [by apply returns_cv_reset|].
  intros _ _. by apply returns_ret.
Qed.

Lemma setitem_slice_loop_returns (cv : ConnectivityVector) (ind_start : Z)
    (value : list pyval) (indexes : list Z) :
  Forall (legal_id cfg) value ->
  Forall (fun i => (0 <= i < Z.of_nat (length (connections cv)))%Z /\
                   (0 <= i - ind_start < Z.of_nat (length value))%Z) indexes ->
  legal_genome cfg cv ->
  exists cv',
    setitem_slice_loop cfg cv ind_start value indexes = (Ok (), cv') /\
    legal_genome cfg cv' /\
    length (connections cv') = length (connections cv).
Proof.
  intros Hvalue. revert cv.
  induction indexes as [|index rest IH]; intros cv Hall Hlegal; [by exists cv|].
  apply Forall_cons in Hall as [[Hi Hv] Hrest].
  cbn [setitem_slice_loop]. unfold setitem_slice_step.
  destruct (py_list_get_in_range value (index - ind_start) Hv) as (x & -> & Hx).
  rewrite Forall_forall in Hvalue. specialize (Hvalue x Hx).
  destruct Hvalue as [Hint (z & Hz & Hr)].
  simpl. rewrite (py_round2_legal x z Hint Hz). simpl.
  destruct (py_list_get_in_range (connections cv) index Hi) as (c & Hget & Hc).
  unfold py_list_get in Hget.
  destruct (py_position (length (connections cv)) index) as [n|]; [|done].
  destruct (connections cv !! n) as [c'|] eqn:Hn; [|done].
  injection Hget as ->.
  unfold set_network_connection.
  rewrite (setter_legal cfg (building c) (PyInt z)) by by apply legal_id_int.
  simpl.
  destruct (IH {| connections :=
                    <[n := {| building := building c;
                              network_connection :=
                                if in_zero_demand cfg (building c)
                                then PyInt 0 else PyInt z |}]>
                      (connections cv);
                  fitness := fitness cv |})
    as (cv' & Hrun & Hlegal' & Hlen').
  - simpl. by rewrite length_insert.
  - unfold legal_genome. simpl. apply Forall_insert; [done|]. simpl.
    destruct (in_zero_demand cfg (building c)); apply legal_id_int; lia.
  - exists cv'. split; [done|]. split; [done|].
    simpl in Hlen'. by rewrite length_insert in Hlen'.
Qed.

Lemma returns_cv_getslice (l : loc) (start : Z) (stop : option Z) :
  S l ->
  (0 <= start <= default (Z.of_nat (len l)) stop)%Z ->
  (default (Z.of_nat (len l)) stop <= Z.of_nat (len l))%Z ->
  returns (ready cfg S len cache)
    (cv_getslice l {| slice_start := Some start; slice_stop := stop;
                      slice_step := None |})
    (fun vs => Forall (legal_id cfg) vs /\
               Z.of_nat (length vs)
               = (default (Z.of_nat (len l)) stop - start)%Z).
Proof.
  intros Hl Hstart Hstop. apply returns_reads. intros w [_ HI].
  destruct (HI l Hl) as [Hlegal Hlen].
  unfold cv_getslice, getitem_slice, slice_indices. simpl. rewrite Hlen.
  set (n := Z.of_nat (len l)) in *.
  assert ((if (start <? 0)%Z
           then if (start + n <? 0)%Z then 0%Z else (start + n)%Z
           else if (n <=? start)%Z then n else start) = start) as ->.
  { destruct (start <? 0)%Z eqn:E1; [lia|].
    destruct (n <=? start)%Z eqn:E2; lia. }
  assert (match stop with
          | Some s =>
              if (s <? 0)%Z
              then if (s + n <? 0)%Z then 0%Z else (s + n)%Z
              else if (n <=? s)%Z then n else s
          | None => n
          end = default n stop) as ->.
  { destruct stop as [s|]; simpl in *; [|done].
    destruct (s <? 0)%Z eqn:E1; [lia|].
    destruct (n <=? s)%Z eqn:E2; lia. }
  rewrite py_range3_unit.
  destruct (mapM_slice_returns cfg (heap w l)
              ((fun k => (start + Z.of_nat k)%Z)
                 <$> seq 0 (Z.to_nat (default n stop - start))))
    as (vs & Hrun & Hvs & Hall); [done| |].
  { apply Forall_fmap, Forall_forall. intros k Hk%elem_of_seq. simpl.
    rewrite Hlen. fold n. lia. }
  exists vs, w. split; [by rewrite Hrun|]. split; [done|]. split; [done|].
  split; [done|]. rewrite Hvs, length_fmap, length_seq. lia.
Qed.

Lemma returns_cv_setslice (l : loc) (start : Z) (stop : option Z)
    (value : list pyval) :
  S l ->
  (0 <= start)%Z ->
  stop <> Some 0%Z ->
  (default (Z.of_nat (len l)) stop <= Z.of_nat (len l))%Z ->
  Forall (legal_id cfg) value ->
  (default (Z.of_nat (len l)) stop - start <= Z.of_nat (length value))%Z ->
  returns (ready cfg S len cache)
    (cv_setslice cfg l {| slice_start := Some start; slice_stop := stop;
                          slice_step := None |} value)
    (fun _ => True).
Proof.
  intros Hl Hstart Hnz Hstop Hvalue Hlenv w HI. destruct HI as [Hc HI].
  destruct (HI l Hl) as [Hlegal Hlen].
  unfold cv_setslice, setitem_slice. simpl.
  assert ((if (start =? 0)%Z then 0%Z else start) = start) as ->
    by (destruct (start =? 0)%Z eqn:E; lia).
  assert (bound_or stop (Z.of_nat (length (connections (heap w l))))
          = default (Z.of_nat (len l)) stop) as ->.
  { rewrite Hlen. destruct stop as [s|]; simpl; [|done].
    destruct (s =? 0)%Z eqn:E; [|done]. apply Z.eqb_eq in E. by subst. }
  rewrite py_range3_unit.
  destruct (setitem_slice_loop_returns (heap w l) start value
              ((fun k => (start + Z.of_nat k)%Z)
                 <$> seq 0 (Z.to_nat (default (Z.of_nat (len l)) stop - start))))
    as (cv' & -> & Hlegal' & Hlen'); [done| |done|].
  { apply Forall_fmap, Forall_forall. intros k Hk%elem_of_seq. simpl.
    rewrite Hlen. lia. }
  eexists (), _. split; [done|]. split; [|done].
  apply ready_store; [done | congruence | done].
Qed.

Lemma returns_swap_slices (a b : loc) (start : Z) (stop : option Z) :
  S a -> S b ->
  (0 <= start)%Z ->
  stop <> Some 0%Z ->
  (start <= default (Z.of_nat (len a)) stop <= Z.of_nat (len a))%Z ->
  (start <= default (Z.of_nat (len b)) stop <= Z.of_nat (len b))%Z ->
  default (Z.of_nat (len a)) stop = default (Z.of_nat (len b)) stop ->
  returns (ready cfg S len cache)
    (swap_slices cfg a b {| slice_start := Some start; slice_stop := stop;
                            slice_step := None |})
    (fun _ => True).
Proof.
  intros Ha Hb Hstart Hnz Hsa Hsb Heq. unfold swap_slices.
  eapply returns_bind; [apply returns_cv_getslice; [done | lia | lia]|].
  intros x [Hx Hlx].
  eapply returns_bind; [apply returns_cv_getslice; [done | lia | lia]|].
  intros y [Hy Hly].
  eapply returns_bind;
    [apply returns_cv_setslice; [done | done | done | lia | done | lia]|].
  intros _ _.
  apply returns_cv_setslice; [done | done | done | lia | done | lia].
Qed.

Lemma returns_cxOnePoint (a b : loc) :
  S a -> S b -> len a = len b -> 2 <= len a ->
  returns (ready cfg S len cache) (cxOnePoint cfg a b)
    (fun o => o = ObjTuple [ObjVector a; ObjVector b]).
Proof.
  intros Ha Hb Heq Htwo. unfold cxOnePoint.
  eapply returns_bind; [by apply returns_cv_len|]. intros ? ->.
  eapply returns_bind; [by apply returns_cv_len|]. intros ? ->.
  eapply returns_bind; [apply returns_random_randint; lia|].
  intros cxpoint Hcx. simpl in Hcx.
  eapply returns_bind; [|intros _ _; by apply returns_ret].
  apply returns_swap_slices; simpl; (done || lia).
Qed.

Lemma returns_cxTwoPoint (a b : loc) :
  S a -> S b -> 2 <= len a -> 2 <= len b ->
  returns (ready cfg S len cache) (cxTwoPoint cfg a b)
    (fun o => o = ObjTuple [ObjVector a; ObjVector b]).
Proof.
  intros Ha Hb Hta Htb. unfold cxTwoPoint.
  eapply returns_bind; [by apply returns_cv_len|]. intros ? ->.
  eapply returns_bind; [by apply returns_cv_len|]. intros ? ->.
  eapply returns_bind; [apply returns_random_randint; lia|].
  intros p1 Hp1. simpl in Hp1.
  eapply returns_bind; [apply returns_random_randint; lia|].
  intros p2 Hp2. simpl in Hp2.
  destruct (p1 <=? p2)%Z eqn:E.
  - eapply returns_bind; [|intros _ _; by apply returns_ret].
    apply returns_swap_slices; simpl; try done; try lia.
    intros [= ?]. lia.
  - eapply returns_bind; [|intros _ _; by apply returns_ret].
    apply returns_swap_slices; simpl; try done; try lia.
    intros [= ?]. lia.
Qed.

Lemma returns_ClusterSwitch (l : loc) (p : Q) (ci : list Z) :
  S l -> cache = Some ci -> length ci <= len l ->
  (0 <= maximum_number_of_networks cfg)%Z ->
  returns (ready cfg S len cache) (ClusterSwitch cfg l p)
    (fun o => o = ObjVector l).
Proof.
  intros Hl Hcache Hlen Hmax. unfold ClusterSwitch.
  assert (possible_connections cfg <> []) as Hne.
  { intros E. assert (0%Z ∈ possible_connections cfg) as Hin
      by (apply elem_of_py_range; lia).
    rewrite E in Hin. by apply elem_of_nil in Hin. }
  assert (forall x, x ∈ possible_connections cfg -> legal_id cfg (PyInt x))
    as Hlegal.
  { intros x Hx%elem_of_py_range. apply legal_id_int. lia. }
  eapply returns_bind; [by apply returns_iter_cluster_indexes|]. intros ? ->.
  eapply returns_bind; [|intros _ _; by apply returns_ret].
  apply returns_for_each. intros cluster _.
  destruct (0 <=? cluster)%Z.
  - eapply returns_bind; [by apply returns_random_choice|]. intros x Hx.
    apply returns_for_each.
    intros [i c] (k & y & [= -> ->] & Hk%lookup_lt_Some)%elem_of_lookup_imap.
    destruct (y =? cluster)%Z; [|by apply returns_ret].
    eapply returns_bind; [apply returns_random_random|]. intros u _.
    destruct (Qltb u p); [|by apply returns_ret].
    apply returns_cv_setitem; [done | lia | by apply Hlegal].
  - apply returns_for_each.
    intros [i c] (k & y & [= -> ->] & Hk%lookup_lt_Some)%elem_of_lookup_imap.
    destruct (y <? 0)%Z; [|by apply returns_ret].
    eapply returns_bind; [apply returns_random_random|]. intros u _.
    destruct (Qltb u p); [|by apply returns_ret].
    eapply returns_bind; [by apply returns_random_choice|]. intros x Hx.
    apply returns_cv_setitem; [done | lia | by apply Hlegal].
Qed.

Section Alignment.
Hypothesis set_iter_Z_sound :
  forall (l : list Z) (x : Z), x ∈ set_iter l -> x ∈ l.
Hypothesis set_iter_nonempty :
  forall l : list pyval, l <> [] -> set_iter l <> [].

Lemma most_prevalent_loop_returns (cv : ConnectivityVector)
    (ci clusters : list Z) :
  length ci <= length (connections cv) ->
  (forall c, c ∈ clusters -> c ∈ ci) ->
  forall mp0,
    length mp0 = length (connections cv) ->
    exists mp,
      most_prevalent_loop cv ci clusters mp0 = Ok mp /\
      length mp = length (connections cv).
Proof.
  intros Hci. induction clusters as [|c rest IH]; intros Hin mp0 Hlen.
  - by exists mp0.
  - simpl. destruct (c <? 0)%Z.
    { apply IH; [|done]. intros c' Hc'. apply Hin. by right. }
    assert (Forall (fun i => i < length (connections cv)) (positions_of c ci))
      as Hpos.
    { apply Forall_forall. intros i Hi%elem_of_positions_of.
      apply lookup_lt_Some in Hi. lia. }
    destruct (mapM_getitem_returns cv _ Hpos) as (vals & -> & Hvals). simpl.
    assert (vals <> []) as Hne.
    { assert (c ∈ ci) as Hc by (apply Hin; by left).
      apply list_elem_of_lookup in Hc as [i Hi].
      apply elem_of_positions_of in Hi.
      intros ->. simpl in Hvals.
      destruct (positions_of c ci); [by apply elem_of_nil in Hi | done]. }
    unfold most_prevalent_connectivity_value, py_max.
    destruct (set_iter vals) as [|x xs] eqn:Hset;
      [by apply set_iter_nonempty in Hset|].
    simpl.
    destruct (assign_prevalent_returns (positions_of c ci)
                (py_max_from (fun v => py_count v vals) x xs) mp0)
      as [mp1 Hassign]; [by rewrite Hlen|].
    rewrite Hassign. simpl. apply IH.
    + intros c' Hc'. apply Hin. by right.
    + apply assign_prevalent_length in Hassign. congruence.
Qed.

Lemma returns_get_most_prevalent (l : loc) (ci : list Z) :
  S l -> cache = Some ci -> length ci <= len l ->
  returns (ready cfg S len cache)
    (_get_most_prevalent_connectivity_values l (set_iter ci))
    (fun mp => length mp = len l).
Proof.
  intros Hl Hcache Hlen. apply returns_reads. intros w [Hc HI].
  destruct (HI l Hl) as [_ Hlenl].
  assert (length ci <= length (connections (heap w l))) as Hci by lia.
  destruct (most_prevalent_loop_returns (heap w l) ci (set_iter ci) Hci
              (set_iter_Z_sound ci)
              (replicate (length (connections (heap w l))) PyNone)
              (length_replicate _ _))
    as (mp & Hrun & Hmp).
  exists mp, w. split; [|split; [done|split; [done|congruence]]].
  unfold _get_most_prevalent_connectivity_values.
  rewrite bind_run. unfold iter_cluster_indexes at 1. rewrite Hc, Hcache.
  rewrite bind_run. unfold cv_read at 1, lift_result.
  unfold most_prevalent_connectivity_values. by rewrite Hrun.
Qed.

Lemma returns_swappable (a b : loc) (pairs : list (nat * (pyval * pyval))) :
  S a -> S b ->
  Forall (fun p => p.1 < len a /\ p.1 < len b) pairs ->
  returns (ready cfg S len cache) (swappable_building_indexes a b pairs)
    (Forall (fun i => i < len a /\ i < len b)).
Proof.
  intros Ha Hb. induction 1 as [|[i [p1 p2]] pairs [Hia Hib] _ IH]; simpl.
  - by apply returns_ret.
  - simpl in *.
    eapply returns_bind; [by apply returns_cv_getitem|]. intros x _.
    eapply (returns_bind _ _ _ (fun _ => True)).
    { destruct (py_eqb x p2); [|by apply returns_ret].
      eapply returns_bind; [by apply returns_cv_getitem|]. intros y _.
      by apply returns_ret. }
    intros keep _. eapply returns_bind; [apply IH|]. intros idx Hidx.
    apply returns_ret. destruct keep; [|done]. by constructor.
Qed.

Lemma returns_ClusterAlignment (a b : loc) (p : Q) (ci : list Z) :
  S a -> S b -> cache = Some ci ->
  length ci <= len a -> length ci <= len b ->
  returns (ready cfg S len cache) (ClusterAlignment cfg a b p)
    (fun o => o = ObjTuple [ObjVector a; ObjVector b]).
Proof.
  intros Ha Hb Hcache Hla Hlb. unfold ClusterAlignment.
  eapply returns_bind; [by apply returns_iter_cluster_indexes|]. intros ? ->.
  eapply returns_bind; [by apply returns_get_most_prevalent|].
  intros prevailing_1 Hp1.
  eapply returns_bind; [by apply returns_get_most_prevalent|].
  intros prevailing_2 Hp2.
  eapply returns_bind.
  { apply returns_swappable; [done..|].
    apply Forall_forall. intros [i pq] (k & y & [= -> ->] & Hk)%elem_of_lookup_imap.
    apply lookup_lt_Some in Hk. rewrite length_zip in Hk. simpl in *. lia. }
  intros swappable Hsw.
  eapply returns_bind; [apply returns_select_values|]. intros sel Hsub.
  eapply returns_bind; [|intros _ _; by apply returns_ret].
  apply returns_for_each. intros i Hi.
  rewrite Forall_forall in Hsw.
  destruct (Hsw i) as [Hia Hib]; [by eapply elem_of_sublist|].
  by apply returns_swap_at.
Qed.

End Alignment.

End Returns.

Section WhenTheyReturn.
Context `{FloatOps} `{SetOrder Z} `{SetOrder pyval} `{ClusteringOps}.
Variable cfg : config.

Lemma ready_now (cv_1 cv_2 : loc) (w : world) :
  legal_genome cfg (heap w cv_1) -> legal_genome cfg (heap w cv_2) ->
  ready cfg (fun l => l = cv_1 \/ l = cv_2)
    (fun l => length (connections (heap w l))) (cluster_indexes w) w.
Proof. intros H1' H2'. split; [done|]. by intros l [->| ->]. Qed.

(** X18 -- the library crossovers return.  On two genomes of legal network
    ids, [mate] with ['Uniform'], with ['TwoPoint'] when both genomes have
    at least two positions, and with ['OnePoint'] when they are equally
    long with at least two positions, never raises: it returns the pair of
    the two references, and both genomes are legal and as long as
    before. *)
Theorem mate_library_returns (cv_1 cv_2 : loc) (algorithm : GeneticAlgorithm)
    (connection_points : list connection_point) (w : world) :
  legal_genome cfg (heap w cv_1) -> legal_genome cfg (heap w cv_2) ->
  crossover algorithm = "Uniform" \/
  crossover algorithm = "TwoPoint" /\
    2 <= length (connections (heap w cv_1)) /\
    2 <= length (connections (heap w cv_2)) \/
  crossover algorithm = "OnePoint" /\
    length (connections (heap w cv_1)) = length (connections (heap w cv_2)) /\
    2 <= length (connections (heap w cv_1)) ->
  exists w',
    mate cfg cv_1 cv_2 algorithm connection_points w
    = (Ok (ObjTuple [ObjVector cv_1; ObjVector cv_2]), w') /\
    legal_genome cfg (heap w' cv_1) /\ legal_genome cfg (heap w' cv_2) /\
    length (connections (heap w' cv_1)) = length (connections (heap w cv_1)) /\
    length (connections (heap w' cv_2)) = length (connections (heap w cv_2)).
Proof.
  intros Hl1 Hl2 Hmode.
  pose proof (ready_now cv_1 cv_2 w Hl1 Hl2) as Hready.
  assert (returns
            (ready cfg (fun l => l = cv_1 \/ l = cv_2)
               (fun l => length (connections (heap w l))) (cluster_indexes w))
            (mate cfg cv_1 cv_2 algorithm connection_points)
            (fun o => o = ObjTuple [ObjVector cv_1; ObjVector cv_2])) as Hret.
  { unfold mate.
    eapply (returns_bind _ _ _
              (fun o => o = ObjTuple [ObjVector cv_1; ObjVector cv_2])).
    - destruct Hmode as [E|[(E & Ha & Hb)|(E & Hab & Ha)]]; rewrite E;
        cbn [String.eqb Ascii.eqb Bool.eqb].
      + apply returns_cxUniform; auto.
      + apply returns_cxTwoPoint; auto.
      + apply returns_cxOnePoint; auto.
    - intros ? ->. apply returns_finish_pair; auto. }
  destruct (Hret w Hready) as (o & w' & Hrun & [_ Hw'] & ->).
  exists w'. split; [done|].
  destruct (Hw' cv_1) as [? ?]; [by left|].
  destruct (Hw' cv_2) as [? ?]; [by right|]. done.
Qed.

(** X19 -- the cluster crossovers return.  With a filled cluster cache that
    is not longer than either genome, and iteration over a set yielding
    only (and, of a non-empty list, some) elements of the list, [mate]
    with ['ClusterSwap'] or ['ClusterAlignment'] on two genomes of legal
    network ids never raises: it returns the pair of the two references,
    leaves the cache as it is, and both genomes are legal and as long as
    before. *)
Theorem mate_cluster_returns (cv_1 cv_2 : loc) (algorithm : GeneticAlgorithm)
    (connection_points : list connection_point) (w : world) (ci : list Z) :
  (forall (l : list Z) (x : Z), x ∈ set_iter l -> x ∈ l) ->
  (forall l : list pyval, l <> [] -> set_iter l <> []) ->
  legal_genome cfg (heap w cv_1) -> legal_genome cfg (heap w cv_2) ->
  cluster_indexes w = Some ci -> ci <> [] ->
  length ci <= length (connections (heap w cv_1)) ->
  length ci <= length (connections (heap w cv_2)) ->
  crossover algorithm = "ClusterSwap" \/
  crossover algorithm = "ClusterAlignment" ->
  exists w',
    mate cfg cv_1 cv_2 algorithm connection_points w
    = (Ok (ObjTuple [ObjVector cv_1; ObjVector cv_2]), w') /\
    cluster_indexes w' = Some ci /\
    legal_genome cfg (heap w' cv_1) /\ legal_genome cfg (heap w' cv_2) /\
    length (connections (heap w' cv_1)) = length (connections (heap w cv_1)) /\
    length (connections (heap w' cv_2)) = length (connections (heap w cv_2)).
Proof.
  intros Hsound Hnonempty Hl1 Hl2 Hci Hne Hlen1 Hlen2 Hmode.
  pose proof (ready_now cv_1 cv_2 w Hl1 Hl2) as Hready.
  assert (returns
            (ready cfg (fun l => l = cv_1 \/ l = cv_2)
               (fun l => length (connections (heap w l))) (cluster_indexes w))
            (mate cfg cv_1 cv_2 algorithm connection_points)
            (fun o => o = ObjTuple [ObjVector cv_1; ObjVector cv_2])) as Hret.
  { unfold mate.
    eapply (returns_bind _ _ _
              (fun o => o = ObjTuple [ObjVector cv_1; ObjVector cv_2])).
    - destruct Hmode as [E|E]; rewrite E;
        cbn [String.eqb Ascii.eqb Bool.eqb].
      + eapply returns_bind; [by eapply returns_ensure_cluster_indexes|].
        intros _ _. eapply returns_ClusterSwap; eauto.
      + eapply returns_bind; [by eapply returns_ensure_cluster_indexes|].
        intros _ _. eapply returns_ClusterAlignment; eauto.
    - intros ? ->. apply returns_finish_pair; auto. }
  destruct (Hret w Hready) as (o & w' & Hrun & [Hc' Hw'] & ->).
  exists w'. split; [done|]. split; [congruence|].
  destruct (Hw' cv_1) as [? ?]; [by left|].
  destruct (Hw' cv_2) as [? ?]; [by right|]. done.
Qed.

(** X20 -- the library mutations return.  On a genome of legal network
    ids, [mutate] with ['UniformInteger'] (the id [0] being possible), and
    with ['ShuffleIndexes'] unless the genome has exactly one position,
    never raises: it returns the one-element tuple of the reference, and
    the genome is legal and as long as before. *)
Theorem mutate_library_returns (cv : loc) (algorithm : GeneticAlgorithm)
    (connection_points : list connection_point) (w : world) :
  legal_genome cfg (heap w cv) ->
  mutation algorithm = "UniformInteger" /\
    (0 <= maximum_number_of_networks cfg)%Z \/
  mutation algorithm = "ShuffleIndexes" /\
    length (connections (heap w cv)) <> 1 ->
  exists w',
    mutate cfg cv algorithm connection_points w
    = (Ok (ObjTuple [ObjVector cv]), w') /\
    legal_genome cfg (heap w' cv) /\
    length (connections (heap w' cv)) = length (connections (heap w cv)).
Proof.
  intros Hl Hmode.
  pose proof (ready_now cv cv w Hl Hl) as Hready.
  assert (returns
            (ready cfg (fun l => l = cv \/ l = cv)
               (fun l => length (connections (heap w l))) (cluster_indexes w))
            (mutate cfg cv algorithm connection_points)
            (fun o => o = ObjTuple [ObjVector cv])) as Hret.
  { unfold mutate.
    eapply (returns_bind _ _ _ (fun o => o = ObjTuple [ObjVector cv])).
    - destruct Hmode as [[E Hmax]|[E Hlen]]; rewrite E;
        cbn [String.eqb Ascii.eqb Bool.eqb].
      + apply returns_mutUniformInt; auto.
      + apply returns_mutShuffleIndexes; auto.
    - intros ? ->. apply returns_finish_single; auto. }
  destruct (Hret w Hready) as (o & w' & Hrun & [_ Hw'] & ->).
  exists w'. split; [done|]. by destruct (Hw' cv) as [? ?]; [by left|].
Qed.

(** X21 -- [ClusterSwitch] on its own.  With the id [0] possible and a
    cluster cache not longer than the genome, [ClusterSwitch] on a genome
    of legal network ids never raises: it returns the genome itself, not a
    tuple, and the genome is legal and as long as before.  [mutate] with
    ['ClusterSwitch'] on a non-empty genome and a filled cache therefore
    changes the genome and then raises [AttributeError], without resetting
    it. *)
Theorem ClusterSwitch_returns (cv : loc) (p : Q) (w : world) (ci : list Z) :
  legal_genome cfg (heap w cv) ->
  cluster_indexes w = Some ci ->
  length ci <= length (connections (heap w cv)) ->
  (0 <= maximum_number_of_networks cfg)%Z ->
  exists w',
    ClusterSwitch cfg cv p w = (Ok (ObjVector cv), w') /\
    legal_genome cfg (heap w' cv) /\
    length (connections (heap w' cv)) = length (connections (heap w cv)) /\
    (ci <> [] -> connections (heap w cv) <> [] ->
     forall cx q connection_points,
       mutate cfg cv
         {| mutation := "ClusterSwitch"; mut_prob := p;
            crossover := cx; cx_prob := q |} connection_points w
       = (Raise AttributeError, w')).
Proof.
  intros Hl Hci Hlen Hmax.
  pose proof (ready_now cv cv w Hl Hl) as Hready.
  destruct (returns_ClusterSwitch cfg (fun l => l = cv \/ l = cv)
              (fun l => length (connections (heap w l))) (cluster_indexes w)
              cv p ci (or_introl eq_refl) Hci Hlen Hmax w Hready)
    as (o & w' & Hrun & [_ Hw'] & ->).
  destruct (Hw' cv (or_introl eq_refl)) as [Hl' Hlen'].
  exists w'. split; [done|]. split; [done|]. split; [done|].
  intros Hne Hcv cx q connection_points. unfold mutate.
  cbn [mutation mut_prob String.eqb Ascii.eqb Bool.eqb].
  rewrite bind_run, bind_run.
  assert (ensure_cluster_indexes connection_points w = (Ok (), w)) as ->.
  { unfold ensure_cluster_indexes. rewrite Hci. by destruct ci. }
  rewrite Hrun, bind_run. cbn [obj_getitem]. rewrite bind_run.
  unfold cv_getitem at 1, getitem.
  destruct (connections (heap w' cv)) as [|c rest] eqn:E.
  - simpl in Hlen'. by destruct (connections (heap w cv)).
  - done.
Qed.

End WhenTheyReturn.

Lemma example_vector_legal (ids : list Z) :
  Forall (fun z => 0 <= z <= 2)%Z ids ->
  legal_genome example_config (example_vector ids).
Proof.
  intros Hids. unfold legal_genome, example_vector. simpl.
  apply Forall_fmap. eapply Forall_impl; [exact Hids|].
  intros z Hz. simpl. by apply legal_id_int.
Qed.

Lemma slot_order_Z_sound (l : list Z) (x : Z) :
  x ∈ @set_iter _ slot_order_Z l -> x ∈ l.
Proof.
  unfold set_iter, slot_order_Z. intros Hx%elem_of_sort_by.
  by eapply dedup_by_sound.
Qed.

Lemma slot_order_val_nonempty (l : list pyval) :
  l <> [] -> @set_iter _ slot_order_val l <> [].
Proof.
  intros Hl. destruct l as [|x l]; [done|].
  destruct (@set_iter_complete _ slot_order_val_ok (x :: l) x) as (y & Hy & _);
    [by left|].
  intros E. rewrite E in Hy. by apply elem_of_nil in Hy.
Qed.

Lemma mate_library_returns_witness :
  let w := example_world None [1; 1; 2; 2]%Z [2; 0; 1; 1]%Z (fun _ => 0%Q) in
  exists w',
    @mate float_ops_unused slot_order_Z slot_order_val example_clustering
      example_config 0 1
      {| mutation := "UniformInteger"; mut_prob := 1 # 2;
         crossover := "OnePoint"; cx_prob := 1 # 2 |} [] w
    = (Ok (ObjTuple [ObjVector 0; ObjVector 1]), w') /\
    legal_genome example_config (heap w' 0) /\
    legal_genome example_config (heap w' 1).
Proof.
  intros w.
  destruct (@mate_library_returns float_ops_unused slot_order_Z slot_order_val
              example_clustering example_config 0 1
              {| mutation := "UniformInteger"; mut_prob := 1 # 2;
                 crossover := "OnePoint"; cx_prob := 1 # 2 |} [] w)
    as (w' & Hrun & Hl1 & Hl2 & _).
  - apply example_vector_legal. repeat constructor; lia.
  - apply example_vector_legal. repeat constructor; lia.
  - right. right. simpl. repeat split; lia.
  - by exists w'.
Defined.

Lemma mate_cluster_returns_witness :
  let w :=
    example_world (Some [-1; 0; 0; 1]%Z) [1; 1; 2; 2]%Z [2; 0; 1; 1]%Z
      (fun _ => 0%Q) in
  exists w',
    @mate float_ops_unused slot_order_Z slot_order_val example_clustering
      example_config 0 1
      {| mutation := "UniformInteger"; mut_prob := 1 # 2;
         crossover := "ClusterAlignment"; cx_prob := 1 # 2 |} [] w
    = (Ok (ObjTuple [ObjVector 0; ObjVector 1]), w') /\
    legal_genome example_config (heap w' 0) /\
    legal_genome example_config (heap w' 1).
Proof.
  intros w.
  destruct (@mate_cluster_returns float_ops_unused slot_order_Z slot_order_val
              example_clustering example_config 0 1
              {| mutation := "UniformInteger"; mut_prob := 1 # 2;
                 crossover := "ClusterAlignment"; cx_prob := 1 # 2 |} [] w
              [-1; 0; 0; 1]%Z)
    as (w' & Hrun & _ & Hl1 & Hl2 & _).
  - apply slot_order_Z_sound.
  - apply slot_order_val_nonempty.
  - apply example_vector_legal. repeat constructor; lia.
  - apply example_vector_legal. repeat constructor; lia.
  - reflexivity.
  - discriminate.
  - simpl. lia.
  - simpl. lia.
  - by right.
  - by exists w'.
Defined.

Lemma ClusterSwitch_returns_witness :
  let w :=
    example_world (Some [0; 0; -1; 1]%Z) [1; 1; 2; 2]%Z [2; 0; 1; 1]%Z
      (fun _ => 0%Q) in
  exists w',
    @ClusterSwitch float_ops_unused slot_order_Z example_config 0 (1 # 2) w
    = (Ok (ObjVector 0), w') /\
    legal_genome example_config (heap w' 0) /\
    @mutate float_ops_unused slot_order_Z example_clustering example_config 0
      {| mutation := "ClusterSwitch"; mut_prob := 1 # 2;
         crossover := "Uniform"; cx_prob := 1 # 2 |} [] w
    = (Raise AttributeError, w').
Proof.
  intros w.
  destruct (@ClusterSwitch_returns float_ops_unused slot_order_Z
              example_clustering example_config 0 (1 # 2) w [0; 0; -1; 1]%Z)
    as (w' & Hrun & Hl & _ & Hmutate).
  - apply example_vector_legal. repeat constructor; lia.
  - reflexivity.
  - simpl. lia.
  - simpl. lia.
  - exists w'. split; [exact Hrun|]. split; [exact Hl|].
    apply Hmutate; discriminate.
Defined.

Lemma mutate_library_returns_witness :
  let w := example_world None [1; 1; 2; 2]%Z [2; 0; 1; 1]%Z (fun _ => 0%Q) in
  exists w',
    @mutate float_ops_unused slot_order_Z example_clustering example_config 0
      {| mutation := "ShuffleIndexes"; mut_prob := 1 # 2;
         crossover := "Uniform"; cx_prob := 1 # 2 |} [] w
    = (Ok (ObjTuple [ObjVector 0]), w') /\
    legal_genome example_config (heap w' 0).
Proof.
  intros w.
  destruct (@mutate_library_returns float_ops_unused slot_order_Z
              example_clustering example_config 0
              {| mutation := "ShuffleIndexes"; mut_prob := 1 # 2;
                 crossover := "Uniform"; cx_prob := 1 # 2 |} [] w)
    as (w' & Hrun & Hl & _).
  - apply example_vector_legal. repeat constructor; lia.
  - right. split; [reflexivity|]. simpl. lia.
  - by exists w'.
Defined.

(** ** What [select] can return *)

Section SelectMembers.
Context `{FloatOps} `{SetOrder string} `{NonDominatedSort}.

Lemma individual_dict_last (l : list ConnectivityVector) :
  forall (d : gmap string ConnectivityVector) k ind,
    foldl (fun d ind => <[as_str ind := ind]> d) d l !! k = Some ind ->
    (exists i, l !! i = Some ind /\ as_str ind = k /\
               forall j ind', i < j -> l !! j = Some ind' -> as_str ind' <> k) \/
    (d !! k = Some ind /\ forall ind', ind' ∈ l -> as_str ind' <> k).
Proof.
  induction l as [|x l IH]; intros d k ind Hk; simpl in Hk.
  - right. split; [done|]. intros ind' Hin. by apply elem_of_nil in Hin.
  - destruct (IH _ _ _ Hk) as [(i & Hi & Hstr & Hlater)|[Hd Hnone]].
    + left. exists (Datatypes.S i). split; [done|]. split; [done|].
      intros j ind' Hj Hind'. destruct j as [|j]; [lia|].
      apply (Hlater j); [lia | done].
    + apply lookup_insert_Some in Hd as [[Hx <-]|[Hx Hd]].
      * left. exists 0. split; [done|]. split; [done|].
        intros j ind' Hj Hind'. destruct j as [|j]; [lia|].
        apply Hnone. by eapply list_elem_of_lookup_2.
      * right. split; [done|].
        intros ind' [->|Hin]%elem_of_cons; [done | by apply Hnone].
Qed.

Lemma select_in_front_from (d0 : gmap string ConnectivityVector) (n : nat)
    (front : list string) :
  forall st,
    (forall k ind, st.1 !! k = Some ind -> d0 !! k = Some ind) ->
    Forall (fun ind => d0 !! as_str ind = Some ind) st.2 ->
    dict_keyed d0 ->
    let st' := select_in_front n front st in
    (forall k ind, st'.1 !! k = Some ind -> d0 !! k = Some ind) /\
    Forall (fun ind => d0 !! as_str ind = Some ind) st'.2.
Proof.
  induction front as [|k rest IH]; intros [d pop] Hsub Hpop Hkeyed; [done|].
  simpl. destruct (n <=? length pop); [done|].
  destruct (d !! k) as [ind|] eqn:Hk; [|by apply IH].
  apply IH; simpl in *; [| |done].
  - intros k' ind' [_ Hk']%lookup_delete_Some. by apply Hsub.
  - apply Forall_app. split; [done|]. constructor; [|done].
    pose proof (Hsub k ind Hk) as Hd0. by rewrite (Hkeyed k ind Hd0).
Qed.

Lemma select_in_fronts_from (d0 : gmap string ConnectivityVector) (n : nat)
    (fronts : list (list string)) :
  forall st,
    (forall k ind, st.1 !! k = Some ind -> d0 !! k = Some ind) ->
    Forall (fun ind => d0 !! as_str ind = Some ind) st.2 ->
    dict_keyed d0 ->
    Forall (fun ind => d0 !! as_str ind = Some ind)
      (select_in_fronts n fronts st).
Proof.
  induction fronts as [|front rest IH]; intros st Hsub Hpop Hkeyed; [done|].
  simpl. destruct (n <=? length st.2); [done|].
  destruct (select_in_front_from d0 n front st Hsub Hpop Hkeyed) as [Hs Hp].
  by apply IH.
Qed.

(** X22 -- selection invents nothing.  Every genome [select] returns is one
    of the individuals it was handed; and of several individuals with the
    same [as_str], only the one handed in last can be returned. *)
Theorem select_members (individuals_list : list ConnectivityVector)
    (energy_system_solutions_dict : list (string * list SystemCombination))
    (population_size : nat) :
  match select individuals_list energy_system_solutions_dict population_size
  with
  | Ok new_population =>
      Forall (fun ind =>
                exists i,
                  individuals_list !! i = Some ind /\
                  forall j ind', i < j ->
                    individuals_list !! j = Some ind' ->
                    as_str ind' <> as_str ind)
             new_population
  | Raise _ => True
  end.
Proof.
  unfold select.
  destruct (connectivity_vectors_by_front _) as [by_front|]; [|done].
  simpl.
  eapply Forall_impl.
  - apply (select_in_fronts_from (individual_dict individuals_list));
      [done | constructor | apply individual_dict_keyed].
  - intros ind Hind. simpl in Hind. unfold individual_dict in Hind.
    apply individual_dict_last in Hind
      as [(i & Hi & _ & Hlater)|[Hempty _]]; [by exists i|].
    by rewrite lookup_empty in Hempty.
Qed.

Lemma individual_dict_size (l : list ConnectivityVector) :
  forall d : gmap string ConnectivityVector,
    size (foldl (fun d ind => <[as_str ind := ind]> d) d l)
    <= size d + length l.
Proof.
  induction l as [|x l IH]; intros d; simpl; [lia|].
  etrans; [apply IH|]. rewrite map_size_insert.
  destruct (d !! as_str x); unfold id; lia.
Qed.

Lemma individual_dict_lookup_last (l : list ConnectivityVector) :
  forall (d : gmap string ConnectivityVector) i ind,
    l !! i = Some ind ->
    (forall j ind', i < j -> l !! j = Some ind' -> as_str ind' <> as_str ind) ->
    foldl (fun d ind => <[as_str ind := ind]> d) d l !! as_str ind = Some ind.
Proof.
  induction l as [|x l IH]; intros d i ind Hi Hlater; [done|].
  simpl. destruct i as [|i].
  - injection Hi as ->.
    assert (forall l' (d' : gmap string ConnectivityVector),
              (forall ind', ind' ∈ l' -> as_str ind' <> as_str ind) ->
              d' !! as_str ind = Some ind ->
              foldl (fun d ind => <[as_str ind := ind]> d) d' l' !! as_str ind
              = Some ind) as Hkeep.
    { induction l' as [|y l' IH']; intros d' Hnone Hd'; [done|].
      simpl. apply IH'.
      - intros ind' Hin. apply Hnone. by right.
      - rewrite lookup_insert_ne; [done|]. apply Hnone. by left. }
    apply Hkeep.
    + intros ind' [j Hj]%list_elem_of_lookup.
      apply (Hlater (Datatypes.S j)); [lia | done].
    + apply lookup_insert_eq.
  - apply (IH _ i); [done|].
    intros j ind' Hj Hind'. apply (Hlater (Datatypes.S j)); [lia | done].
Qed.

Section Room.
Variable d0 : gmap string ConnectivityVector.
Variable n : nat.

Lemma select_in_front_room (front : list string) :
  forall st,
    (forall k ind, d0 !! k = Some ind -> st.1 !! k = Some ind \/ ind ∈ st.2) ->
    length st.2 + size st.1 <= n ->
    let st' := select_in_front n front st in
    (forall k ind, d0 !! k = Some ind -> st'.1 !! k = Some ind \/ ind ∈ st'.2) /\
    length st'.2 + size st'.1 <= n /\
    (forall ind, ind ∈ st.2 -> ind ∈ st'.2) /\
    (forall k ind, k ∈ front -> d0 !! k = Some ind -> ind ∈ st'.2).
Proof.
  induction front as [|k rest IH]; intros [d pop] Hinv Hsize; simpl in *.
  - repeat split; try done. intros k ind Hk. by apply elem_of_nil in Hk.
  - destruct (n <=? length pop) eqn:Hfull.
    + apply Nat.leb_le in Hfull. simpl.
      assert (d = ∅) as -> by (apply map_size_empty_inv; lia).
      repeat split; try done.
      intros k' ind _ Hk'. destruct (Hinv k' ind Hk') as [Hd|Hin]; [|done].
      by rewrite lookup_empty in Hd.
    + destruct (d !! k) as [ind'|] eqn:Hk.
      * destruct (IH (delete k d, pop ++ [ind'])) as (Hi & Hs & Hmono & Hdone).
        { simpl. intros k0 ind0 Hk0.
          destruct (Hinv k0 ind0 Hk0) as [Hd|Hin].
          - destruct (decide (k0 = k)) as [->|Hne].
            + right. apply elem_of_app. right.
              apply list_elem_of_singleton. congruence.
            + left. by rewrite lookup_delete_ne.
          - right. apply elem_of_app. by left. }
        { simpl. rewrite length_app, map_size_delete, Hk. simpl in *.
          assert (0 < size d); [|lia].
          destruct (decide (size d = 0)) as [E|]; [|lia].
          apply map_size_empty_inv in E. subst d.
          by rewrite lookup_empty in Hk. }
        simpl in *. split; [done|]. split; [done|]. split.
        { intros ind Hin. apply Hmono, elem_of_app. by left. }
        intros k0 ind0 [->|Hin]%elem_of_cons Hk0; [|by eapply Hdone].
        destruct (Hinv k ind0 Hk0) as [Hd|Hin].
        -- apply Hmono, elem_of_app. right.
           apply list_elem_of_singleton. congruence.
        -- apply Hmono, elem_of_app. by left.
      * destruct (IH (d, pop)) as (Hi & Hs & Hmono & Hdone); [done..|].
        simpl in *. split; [done|]. split; [done|]. split; [done|].
        intros k0 ind0 [->|Hin]%elem_of_cons Hk0; [|by eapply Hdone].
        destruct (Hinv k ind0 Hk0) as [Hd|Hin]; [congruence|].
        by apply Hmono.
Qed.

Lemma select_in_fronts_room (fronts : list (list string)) :
  forall st,
    (forall k ind, d0 !! k = Some ind -> st.1 !! k = Some ind \/ ind ∈ st.2) ->
    length st.2 + size st.1 <= n ->
    forall front k ind,
      front ∈ fronts -> k ∈ front -> d0 !! k = Some ind ->
      ind ∈ select_in_fronts n fronts st.
Proof.
  induction fronts as [|f rest IH]; intros st Hinv Hsize front k ind Hf Hk Hd.
  - by apply elem_of_nil in Hf.
  - simpl. destruct (n <=? length st.2) eqn:Hfull.
    + apply Nat.leb_le in Hfull.
      assert (st.1 = ∅) as E by (apply map_size_empty_inv; lia).
      destruct (Hinv k ind Hd) as [Hin|Hin]; [|done].
      by rewrite E, lookup_empty in Hin.
    + destruct (select_in_front_room f st Hinv Hsize)
        as (Hi & Hs & Hmono & Hdone).
      apply elem_of_cons in Hf as [->|Hf]; [|by eapply IH].
      specialize (Hdone k ind Hk Hd).
      clear -Hdone.
      generalize dependent (select_in_front n f st). clear.
      induction rest as [|f' rest IH]; intros st' Hin; simpl; [done|].
      destruct (n <=? length st'.2); [done|].
      apply IH.
      assert (forall front st0 x, x ∈ st0.2 ->
                x ∈ (select_in_front n front st0).2) as Hgrow.
      { clear. induction front as [|k rest IH]; intros [d pop] x Hx; [done|].
        simpl. destruct (n <=? length pop); [done|].
        destruct (d !! k); [|by apply IH].
        apply IH. simpl. apply elem_of_app. by left. }
      by apply Hgrow.
Qed.

End Room.

(** X23 -- with room for everyone, nobody is left out.  When the
    population size is at least the number of individuals and iterating
    over a set yields every element of the list it was built from, a
    population [select] returns contains every individual that is the last
    one with its [as_str] and has, in some front, a solution whose
    [encoding[0]] is that [as_str]. *)
Theorem select_room_for_all (individuals_list : list ConnectivityVector)
    (energy_system_solutions_dict : list (string * list SystemCombination))
    (population_size : nat) (new_population : list ConnectivityVector) :
  (forall (l : list string) (x : string), x ∈ l -> x ∈ set_iter l) ->
  length individuals_list <= population_size ->
  select individuals_list energy_system_solutions_dict population_size
  = Ok new_population ->
  let all := concat (snd <$> energy_system_solutions_dict) in
  forall i ind front solution,
    individuals_list !! i = Some ind ->
    (forall j ind', i < j -> individuals_list !! j = Some ind' ->
                    as_str ind' <> as_str ind) ->
    front ∈ sortLogNondominated all (length all) ->
    solution ∈ front ->
    encoding_0 solution = Ok (as_str ind) ->
    ind ∈ new_population.
Proof.
  intros Hcomplete Hroom Hrun all i ind front solution Hi Hlast Hfront Hsol Hkey.
  unfold select in Hrun. fold all in Hrun.
  destruct (connectivity_vectors_by_front
              (sortLogNondominated all (length all)))
    as [by_front|] eqn:Hfronts; [|done].
  simpl in Hrun. injection Hrun as <-.
  apply mapM_result_Forall2 in Hfronts.
  apply list_elem_of_lookup in Hfront as [m Hm].
  destruct (Forall2_lookup_l _ _ _ _ _ Hfronts Hm) as (keys & Hkeys & Hfk).
  simpl in Hfk.
  destruct (mapM encoding_0 front) as [ks|] eqn:Hks; [|done].
  simpl in Hfk. injection Hfk as <-.
  apply mapM_result_Forall2 in Hks.
  apply list_elem_of_lookup in Hsol as [m' Hm'].
  destruct (Forall2_lookup_l _ _ _ _ _ Hks Hm') as (key & Hkey' & Hk).
  assert (key = as_str ind) as -> by congruence.
  eapply (select_in_fronts_room (individual_dict individuals_list)).
  - intros k ind0 Hk0. by left.
  - simpl. pose proof (individual_dict_size individuals_list ∅) as Hs.
    rewrite map_size_empty in Hs. unfold individual_dict. lia.
  - by eapply list_elem_of_lookup_2.
  - apply Hcomplete. by eapply list_elem_of_lookup_2.
  - unfold individual_dict. by eapply individual_dict_lookup_last.
Qed.

End SelectMembers.

Lemma dedup_by_complete_str (l : list string) :
  forall seen x, x ∈ l -> x ∈ seen \/ x ∈ dedup_by String.eqb seen l.
Proof.
  induction l as [|a l IH]; intros seen x Hx; [by apply elem_of_nil in Hx|].
  simpl. destruct (existsb (String.eqb a) seen) eqn:Hseen.
  - apply elem_of_cons in Hx as [->|Hx]; [|by apply IH].
    left. apply existsb_exists in Hseen as (s & Hs & ->%String.eqb_eq).
    by apply list_elem_of_In.
  - apply elem_of_cons in Hx as [->|Hx]; [right; by left|].
    destruct (IH (a :: seen) x Hx) as [[->|Hs]%elem_of_cons|Hd].
    + right. by left.
    + by left.
    + right. by right.
Qed.

Lemma reverse_order_str_complete (l : list string) (x : string) :
  x ∈ l -> x ∈ @set_iter _ reverse_order_str l.
Proof.
  intros Hx. unfold set_iter, reverse_order_str. apply elem_of_reverse.
  destruct (dedup_by_complete_str l [] x Hx) as [Hnil|Hd]; [|done].
  by apply elem_of_nil in Hnil.
Qed.

Lemma select_room_for_all_witness :
  example_vector [1; 1]%Z
  ∈ [example_vector [0; 0]%Z; example_vector [1; 1]%Z].
Proof.
  apply (@select_room_for_all float_ops_unused reverse_order_str one_front
           [example_vector [1; 1]%Z; example_vector [0; 0]%Z]
           example_solutions 2
           [example_vector [0; 0]%Z; example_vector [1; 1]%Z]
           reverse_order_str_complete)
    with (i := 0) (front := concat (snd <$> example_solutions))
         (solution := example_solution "1_1" [-1; -2]%Q).
  - simpl. lia.
  - vm_compute. reflexivity.
  - reflexivity.
  - intros j ind' Hj Hind'. destruct j as [|[|j]]; [lia| |discriminate].
    injection Hind' as <-. vm_compute. discriminate.
  - simpl. apply list_elem_of_singleton. reflexivity.
  - simpl. left.
  - reflexivity.
Defined.

(** ** The encoding of a genome *)

Lemma pretty_N_go_no_underscore (x : N) :
  forall s, no_underscore s -> no_underscore (pretty_N_go x s).
Proof.
  induction (N.lt_wf_0 x) as [x _ IH]; intros s Hs.
  assert (x = 0 \/ 0 < x)%N as [->|Hx] by lia; [by rewrite pretty_N_go_0|].
  rewrite pretty_N_go_step by done. apply IH; [by apply N.div_lt|].
  split; [|done]. unfold pretty_N_char. by repeat case_match.
Qed.

Lemma pretty_N_go_nonempty (x : N) :
  forall s, s <> EmptyString -> pretty_N_go x s <> EmptyString.
Proof.
  induction (N.lt_wf_0 x) as [x _ IH]; intros s Hs.
  assert (x = 0 \/ 0 < x)%N as [->|Hx] by lia; [by rewrite pretty_N_go_0|].
  rewrite pretty_N_go_step by done. apply IH; [by apply N.div_lt | done].
Qed.

Lemma pretty_N_plain (x : N) :
  no_underscore (pretty x) /\ pretty x <> EmptyString.
Proof.
  unfold pretty, pretty_N. destruct (decide (x = 0%N)) as [->|Hx].
  - split; [|done]. simpl. split; [done|done].
  - split; [by apply pretty_N_go_no_underscore|].
    rewrite pretty_N_go_step by lia. by apply pretty_N_go_nonempty.
Qed.

Lemma pretty_Z_plain (z : Z) :
  no_underscore (pretty z) /\ pretty z <> EmptyString.
Proof.
  destruct z as [|p|p]; unfold pretty, pretty_Z.
  - split; [|done]. simpl. split; [done|done].
  - apply pretty_N_plain.
  - destruct (pretty_N_plain (Npos p)) as [Hn He].
    split; [|done]. simpl. split; [done|exact Hn].
Qed.

Lemma append_nil_l (s : string) : "" +:+ s = s.
Proof. reflexivity. Qed.

Lemma append_cons (c : Ascii.ascii) (s t : string) :
  String c s +:+ t = String c (s +:+ t).
Proof. reflexivity. Qed.

Lemma append_separator_inj (x y r1 r2 : string) :
  no_underscore x -> no_underscore y ->
  x +:+ "_" +:+ r1 = y +:+ "_" +:+ r2 -> x = y /\ r1 = r2.
Proof.
  revert y. induction x as [|a x IH]; intros [|b y] Hx Hy Heq;
    rewrite ?append_cons, ?append_nil_l in Heq; simpl in Hx, Hy.
  - by injection Heq as ->.
  - injection Heq as <- _. by destruct Hy.
  - injection Heq as -> _. by destruct Hx.
  - injection Heq as -> Heq. destruct Hx as [_ Hx], Hy as [_ Hy].
    destruct (IH y Hx Hy Heq) as [-> ->]. done.
Qed.

Lemma append_separator_neq (x y r : string) :
  no_underscore x -> x <> y +:+ "_" +:+ r.
Proof.
  revert x. induction y as [|b y IH]; intros [|a x] Hx Heq;
    rewrite ?append_cons, ?append_nil_l in Heq; simpl in Hx;
    try discriminate.
  - injection Heq as -> _. by destruct Hx.
  - injection Heq as _ Heq. destruct Hx as [_ Hx]. by eapply IH.
Qed.

Lemma concat_cons_cons (x y : string) (l : list string) :
  String.concat "_" (x :: y :: l) = x +:+ "_" +:+ String.concat "_" (y :: l).
Proof. reflexivity. Qed.

Lemma concat_nonempty (x : string) (l : list string) :
  x <> EmptyString -> String.concat "_" (x :: l) <> EmptyString.
Proof.
  intros Hx. destruct l; [done|]. rewrite concat_cons_cons.
  destruct x; [done|]. by rewrite append_cons.
Qed.

Lemma concat_separator_inj (l1 : list string) :
  forall l2,
    Forall (fun s => no_underscore s /\ s <> EmptyString) l1 ->
    Forall (fun s => no_underscore s /\ s <> EmptyString) l2 ->
    String.concat "_" l1 = String.concat "_" l2 -> l1 = l2.
Proof.
  induction l1 as [|x l1 IH]; intros [|y l2] H1 H2 Heq.
  - done.
  - apply Forall_cons in H2 as [[_ Hy] _]. symmetry in Heq.
    by apply concat_nonempty in Heq.
  - apply Forall_cons in H1 as [[_ Hx] _]. by apply concat_nonempty in Heq.
  - apply Forall_cons in H1 as [[Hx _] H1].
    apply Forall_cons in H2 as [[Hy _] H2].
    destruct l1 as [|x2 l1], l2 as [|y2 l2].
    + simpl in Heq. by subst.
    + rewrite concat_cons_cons in Heq. simpl in Heq.
      by apply append_separator_neq in Heq.
    + rewrite concat_cons_cons in Heq. simpl in Heq. symmetry in Heq.
      by apply append_separator_neq in Heq.
    + rewrite !concat_cons_cons in Heq.
      apply append_separator_inj in Heq as [-> Heq]; [|done..].
      f_equal. by apply IH.
Qed.

Lemma py_tuple_eqb_ints (zs1 zs2 : list Z) :
  py_tuple_eqb (PyInt <$> zs1) (PyInt <$> zs2) = true <-> zs1 = zs2.
Proof.
  revert zs2. induction zs1 as [|a zs1 IH]; intros [|b zs2]; simpl;
    try done.
  rewrite andb_true_iff, IH. unfold py_eqb. simpl. rewrite Z.eqb_eq.
  split; [by intros [-> ->] | by intros [= -> ->]].
Qed.

Lemma fmap_PyInt_inj (zs1 zs2 : list Z) :
  PyInt <$> zs1 = PyInt <$> zs2 -> zs1 = zs2.
Proof.
  revert zs2. induction zs1 as [|a zs1 IH]; intros [|b zs2]; try done.
  rewrite !fmap_cons. intros [= -> Heq]. f_equal. by apply IH.
Qed.

Lemma int_genome_values (cv : ConnectivityVector) :
  int_genome cv -> exists zs, values cv = PyInt <$> zs.
Proof.
  unfold int_genome. induction 1 as [|v vs [z ->] _ [zs ->]]; [by exists []|].
  by exists (z :: zs).
Qed.

(** X24 -- the encoding tells integer genomes apart.  Two genomes whose
    values are all of type [int] have the same [as_str] exactly if [__eq__]
    holds between them, that is, exactly if they hold the same values. *)
Theorem as_str_injective `{FloatOps} (cv_1 cv_2 : ConnectivityVector) :
  int_genome cv_1 -> int_genome cv_2 ->
  (as_str cv_1 = as_str cv_2 <-> ConnectivityVector_eq cv_1 cv_2 = true) /\
  (as_str cv_1 = as_str cv_2 <-> values cv_1 = values cv_2).
Proof.
  intros [zs1 E1]%int_genome_values [zs2 E2]%int_genome_values.
  unfold as_str, ConnectivityVector_eq. rewrite E1, E2.
  rewrite py_tuple_eqb_ints.
  assert (String.concat "_" (py_str <$> (PyInt <$> zs1))
          = String.concat "_" (py_str <$> (PyInt <$> zs2)) <-> zs1 = zs2)
    as Hiff.
  { split; [|by intros ->]. intros Heq.
    rewrite <- !list_fmap_compose in Heq.
    apply concat_separator_inj in Heq.
    - revert Heq. apply (inj (fmap (py_str ∘ PyInt))).
    - apply Forall_fmap, Forall_forall. intros z _. apply pretty_Z_plain.
    - apply Forall_fmap, Forall_forall. intros z _. apply pretty_Z_plain. }
  split; [done|]. rewrite Hiff. split; [by intros -> |].
  apply fmap_PyInt_inj.
Qed.

Lemma as_str_injective_witness :
  (@as_str float_ops_unused (example_vector [1; 12]%Z)
   = @as_str float_ops_unused (example_vector [11; 2]%Z) <->
   ConnectivityVector_eq (example_vector [1; 12]%Z) (example_vector [11; 2]%Z)
   = true) /\
  (@as_str float_ops_unused (example_vector [1; 12]%Z)
   = @as_str float_ops_unused (example_vector [11; 2]%Z) <->
   values (example_vector [1; 12]%Z) = values (example_vector [11; 2]%Z)).
Proof.
  apply as_str_injective; repeat constructor; eexists; reflexivity.
Defined.

(** ** The setter of [values] stops where it fails *)

Section ValuesSetter.
Context `{FloatOps}.
Variable cfg : config.

Lemma setitem_all_app (items_1 items_2 : list (nat * pyval)) :
  forall cv,
    setitem_all cfg cv (items_1 ++ items_2)
    = match setitem_all cfg cv items_1 with
      | (Ok _, cv') => setitem_all cfg cv' items_2
      | (Raise e, cv') => (Raise e, cv')
      end.
Proof.
  induction items_1 as [|[i v] items_1 IH]; intros cv; [done|].
  simpl. destruct (setitem cfg cv i v); [apply IH | done].
Qed.

Lemma setitem_all_prefix (vs : list pyval) :
  forall (pre mid suf : list Connection) (fit : Fitness),
    length mid = length vs -> Forall (legal_id cfg) vs ->
    setitem_all cfg {| connections := pre ++ mid ++ suf; fitness := fit |}
      (imap (fun i v => (length pre + i, v)) vs)
    = (Ok (), {| connections := pre ++ zip_with (stored_for cfg) mid vs ++ suf;
                 fitness := fit |}).
Proof.
  induction vs as [|v vs IH]; intros pre mid suf fit Hlen Hlegal.
  - destruct mid; [|done]. done.
  - destruct mid as [|c mid]; [done|].
    apply Forall_cons in Hlegal as [Hv Hvs].
    rewrite imap_cons. cbn [setitem_all].
    rewrite (setitem_legal _ _ _ c) by
      (try done; simpl; apply list_lookup_middle; lia).
    cbn [connections fitness]. rewrite insert_app_r.
    rewrite <- app_comm_cons. cbn [zip_with].
    rewrite (imap_ext _ (fun i x => (length (pre ++ [stored_for cfg c v]) + i, x))).
    2:{ intros i x _. simpl. rewrite length_app. simpl. f_equal. lia. }
    replace (length pre - length pre) with 0 by lia. simpl.
    rewrite (cons_middle _ pre (mid ++ suf)), app_assoc.
    rewrite IH by (simpl in Hlen; auto with lia).
    by rewrite <- app_assoc.
Qed.

(** X25 -- the setter of [values] is not atomic.  Handed a list of the
    right length in which a [None] or a string follows legal network ids,
    the setter raises [TypeError] when its loop reaches that entry: the
    positions before it hold the new values (canonicalised, and [0] for a
    building without demand), the others hold what they held. *)
Theorem values_setter_partial (cv : ConnectivityVector)
    (good rest : list pyval) (bad : pyval) :
  length (good ++ bad :: rest) = length (connections cv) ->
  Forall (legal_id cfg) good ->
  py_round2 bad = Raise TypeError ->
  let once := values_appearing_once cfg (good ++ bad :: rest) in
  values_setter cfg cv (good ++ bad :: rest)
  = (Raise TypeError,
     {| connections :=
          zip_with (stored_for cfg) (take (length good) (connections cv))
            ((fun i => if py_in_ints i once then PyInt 0 else i) <$> good)
          ++ drop (length good) (connections cv);
        fitness := fitness cv |}).
Proof.
  intros Hlen Hgood Hbad once. unfold values_setter.
  rewrite Hlen, Nat.eqb_refl. simpl. fold once.
  set (canon := fun i => if py_in_ints i once then PyInt 0 else i).
  set (rewritten := if negb (bool_decide (once = [])) then _ else _).
  assert (rewritten = canon <$> (good ++ bad :: rest)) as ->.
  { unfold rewritten. case_bool_decide as Hnil; [|done]. simpl.
    unfold canon. rewrite Hnil. generalize (good ++ bad :: rest). clear.
    induction l as [|v vs IH]; [done|]. rewrite fmap_cons, <- IH. done. }
  assert (canon bad = bad) as Hsame.
  { unfold canon.
    assert (py_as_int bad = None) as Hnone by (by destruct bad).
    assert (py_in_ints bad once = false) as ->; [|done].
    apply not_true_is_false. intros (z & Hz & _)%py_in_ints_true. congruence. }
  assert (Forall (legal_id cfg) (canon <$> good)) as Hcanon.
  { apply Forall_fmap. eapply Forall_impl; [exact Hgood|].
    intros v Hv. simpl. unfold canon. destruct (py_in_ints v once); [|done].
    destruct Hv as [_ (z & _ & Hr)]. apply legal_id_int. lia. }
  rewrite fmap_app, fmap_cons, Hsame, imap_app, setitem_all_app.
  destruct cv as [conns fit]. simpl in *.
  rewrite length_app in Hlen. simpl in Hlen.
  rewrite <- (take_drop (length good) conns) at 1.
  pose proof (setitem_all_prefix (canon <$> good) []
                (take (length good) conns) (drop (length good) conns) fit)
    as E.
  simpl in E.
  change (imap (fun (i : nat) (v : pyval) => (i, v)) (canon <$> good))
    with (imap pair (canon <$> good)) in E.
  rewrite E; [|rewrite length_take, length_fmap; lia | done].
  clear E.
  destruct (lookup_lt_is_Some_2 (drop (length good) conns) 0) as [c Hc].
  { rewrite length_drop. lia. }
  unfold setitem. cbn [connections].
  rewrite lookup_app_r
    by (rewrite length_zip_with, length_take, !length_fmap; lia).
  rewrite length_zip_with, length_take, !length_fmap.
  replace (length good + 0
           - ((length good `min` length conns) `min` length good))
    with 0 by lia.
  by rewrite Hc, Hbad.
Qed.

End ValuesSetter.

Lemma values_setter_partial_witness :
  let once :=
    values_appearing_once example_config
      ([PyInt 2; PyInt 1] ++ PyNone :: [PyInt 2]) in
  @values_setter float_ops_unused example_config
    (example_vector [0; 0; 0; 0]%Z) ([PyInt 2; PyInt 1] ++ PyNone :: [PyInt 2])
  = (Raise TypeError,
     {| connections :=
          zip_with (stored_for example_config)
            (take (length [PyInt 2; PyInt 1])
               (connections (example_vector [0; 0; 0; 0]%Z)))
            ((fun i => if py_in_ints i once then PyInt 0 else i)
               <$> [PyInt 2; PyInt 1])
          ++ drop (length [PyInt 2; PyInt 1])
               (connections (example_vector [0; 0; 0; 0]%Z));
        fitness := fitness (example_vector [0; 0; 0; 0]%Z) |}).
Proof.
  apply (@values_setter_partial float_ops_unused example_config
           (example_vector [0; 0; 0; 0]%Z) [PyInt 2; PyInt 1] [PyInt 2] PyNone).
  - reflexivity.
  - repeat constructor; eexists; split; (reflexivity || (simpl; lia)).
  - reflexivity.
Defined.

(** ** Writing and reading through a slice *)

Lemma py_position_front (len : nat) (n : nat) :
  n < len -> py_position len (Z.of_nat n) = Some n.
Proof.
  intros Hn. unfold py_position.
  assert (((0 <=? Z.of_nat n) && (Z.of_nat n <? Z.of_nat len))%Z = true) as ->
    by (apply andb_true_iff; lia).
  by rewrite Nat2Z.id.
Qed.

Lemma py_list_get_front {A} (l : list A) (n : nat) (x : A) :
  l !! n = Some x -> py_list_get l (Z.of_nat n) = Ok x.
Proof.
  intros Hn. unfold py_list_get.
  rewrite py_position_front by (by eapply lookup_lt_Some). by rewrite Hn.
Qed.

Lemma range_as_seq (a n : nat) :
  (fun k => (Z.of_nat a + Z.of_nat k)%Z) <$> seq 0 n = Z.of_nat <$> seq a n.
Proof.
  revert a. induction n as [|n IH]; intros a; [done|].
  cbn [seq fmap list_fmap]. f_equal; [lia|].
  fold (fmap (M := list) Z.of_nat (seq (Datatypes.S a) n)).
  rewrite <- IH, <- fmap_S_seq, <- list_fmap_compose.
  apply list_fmap_ext. intros i k _. simpl. lia.
Qed.

Lemma mapM_slice_read (l : list Connection) (n : nat) :
  forall a,
    a + n <= length l ->
    mapM (fun i => c ← py_list_get l i; mret (network_connection c))
         (Z.of_nat <$> seq a n)
    = Ok (network_connection <$> take n (drop a l)).
Proof.
  induction n as [|n IH]; intros a Ha; [done|].
  destruct (lookup_lt_is_Some_2 l a) as [c Hc]; [lia|].
  cbn [seq fmap list_fmap mapM].
  rewrite (py_list_get_front l a c Hc). simpl.
  fold (fmap (M := list) Z.of_nat (seq (Datatypes.S a) n)).
  rewrite IH by lia. simpl.
  rewrite (drop_S l c a Hc). done.
Qed.

Section Slices.
Context `{FloatOps}.
Variable cfg : config.

Lemma getitem_slice_plain (cv : ConnectivityVector) (a b : nat) :
  a <= b <= length (connections cv) ->
  getitem_slice cv {| slice_start := Some (Z.of_nat a);
                      slice_stop := Some (Z.of_nat b);
                      slice_step := None |}
  = Ok (network_connection <$> take (b - a) (drop a (connections cv))).
Proof.
  intros Hab. unfold getitem_slice, slice_indices. simpl.
  set (n := Z.of_nat (length (connections cv))).
  assert ((if (Z.of_nat a <? 0)%Z
           then if (Z.of_nat a + n <? 0)%Z then 0%Z else (Z.of_nat a + n)%Z
           else if (n <=? Z.of_nat a)%Z then n else Z.of_nat a)
          = Z.of_nat a) as ->.
  { destruct (Z.of_nat a <? 0)%Z eqn:E1; [lia|].
    destruct (n <=? Z.of_nat a)%Z eqn:E2; lia. }
  assert ((if (Z.of_nat b <? 0)%Z
           then if (Z.of_nat b + n <? 0)%Z then 0%Z else (Z.of_nat b + n)%Z
           else if (n <=? Z.of_nat b)%Z then n else Z.of_nat b)
          = Z.of_nat b) as ->.
  { destruct (Z.of_nat b <? 0)%Z eqn:E1; [lia|].
    destruct (n <=? Z.of_nat b)%Z eqn:E2; lia. }
  rewrite py_range3_unit.
  replace (Z.to_nat (Z.of_nat b - Z.of_nat a)) with (b - a) by lia.
  rewrite range_as_seq. apply mapM_slice_read. lia.
Qed.

Lemma setitem_slice_loop_plain (vs : list pyval) :
  forall (pre mid suf : list Connection) (fit : Fitness) (start : nat)
         (assigned : list pyval),
    length pre = start + length assigned ->
    length mid = length vs ->
    Forall (legal_id cfg) vs ->
    setitem_slice_loop cfg {| connections := pre ++ mid ++ suf; fitness := fit |}
      (Z.of_nat start) (assigned ++ vs)
      (Z.of_nat <$> seq (length pre) (length vs))
    = (Ok (), {| connections := pre ++ zip_with (stored_for cfg) mid vs ++ suf;
                 fitness := fit |}).
Proof.
  induction vs as [|v vs IH]; intros pre mid suf fit start assigned Hpre Hmid Hlegal.
  - destruct mid; [|done]. done.
  - destruct mid as [|c mid]; [done|].
    apply Forall_cons in Hlegal as [Hv Hvs].
    cbn [length seq fmap list_fmap setitem_slice_loop].
    fold (fmap (M := list) Z.of_nat (seq (Datatypes.S (length pre)) (length vs))).
    unfold setitem_slice_step. cbn [connections fitness].
    replace (Z.of_nat (length pre) - Z.of_nat start)%Z
      with (Z.of_nat (length assigned)) by lia.
    rewrite (py_list_get_front (assigned ++ v :: vs) (length assigned) v)
      by (by apply list_lookup_middle).
    destruct Hv as [Hint (z & Hz & Hr)]. simpl.
    rewrite (py_round2_legal v z Hint Hz). simpl.
    rewrite py_position_front by (rewrite length_app; simpl; lia).
    rewrite (list_lookup_middle pre (mid ++ suf) c (length pre) eq_refl).
    unfold set_network_connection.
    rewrite (setter_legal cfg (building c) (PyInt z)) by by apply legal_id_int.
    simpl.
    rewrite insert_app_r_alt by lia.
    replace (length pre - length pre) with 0 by lia. simpl.
    assert ({| building := building c;
               network_connection :=
                 if in_zero_demand cfg (building c) then PyInt 0 else PyInt z |}
            = stored_for cfg c v) as ->.
    { unfold stored_for. by rewrite Hz. }
    rewrite (cons_middle v assigned vs), app_assoc.
    rewrite (cons_middle (stored_for cfg c v) pre (mid ++ suf)), app_assoc.
    replace (Datatypes.S (length pre))
      with (length (pre ++ [stored_for cfg c v]))
      by (rewrite length_app; simpl; lia).
    rewrite (IH (pre ++ [stored_for cfg c v]) mid suf fit start (assigned ++ [v]));
      [by rewrite <- app_assoc | | by simpl in Hmid; lia | done].
    rewrite !length_app. simpl. lia.
Qed.

(** X26 -- what is written through a slice is read back.  For a slice
    [a:b] within the genome (with [b] not [0]) and as many legal network
    ids, [cv[a:b] = vs] succeeds; afterwards [cv[a:b]] reads the ids back
    (as [int], and [0] where the building has no demand), and the positions
    outside the slice and the fitness are what they were. *)
Theorem slice_round_trip (cv : ConnectivityVector) (a b : nat)
    (vs : list pyval) :
  a <= b <= length (connections cv) -> 0 < b ->
  length vs = b - a ->
  Forall (legal_id cfg) vs ->
  let sl := {| slice_start := Some (Z.of_nat a);
               slice_stop := Some (Z.of_nat b); slice_step := None |} in
  exists cv',
    setitem_slice cfg cv sl vs = (Ok (), cv') /\
    getitem_slice cv' sl
    = Ok (network_connection
            <$> zip_with (stored_for cfg)
                  (take (b - a) (drop a (connections cv))) vs) /\
    take a (connections cv') = take a (connections cv) /\
    drop b (connections cv') = drop b (connections cv) /\
    fitness cv' = fitness cv.
Proof.
  intros Hab Hb Hlen Hlegal sl. destruct cv as [conns fit]. simpl in *.
  set (pre := take a conns).
  set (mid := take (b - a) (drop a conns)).
  set (suf := drop b conns).
  assert (conns = pre ++ mid ++ suf) as Hsplit.
  { unfold pre, mid, suf.
    rewrite <- (take_drop a conns) at 1. f_equal.
    rewrite <- (take_drop (b - a) (drop a conns)) at 1. f_equal.
    rewrite drop_drop. f_equal. lia. }
  assert (length pre = a) as Hpre by (unfold pre; rewrite length_take; lia).
  assert (length mid = b - a) as Hmid
    by (unfold mid; rewrite length_take, length_drop; lia).
  eexists. split; [|split; [|split; [|split]]].
  - unfold setitem_slice. simpl.
    assert ((if (Z.of_nat a =? 0)%Z then 0%Z else Z.of_nat a) = Z.of_nat a)
      as -> by (destruct (Z.of_nat a =? 0)%Z eqn:E; lia).
    assert ((Z.of_nat b =? 0)%Z = false) as -> by lia.
    rewrite py_range3_unit.
    replace (Z.to_nat (Z.of_nat b - Z.of_nat a)) with (length vs) by lia.
    rewrite range_as_seq, Hsplit. rewrite <- Hpre at 2.
    apply (setitem_slice_loop_plain vs pre mid suf fit a []);
      [simpl; lia | lia | done].
  - unfold sl. rewrite getitem_slice_plain
      by (simpl; rewrite !length_app, length_zip_with; lia).
    simpl. f_equal. f_equal.
    rewrite drop_app_length' by done.
    rewrite take_app_length'; [done|]. rewrite length_zip_with. lia.
  - simpl. by rewrite take_app_length'.
  - simpl. rewrite app_assoc, drop_app_length'; [done|].
    rewrite length_app, length_zip_with. lia.
  - done.
Qed.

End Slices.

Lemma slice_round_trip_witness :
  exists cv',
    @setitem_slice float_ops_unused example_config
      (example_vector [0; 0; 0; 0]%Z)
      {| slice_start := Some 1%Z; slice_stop := Some 3%Z; slice_step := None |}
      [PyInt 2; PyInt 2]
    = (Ok (), cv') /\
    getitem_slice cv'
      {| slice_start := Some 1%Z; slice_stop := Some 3%Z; slice_step := None |}
    = Ok [PyInt 2; PyInt 2].
Proof.
  destruct (@slice_round_trip float_ops_unused example_config
              (example_vector [0; 0; 0; 0]%Z) 1 3 [PyInt 2; PyInt 2])
    as (cv' & Hset & Hget & _).
  - simpl. lia.
  - lia.
  - reflexivity.
  - repeat constructor; eexists; split; (reflexivity || (simpl; lia)).
  - exists cv'. split; [exact Hset | exact Hget].
Defined.

(** ** What the cluster crossovers do *)

Lemma swapped_connections_nil (cfg : config) (mine other : list Connection) :
  swapped_connections cfg [] mine other = mine.
Proof.
  unfold swapped_connections. apply list_eq. intros i.
  rewrite list_lookup_imap. by destruct (mine !! i).
Qed.

Lemma swapped_connections_cons (cfg : config) (i : nat) (rest : list nat)
    (mine other : list Connection) (c c' : Connection) :
  i ∉ rest -> mine !! i = Some c -> other !! i = Some c' ->
  swapped_connections cfg rest
    (<[i := stored_for cfg c (network_connection c')]> mine)
    (<[i := stored_for cfg c' (network_connection c)]> other)
  = swapped_connections cfg (i :: rest) mine other.
Proof.
  intros Hi Hc Hc'. unfold swapped_connections. apply list_eq. intros j.
  rewrite !list_lookup_imap. destruct (decide (j = i)) as [->|Hne].
  - rewrite !list_lookup_insert_eq by (eapply lookup_lt_Some; eassumption).
    rewrite Hc. cbn [fmap option_fmap option_map]. f_equal.
    rewrite decide_False by done.
    rewrite decide_True by (by left). by rewrite Hc'.
  - rewrite !list_lookup_insert_ne by done.
    destruct (mine !! j) as [cj|]; [|done].
    cbn [fmap option_fmap option_map]. f_equal.
    destruct (decide (j ∈ rest)) as [Hin|Hout].
    + rewrite decide_True by (by right). done.
    + rewrite decide_False; [done|]. by intros [?|?]%elem_of_cons.
Qed.

Lemma swapped_connections_length (cfg : config) (swapped : list nat)
    (mine other : list Connection) :
  length (swapped_connections cfg swapped mine other) = length mine.
Proof. unfold swapped_connections. by rewrite length_imap. Qed.

Section Swaps.
Context `{FloatOps}.
Variable cfg : config.
Variables cv_1 cv_2 : loc.
Hypothesis distinct : cv_1 <> cv_2.

Lemma swap_at_run (i : nat) (w : world) (c1 c2 : Connection) :
  connections (heap w cv_1) !! i = Some c1 ->
  connections (heap w cv_2) !! i = Some c2 ->
  legal_id cfg (network_connection c1) ->
  legal_id cfg (network_connection c2) ->
  swap_at cfg cv_1 cv_2 i w
  = (Ok (),
     store cv_2
       {| connections :=
            <[i := stored_for cfg c2 (network_connection c1)]>
              (connections (heap w cv_2));
          fitness := fitness (heap w cv_2) |}
       (store cv_1
          {| connections :=
               <[i := stored_for cfg c1 (network_connection c2)]>
                 (connections (heap w cv_1));
             fitness := fitness (heap w cv_1) |} w)).
Proof.
  intros Hc1 Hc2 Hl1 Hl2. unfold swap_at.
  rewrite bind_run. unfold cv_getitem at 1, getitem. rewrite Hc2.
  rewrite bind_run. unfold cv_getitem at 1, getitem. rewrite Hc1.
  rewrite bind_run. unfold cv_setitem at 1.
  rewrite (setitem_legal cfg _ i c1 _ Hc1 Hl2).
  unfold cv_setitem. cbn [heap store].
  rewrite decide_False by (by intros ->).
  by rewrite (setitem_legal cfg _ i c2 _ Hc2 Hl1).
Qed.

Lemma swaps_run (indexes : list nat) :
  forall w,
    NoDup indexes ->
    legal_genome cfg (heap w cv_1) -> legal_genome cfg (heap w cv_2) ->
    Forall (fun i => i < length (connections (heap w cv_1)) /\
                     i < length (connections (heap w cv_2))) indexes ->
    exists w',
      for_each indexes (swap_at cfg cv_1 cv_2) w = (Ok (), w') /\
      swapped_world cfg cv_1 cv_2 indexes w w'.
Proof.
  induction indexes as [|i rest IH]; intros w Hnodup Hl1 Hl2 Hall.
  - exists w. split; [done|]. unfold swapped_world.
    rewrite !swapped_connections_nil. by destruct (heap w cv_1), (heap w cv_2).
  - apply NoDup_cons in Hnodup as [Hi Hnodup].
    apply Forall_cons in Hall as [[Hi1 Hi2] Hall].
    destruct (lookup_lt_is_Some_2 _ _ Hi1) as [c1 Hc1].
    destruct (lookup_lt_is_Some_2 _ _ Hi2) as [c2 Hc2].
    assert (legal_id cfg (network_connection c1)) as Hv1.
    { unfold legal_genome in Hl1. rewrite Forall_forall in Hl1.
      apply Hl1. by eapply list_elem_of_lookup_2. }
    assert (legal_id cfg (network_connection c2)) as Hv2.
    { unfold legal_genome in Hl2. rewrite Forall_forall in Hl2.
      apply Hl2. by eapply list_elem_of_lookup_2. }
    cbn [for_each]. rewrite bind_run, (swap_at_run i w c1 c2) by done.
    set (w1 := store cv_2 _ (store cv_1 _ w)).
    assert (heap w1 cv_1
            = {| connections :=
                   <[i := stored_for cfg c1 (network_connection c2)]>
                     (connections (heap w cv_1));
                 fitness := fitness (heap w cv_1) |}) as E1.
    { unfold w1. cbn [heap store]. rewrite decide_False by done.
      by rewrite decide_True. }
    assert (heap w1 cv_2
            = {| connections :=
                   <[i := stored_for cfg c2 (network_connection c1)]>
                     (connections (heap w cv_2));
                 fitness := fitness (heap w cv_2) |}) as E2.
    { unfold w1. cbn [heap store]. by rewrite decide_True. }
    destruct (IH w1) as (w' & Hrun & Hw1 & Hw2 & Hothers & Hcache).
    + done.
    + rewrite E1. unfold legal_genome. simpl.
      apply Forall_insert; [done | by apply stored_for_legal].
    + rewrite E2. unfold legal_genome. simpl.
      apply Forall_insert; [done | by apply stored_for_legal].
    + rewrite E1, E2. simpl. by rewrite !length_insert.
    + exists w'. split; [done|]. unfold swapped_world.
      rewrite Hw1, Hw2, E1, E2. simpl.
      rewrite (swapped_connections_cons cfg i rest _ _ c1 c2) by done.
      rewrite (swapped_connections_cons cfg i rest _ _ c2 c1) by done.
      split; [done|]. split; [done|]. split; [|done].
      intros l Hn1 Hn2. rewrite (Hothers l Hn1 Hn2). unfold w1.
      cbn [heap store]. by rewrite !decide_False.
Qed.

End Swaps.





Lemma sublist_Forall {A} (P : A -> Prop) (l1 l2 : list A) :
  l1 `sublist_of` l2 -> Forall P l2 -> Forall P l1.
Proof.
  intros Hsub Hall. rewrite Forall_forall in *.
  intros x Hx. apply Hall. by eapply elem_of_sublist.
Qed.


Section ClusterCrossovers.
Context `{FloatOps} `{SetOrder Z} `{SetOrder pyval} `{ClusteringOps}.
Variable cfg : config.

Lemma swapped_world_reads (cv_1 cv_2 : loc) (swapped : list nat)
    (w w1 w' : world) :
  heap w1 = heap w -> cluster_indexes w1 = cluster_indexes w ->
  swapped_world cfg cv_1 cv_2 swapped w1 w' ->
  swapped_world cfg cv_1 cv_2 swapped w w'.
Proof. unfold swapped_world. intros -> ->. done. Qed.


Lemma swappable_sound (cv_1 cv_2 : loc)
    (pairs : list (nat * (pyval * pyval))) :
  forall w indexes w',
    swappable_building_indexes cv_1 cv_2 pairs w = (Ok indexes, w') ->
    w' = w /\
    indexes `sublist_of` (fst <$> pairs) /\
    Forall (fun j =>
              exists q1 q2 a b,
                (j, (q1, q2)) ∈ pairs /\
                getitem (heap w cv_1) j = Ok a /\ py_eqb a q2 = true /\
                getitem (heap w cv_2) j = Ok b /\ py_eqb b q1 = true)
           indexes.
Proof.
  induction pairs as [|[k [p1 p2]] pairs IH]; intros w indexes w'; simpl.
  - intros [= <- <-]. split; [done|]. split; [done | constructor].
  - rewrite bind_run. unfold cv_getitem at 1.
    destruct (getitem (heap w cv_1) k) as [a|e] eqn:Ha; [|done].
    rewrite bind_run.
    assert (forall keep,
              (keep = true ->
               exists b, getitem (heap w cv_2) k = Ok b /\
                         py_eqb a p2 = true /\ py_eqb b p1 = true) ->
              (indexes0 ← swappable_building_indexes cv_1 cv_2 pairs;
               mret (if keep : bool then k :: indexes0 else indexes0)) w
              = (Ok indexes, w') ->
              w' = w /\
              indexes `sublist_of` (k :: (fst <$> pairs)) /\
              Forall (fun j =>
                        exists q1 q2 a b,
                          (j, (q1, q2)) ∈ (k, (p1, p2)) :: pairs /\
                          getitem (heap w cv_1) j = Ok a /\
                          py_eqb a q2 = true /\
                          getitem (heap w cv_2) j = Ok b /\
                          py_eqb b q1 = true) indexes) as Hrest.
    { intros keep Hkeep Hrun. bind_inv Hrun. injection Hrun as <- <-.
      destruct (IH _ _ _ E) as (-> & Hsub & Hall).
      split; [done|].
      assert (Forall (fun j =>
                        exists q1 q2 a0 b,
                          (j, (q1, q2)) ∈ (k, (p1, p2)) :: pairs /\
                          getitem (heap w cv_1) j = Ok a0 /\
                          py_eqb a0 q2 = true /\
                          getitem (heap w cv_2) j = Ok b /\
                          py_eqb b q1 = true) a0) as Hall'.
      { eapply Forall_impl; [exact Hall|].
        intros j (q1 & q2 & x & y & Hin & Hrest).
        exists q1, q2, x, y. split; [by right | done]. }
      destruct keep.
      - split; [by apply sublist_skip|]. constructor; [|done].
        destruct (Hkeep eq_refl) as (b & Hb & Ea & Eb).
        exists p1, p2, a, b. split; [by left | done].
      - split; [by apply sublist_cons | done]. }
    destruct (py_eqb a p2) eqn:Ea.
    + rewrite bind_run. unfold cv_getitem at 1.
      destruct (getitem (heap w cv_2) k) as [b|e] eqn:Hb; [|done].
      intros Hrun. apply (Hrest (py_eqb b p1)); [|exact Hrun].
      intros Eb. by exists b.
    + intros Hrun. by apply (Hrest false).
Qed.

(** X28 -- what [ClusterAlignment] does.  With a cluster cache not longer
    than either genome, [ClusterAlignment] on two different genomes of
    legal network ids returns the pair of them after exchanging their
    values at some positions, at each of which the first genome held the
    prevalent value of the position's cluster in the second and the second
    held the prevalent value of that cluster in the first; the values at
    all other positions stay. *)
Theorem ClusterAlignment_aligns (cv_1 cv_2 : loc) (cx_prob : Q)
    (w : world) (ci : list Z) :
  (forall (l : list Z) (x : Z), x ∈ set_iter l -> x ∈ l) ->
  (forall l : list pyval, l <> [] -> set_iter l <> []) ->
  cv_1 <> cv_2 ->
  legal_genome cfg (heap w cv_1) -> legal_genome cfg (heap w cv_2) ->
  cluster_indexes w = Some ci ->
  length ci <= length (connections (heap w cv_1)) ->
  length ci <= length (connections (heap w cv_2)) ->
  exists prevailing_1 prevailing_2 swapped w',
    most_prevalent_connectivity_values (heap w cv_1) ci (set_iter ci)
    = Ok prevailing_1 /\
    most_prevalent_connectivity_values (heap w cv_2) ci (set_iter ci)
    = Ok prevailing_2 /\
    Forall (fun i =>
              exists q1 q2 a b,
                prevailing_1 !! i = Some q1 /\ prevailing_2 !! i = Some q2 /\
                getitem (heap w cv_1) i = Ok a /\ py_eqb a q2 = true /\
                getitem (heap w cv_2) i = Ok b /\ py_eqb b q1 = true)
           swapped /\
    ClusterAlignment cfg cv_1 cv_2 cx_prob w
    = (Ok (ObjTuple [ObjVector cv_1; ObjVector cv_2]), w') /\
    swapped_world cfg cv_1 cv_2 swapped w w'.
Proof.
  intros Hsound Hnonempty Hne Hl1 Hl2 Hci Hlen1 Hlen2.
  destruct (most_prevalent_loop_returns Hnonempty (heap w cv_1) ci
              (set_iter ci) Hlen1 (Hsound ci)
              (replicate (length (connections (heap w cv_1))) PyNone)
              (length_replicate _ _)) as (p1 & Hp1 & Hp1len).
  destruct (most_prevalent_loop_returns Hnonempty (heap w cv_2) ci
              (set_iter ci) Hlen2 (Hsound ci)
              (replicate (length (connections (heap w cv_2))) PyNone)
              (length_replicate _ _)) as (p2 & Hp2 & Hp2len).
  pose proof (ready_now cfg cv_1 cv_2 w Hl1 Hl2) as Hready.
  destruct (returns_swappable cfg (fun l => l = cv_1 \/ l = cv_2)
              (fun l => length (connections (heap w l))) (cluster_indexes w)
              cv_1 cv_2 (imap pair (zip p1 p2))
              (or_introl eq_refl) (or_intror eq_refl))
    with (w := w) as (swappable & w0 & Hsw & _ & Hrange); [|done|].
  { apply Forall_forall.
    intros [i pq] (k & y & [= -> ->] & Hk%lookup_lt_Some)%elem_of_lookup_imap.
    rewrite length_zip in Hk. simpl. lia. }
  destruct (swappable_sound _ _ _ _ _ _ Hsw) as (-> & Hsub & Hsound').
  destruct (select_values_run swappable cx_prob w)
    as (selected & w1 & Hsel & Hsubsel & _ & Hheap & Hcache).
  assert (NoDup swappable) as Hnodup.
  { eapply sublist_NoDup; [|exact Hsub].
    assert (fst <$> imap pair (zip p1 p2) = seq 0 (length (zip p1 p2))) as ->.
    { apply list_eq. intros i.
      rewrite list_lookup_fmap, list_lookup_imap.
      destruct (zip p1 p2 !! i) as [x|] eqn:E; simpl.
      - by rewrite lookup_seq_lt by (by eapply lookup_lt_Some).
      - by rewrite lookup_seq_ge by (by apply lookup_ge_None). }
    apply NoDup_seq. }
  destruct (swaps_run cfg cv_1 cv_2 Hne selected w1)
    as (w' & Hrun & Hswapped).
  - by eapply sublist_NoDup.
  - by rewrite Hheap.
  - by rewrite Hheap.
  - rewrite Hheap. eapply Forall_impl.
    + eapply sublist_Forall; [exact Hsubsel | exact Hrange].
    + done.
  - exists p1, p2, selected, w'.
    split; [exact Hp1|]. split; [exact Hp2|]. split; [|split].
    + eapply Forall_impl.
      * eapply sublist_Forall; [exact Hsubsel | exact Hsound'].
      * intros i (q1 & q2 & a & b & Hin & Hrest). simpl in Hrest.
        exists q1, q2, a, b.
        apply elem_of_lookup_imap in Hin as (k & y & [= <- <-] & Hk).
        apply lookup_zip_with_Some in Hk as (x1 & x2 & [= <- <-] & Hx1 & Hx2).
        done.
    + unfold ClusterAlignment. rewrite bind_run.
      unfold iter_cluster_indexes at 1. rewrite Hci.
      rewrite bind_run. unfold _get_most_prevalent_connectivity_values at 1.
      rewrite bind_run. unfold iter_cluster_indexes at 1. rewrite Hci.
      rewrite bind_run. unfold cv_read at 1, lift_result at 1.
      unfold most_prevalent_connectivity_values at 1. rewrite Hp1.
      rewrite bind_run. unfold _get_most_prevalent_connectivity_values at 1.
      rewrite bind_run. unfold iter_cluster_indexes at 1. rewrite Hci.
      rewrite bind_run. unfold cv_read at 1, lift_result at 1.
      unfold most_prevalent_connectivity_values at 1. rewrite Hp2.
      rewrite bind_run, Hsw, bind_run, Hsel, bind_run, Hrun. done.
    + by eapply swapped_world_reads.
Qed.

End ClusterCrossovers.


Lemma ClusterAlignment_aligns_witness :
  let w :=
    example_world (Some [0; 0; 0; -1]%Z) [1; 1; 2; 2]%Z [2; 2; 1; 1]%Z
      (fun _ => 0%Q) in
  exists prevailing_1 prevailing_2 swapped w',
    @most_prevalent_connectivity_values slot_order_val (heap w 0)
      [0; 0; 0; -1]%Z (@set_iter _ slot_order_Z [0; 0; 0; -1]%Z)
    = Ok prevailing_1 /\
    @most_prevalent_connectivity_values slot_order_val (heap w 1)
      [0; 0; 0; -1]%Z (@set_iter _ slot_order_Z [0; 0; 0; -1]%Z)
    = Ok prevailing_2 /\
    Forall (fun i =>
              exists q1 q2 a b,
                prevailing_1 !! i = Some q1 /\ prevailing_2 !! i = Some q2 /\
                getitem (heap w 0) i = Ok a /\ py_eqb a q2 = true /\
                getitem (heap w 1) i = Ok b /\ py_eqb b q1 = true)
           swapped /\
    @ClusterAlignment float_ops_unused slot_order_Z slot_order_val
      example_config 0 1 (1 # 2) w
    = (Ok (ObjTuple [ObjVector 0; ObjVector 1]), w') /\
    swapped_world example_config 0 1 swapped w w'.
Proof.
  intros w.
  apply (@ClusterAlignment_aligns float_ops_unused slot_order_Z slot_order_val
           example_config 0 1 (1 # 2) w [0; 0; 0; -1]%Z).
  - apply slot_order_Z_sound.
  - apply slot_order_val_nonempty.
  - discriminate.
  - apply example_vector_legal. repeat constructor; lia.
  - apply example_vector_legal. repeat constructor; lia.
  - reflexivity.
  - simpl. lia.
  - simpl. lia.
Defined.

